(** * src-game-csv-exporter: normalizer, leaderboard builder and ranker

    A shallow embedding of [src/src-game-csv-exporter.js] and the
    properties of its stages:

    - the request gate and the pagination (lines 26-70),
    - [processRun]   (lines 111-178)  the run normalizer,
    - the fetch of the categories (lines 185-216),
    - the breakout loop (lines 219-281)  the leaderboard builder,
    - the ranking loop  (lines 284-317)  the ranker,
    - the rows and the file names of the CSV export (lines 320-350).

    Modelling conventions.

    - A JavaScript number is modelled by the rational it denotes ([Q]);
      [Math.floor], [%], [===] and the sign of a difference are exact on
      IEEE doubles.  The arithmetic of the time formatter is exact on
      doubles only while the floored time is below 2^53 in magnitude; the
      model computes it on integers, and the statements about the time
      text carry this bound.  NaN and the infinities cannot be produced by
      JSON and are not modelled.
    - A property that may be missing ([undefined] or [null]) is an [option];
      truthiness is written out (the empty string and [0] are falsy).
    - Objects used as maps are finite maps on their own properties.  A
      plain object also inherits the members of [Object.prototype]
      ([Js.inherited]): the reads of [catVariable.values] (lines 231 and
      254) and of [runsByUserId] (lines 289-290) see them.  The ids the
      program uses as keys elsewhere (user, platform, variable, category
      and leaderboard ids) are read as own properties; an id that names a
      member of [Object.prototype] is outside the model there.
    - Objects that are iterated with [for ... in] are association lists
      kept in insertion order, enumerated in JavaScript's own-key order.
    - A response object of the upstream API follows the API's schema, each
      property possibly missing.
    - [async] functions run sequentially: a call is a state transformer over
      the two lookup caches that either completes normally or throws. *)

From Stdlib Require Import ZArith QArith Qround Lia Lqa Ascii String.
From stdpp Require Import base option list sorting strings pretty gmap.

Local Open Scope Z_scope.

(** ** JavaScript primitives used by the program *)

Module Js.

(** Abrupt completions: a [TypeError] raised by reading a property of
    [undefined], or a failed upstream request. *)
Inductive Error := TypeError | RequestError.

Inductive Completion (A : Type) :=
| Normal (a : A)
| Throw (e : Error).
Arguments Normal {A} a.
Arguments Throw {A} e.

(** [!!s] for a string that may be missing. *)
Definition truthy_str (s : option string) : bool :=
  match s with
  | Some s => negb (String.eqb s EmptyString)
  | None => false
  end.

(** [!!n] for a number that may be missing. *)
Definition truthy_num (n : option Q) : bool :=
  match n with
  | Some q => negb (Qeq_bool q 0)
  | None => false
  end.

(** [a === b] on strings that may be missing. *)
Definition str_eq (a b : option string) : bool :=
  match a, b with
  | Some x, Some y => String.eqb x y
  | None, None => true
  | _, _ => false
  end.

(** [a === b] on numbers that may be missing. *)
Definition num_eq (a b : option Q) : bool :=
  match a, b with
  | Some x, Some y => Qeq_bool x y
  | None, None => true
  | _, _ => false
  end.

(** [a % b]: the remainder takes the sign of the dividend. *)
Definition rem (a b : Z) : Z := Z.rem a b.

(** ['' + n] for an integral number. *)
Definition to_string (n : Z) : string := pretty n.

Fixpoint repeat_char (c : Ascii.ascii) (n : nat) : string :=
  match n with
  | O => EmptyString
  | S n' => String c (repeat_char c n')
  end.

(** [s.padStart(targetLength, c)] for a one-character pad string. *)
Definition padStart (targetLength : nat) (c : Ascii.ascii) (s : string) : string :=
  repeat_char c (targetLength - String.length s) +:+ s.

(** [s.includes(c)] for a one-character search string. *)
Fixpoint includes (c : Ascii.ascii) (s : string) : bool :=
  match s with
  | EmptyString => false
  | String c' s' => Ascii.eqb c' c || includes c s'
  end.

(** The names of the members of [Object.prototype].  An object made by
    [{}] inherits them: reading one of these names on it gives the member
    (a function, or the prototype itself for [__proto__]), which is truthy,
    unless the object has an own property of that name. *)
Definition object_prototype_members : list string :=
  ["constructor"; "__defineGetter__"; "__defineSetter__"; "hasOwnProperty";
   "__lookupGetter__"; "__lookupSetter__"; "isPrototypeOf";
   "propertyIsEnumerable"; "toString"; "valueOf"; "__proto__";
   "toLocaleString"].

Definition inherited (k : string) : bool :=
  bool_decide (k ∈ object_prototype_members).

(** The value of a completion, mapped. *)
Global Instance Completion_fmap : FMap Completion := λ A B (f : A → B) c,
  match c with
  | Normal a => Normal (f a)
  | Throw e => Throw e
  end.

End Js.

Import Js.

(** ** Options, upstream responses and normalized runs *)

(** [program.opts()], the part the core reads. *)
Record Options := {
  breakoutVariables : bool;
  includeUnverifiedRuns : bool;
  includeRunHistory : bool
}.

(** The [status] object of a run response. *)
Record StatusObj := {
  so_status : option string;
  so_verify_date : option string;
  so_examiner : option string
}.

(** What [runResponseObj.status] can hold: the API's status object, or a
    plain string (the shape the normalizer itself writes into [runObj]). *)
Inductive StatusField :=
| StatusObject (o : StatusObj)
| StatusText (s : string).

Record TimesObj := { primary_t : option Q }.

Record VideoLink := { uri : option string }.

Record VideosObj := { links : option (list VideoLink) }.

(** What [runResponseObj.videos] can hold: the API's videos object, or an
    array of URI strings (the shape the normalizer writes). *)
Inductive VideosField :=
| VideosObject (o : VideosObj)
| VideoUris (l : list string).

Record SystemObj := { sys_platform : option string }.

Record PlayerRef := {
  pr_rel : option string;
  pr_id : option string;
  pr_name : option string
}.

(** A raw run as delivered by the upstream API. *)
Record RunResponse := {
  rr_id : option string;
  rr_comment : option string;
  rr_submitted : option string;
  rr_status : option StatusField;
  rr_values : option (gmap string string);
  rr_times : option TimesObj;
  rr_videos : option VideosField;
  rr_system : option SystemObj;
  rr_players : option (list PlayerRef)
}.

(** [runObj.player]. *)
Record Player := {
  rel : string;
  player_id : option string;
  player_name : option string
}.

(** [runObj], the normalized run. *)
Record Run := {
  run_id : option string;
  comment : option string;
  submitTime : option string;
  run_status : option string;
  run_variables : gmap string string;
  run_time : option string;
  timeSeconds : option Q;
  verifyTime : option string;
  verifier : option string;
  run_videos : option (list string);
  run_platform : option string;
  player : option Player
}.

(** ** The upstream client and the lookup caches *)

Record Names := { international : option string }.
Record UserData := { names : option Names }.
Record PlatformData := { platform_name : option string }.

(** The data [speedrunApiRequest] returns for [users/<id>] and
    [platforms/<id>]; [None] when the request throws (retries exhausted or
    unexpected response format).  The upstream answers a path the same way
    during the whole export; throttling and retry delays are not part of
    the model. *)
Record Upstream := {
  users : string → option UserData;
  platforms : string → option PlatformData
}.

Record Caches := {
  platformMap : gmap string string;
  userMap : gmap string string
}.

(** Sequential effects: a state transformer over the caches that may throw. *)
Definition M (A : Type) : Type := Caches → Completion (A * Caches).

Global Instance M_ret : MRet M := λ A (a : A) c, Normal (a, c).
Global Instance M_bind : MBind M := λ A B (f : A → M B) (m : M A) c,
  match m c with
  | Normal (a, c') => f a c'
  | Throw e => Throw e
  end.

Definition throw {A} (e : Error) : M A := λ _, Throw e.

(** The value a call resolves to when it starts from the caches [c]. *)
Definition returned {A} (m : M A) (c : Caches) : Completion A :=
  match m c with
  | Normal (a, _) => Normal a
  | Throw e => Throw e
  end.

Module Normalizer.
Section WithUpstream.

Variable api : Upstream.
Variable popts : Options.

(** Lines 90-98. *)
Definition getPlatform (platformId : option string) : M (option string) :=
  λ c,
  if negb (truthy_str platformId) then Normal (None, c) else
  let key := default EmptyString platformId in
  if truthy_str (platformMap c !! key) then Normal (platformMap c !! key, c) else
  match platforms api key with
  | None => Throw RequestError
  | Some response =>
      if truthy_str (platform_name response) then
        Normal (platform_name response,
                {| platformMap := <[key := default EmptyString (platform_name response)]> (platformMap c);
                   userMap := userMap c |})
      else Normal (None, c)
  end.

(** Lines 101-109. *)
Definition getUsername (userId : option string) : M (option string) :=
  λ c,
  if negb (truthy_str userId) then Normal (None, c) else
  let key := default EmptyString userId in
  if truthy_str (userMap c !! key) then Normal (userMap c !! key, c) else
  match users api key with
  | None => Throw RequestError
  | Some response =>
      let international_name := names response ≫= international in
      if truthy_str international_name then
        Normal (international_name,
                {| platformMap := platformMap c;
                   userMap := <[key := default EmptyString international_name]> (userMap c) |})
      else Normal (None, c)
  end.

(** Line 136: the template literal of the [time] text. *)
Definition clock_text (hours minutes seconds : Z) : string :=
  padStart 2 "0"%char (to_string hours) +:+ ":" +:+
  padStart 2 "0"%char (to_string minutes) +:+ ":" +:+
  padStart 2 "0"%char (to_string seconds).

(** Lines 128-136: the [time] text of a truthy [primary_t].  The
    arithmetic is written on the integer [Math.floor(primary_t)]; the
    program computes it on its numbers, which agree with it while that
    integer is below 2^53 in magnitude. *)
Definition formatTime (t : Q) : string :=
  let unresolvedTime := Qfloor t in
  let seconds := rem unresolvedTime 60 in
  let unresolvedTime := unresolvedTime - seconds in
  let minutes := rem unresolvedTime 3600 in
  let unresolvedTime := unresolvedTime - minutes in
  let minutes := Z.quot minutes 60 in
  let hours := Z.quot unresolvedTime 3600 in
  clock_text hours minutes seconds.

(** [runResponseObj.status.status] (line 117): reading [status] of a
    missing value is a [TypeError]; a string has no such property. *)
Definition read_status (f : option StatusField) : M (option string) :=
  match f with
  | None => throw TypeError
  | Some (StatusObject o) => mret (so_status o)
  | Some (StatusText _) => mret None
  end.

(** [runResponseObj.status['verify-date']] and
    [runResponseObj.status.examiner] (lines 142-143). *)
Definition read_status_prop (p : StatusObj → option string)
    (f : option StatusField) : M (option string) :=
  match f with
  | None => throw TypeError
  | Some (StatusObject o) => mret (p o)
  | Some (StatusText _) => mret None
  end.

(** [runResponseObj.times && runResponseObj.times.primary_t]. *)
Definition read_primary_t (resp : RunResponse) : option Q :=
  rr_times resp ≫= primary_t.

(** Lines 145-153. *)
Definition read_videos (resp : RunResponse) : option (list string) :=
  match rr_videos resp with
  | Some (VideosObject o) =>
      match links o with
      | Some (l0 :: ls) =>
          Some (filter (λ str, truthy_str (Some str) = true)
                  (omap uri (l0 :: ls)))
      | _ => None
      end
  | _ => None
  end.

(** Lines 157-175. *)
Definition read_player (resp : RunResponse) : M (option Player) :=
  match rr_players resp with
  | Some [playerObj] =>
      if str_eq (pr_rel playerObj) (Some "guest") then
        mret (Some {| rel := "guest";
                      player_id := pr_name playerObj;
                      player_name := pr_name playerObj |})
      else if str_eq (pr_rel playerObj) (Some "user") then
        name ← getUsername (pr_id playerObj);
        mret (Some {| rel := "user";
                      player_id := pr_id playerObj;
                      player_name := name |})
      else mret None
  | _ => mret None
  end.

(** Lines 111-178. *)
Definition processRun (runResponseObj : option RunResponse) : M (option Run) :=
  match runResponseObj with
  | None => mret None
  | Some resp =>
      status ← read_status (rr_status resp);
      let variables := default ∅ (rr_values resp) in
      if negb (truthy_str status)
         || (negb (includeUnverifiedRuns popts)
             && negb (str_eq status (Some "verified")))
      then mret None else
      let '(time, seconds) :=
        if truthy_num (read_primary_t resp)
        then (formatTime <$> read_primary_t resp, read_primary_t resp)
        else (None, None) in
      if negb (truthy_num seconds) then mret None else
      '(verify_time, verifier_name) ←
        (if str_eq status (Some "verified") then
           verify_date ← read_status_prop so_verify_date (rr_status resp);
           examiner ← read_status_prop so_examiner (rr_status resp);
           name ← getUsername examiner;
           mret (verify_date, name)
         else mret (None, None));
      let video_uris := read_videos resp in
      platform ←
        (if truthy_str (rr_system resp ≫= sys_platform)
         then getPlatform (rr_system resp ≫= sys_platform)
         else mret None);
      player ← read_player resp;
      mret (Some {| run_id := rr_id resp;
                    comment := rr_comment resp;
                    submitTime := rr_submitted resp;
                    run_status := status;
                    run_variables := variables;
                    run_time := time;
                    timeSeconds := seconds;
                    verifyTime := verify_time;
                    verifier := verifier_name;
                    run_videos := video_uris;
                    run_platform := platform;
                    player := player |})
  end.

End WithUpstream.
End Normalizer.


(** ** Objects iterated with [for ... in] *)

Module JsObject.

(** Own properties in creation order. *)
Abbreviation t V := (list (string * V)) (only parsing).

Fixpoint get {V} (o : t V) (k : string) : option V :=
  match o with
  | [] => None
  | (k', v) :: o' => if String.eqb k' k then Some v else get o' k
  end.

(** [o[k] = v]: an existing property keeps its place, a new one is added
    last. *)
Fixpoint set {V} (o : t V) (k : string) (v : V) : t V :=
  match o with
  | [] => [(k, v)]
  | (k', v') :: o' =>
      if String.eqb k' k then (k', v) :: o' else (k', v') :: set o' k v
  end.

Definition digit_value (c : ascii) : option N :=
  let n := N_of_ascii c in
  if (48 <=? n)%N && (n <=? 57)%N then Some (n - 48)%N else None.

Fixpoint digits_value (s : string) (acc : N) : option N :=
  match s with
  | EmptyString => Some acc
  | String c s' =>
      match digit_value c with
      | Some d => digits_value s' (10 * acc + d)%N
      | None => None
      end
  end.

(** A property key is an array index when it is the canonical decimal text
    of an integer below 2^32 - 1. *)
Definition array_index (k : string) : option N :=
  match digits_value k 0%N with
  | Some n =>
      if (n <? 4294967295)%N && String.eqb (pretty n) k then Some n else None
  | None => None
  end.

Fixpoint insert_index {V} (n : N) (p : string * V) (l : list (N * (string * V)))
    : list (N * (string * V)) :=
  match l with
  | [] => [(n, p)]
  | (m, q) :: l' =>
      if (n <=? m)%N then (n, p) :: l else (m, q) :: insert_index n p l'
  end.

Fixpoint index_entries {V} (o : t V) : list (N * (string * V)) :=
  match o with
  | [] => []
  | (k, v) :: o' =>
      match array_index k with
      | Some n => insert_index n (k, v) (index_entries o')
      | None => index_entries o'
      end
  end.

Definition named_entries {V} (o : t V) : t V :=
  filter (λ p, array_index p.1 = None) o.

(** The order in which [for (let k in o)] visits the properties of [o]:
    array-index keys in ascending numeric order, then the other keys in
    creation order. *)
Definition for_in {V} (o : t V) : list (string * V) :=
  (snd <$> index_entries o) ++ named_entries o.

End JsObject.

(** ** Categories and leaderboards *)

(** An entry of [varObj.values]. *)
Record ValueInfo := {
  label : string;
  value_rules : option string
}.

(** [varObj]. *)
Record CatVariable := {
  var_id : string;
  var_name : option string;
  var_values : gmap string ValueInfo
}.

(** [catObj]; [cat_runs] is [None] once [delete catObj.runs] has run. *)
Record Category := {
  cat_id : string;
  cat_name : string;
  cat_rules : option string;
  cat_variables : list CatVariable;
  cat_runs : option (list Run)
}.

(** [lbObj]; its [runs] hold normalized runs after the builder and ranked
    entries after the ranker. *)
Record Leaderboard (R : Type) := {
  lb_id : string;
  categoryId : string;
  lb_variables : gmap string string;
  lb_name : string;
  lb_runs : list R
}.
Arguments lb_id {R} _.
Arguments categoryId {R} _.
Arguments lb_variables {R} _.
Arguments lb_name {R} _.
Arguments lb_runs {R} _.

(** A ranked entry: the run object with the two properties the ranker adds.
    [obsoleteRuns = None] is an entry without that property. *)
Record Entry := {
  entry_run : Run;
  rank : option nat;
  obsoleteRuns : option (list Run)
}.

Module Builder.

(** Line 231, [catVariable.values[value]] as a condition: [values] is a
    plain object (line 199), so the read is truthy for a value of the
    variable and also for a name of a member of [Object.prototype]. *)
Definition has_value (catVariable : CatVariable) (value : string) : bool :=
  bool_decide (is_Some (var_values catVariable !! value)) || inherited value.

(** Lines 223-237: the walk over the category's variables, stopped at the
    first variable the run has no value for that passes the checks of
    lines 227 and 231. *)
Fixpoint walk_variables (variables : list CatVariable) (runObj : Run)
    (usedVars : gmap string string) (orderedVars : list (string * string))
    : gmap string string * list (string * string) * bool :=
  match variables with
  | [] => (usedVars, orderedVars, false)
  | catVariable :: rest =>
      let recorded := run_variables runObj !! var_id catVariable in
      if negb (truthy_str recorded) then (usedVars, orderedVars, true) else
      let value := default EmptyString recorded in
      if negb (has_value catVariable value) then (usedVars, orderedVars, true)
      else
        walk_variables rest runObj
          (<[var_id catVariable := value]> usedVars)
          (orderedVars ++ [(var_id catVariable, value)])
  end.

(** Line 254, [values[value].label] as the text appended to the name: the
    label of a value of the variable; a member of [Object.prototype] has
    no [label], and [undefined] is appended as the text "undefined";
    reading [label] of a missing value is a [TypeError]. *)
Definition label_text (variable : CatVariable) (value : string)
    : Completion string :=
  match var_values variable !! value with
  | Some info => Normal (label info)
  | None => if inherited value then Normal "undefined" else Throw TypeError
  end.

(** Lines 246-255, from index [i] on; [pending] is [orderedVars] from
    index [i].  Reading a property of a missing variable is a
    [TypeError]. *)
Fixpoint name_loop (catObj : Category) (pending : list (string * string))
    (i : nat) (lbId lbName : string) : Completion (string * string) :=
  match pending with
  | [] => Normal (lbId, lbName)
  | (key, value) :: pending' =>
      let lbId := lbId +:+ "$" in
      let lbName := lbName +:+ (if Nat.eqb i 0 then " - " else ", ") in
      let lbId := lbId +:+ (key +:+ "^" +:+ value) in
      match cat_variables catObj !! i with
      | None => Throw TypeError
      | Some variable =>
          match label_text variable value with
          | Throw e => Throw e
          | Normal text =>
              name_loop catObj pending' (S i) lbId (lbName +:+ text)
          end
      end
  end.

(** Lines 239-256: the id and the name of the run's leaderboard. *)
Definition leaderboard_key (catId : string) (catObj : Category)
    (orderedVars : list (string * string)) (uncategorized : bool)
    : Completion (string * string) :=
  if uncategorized then
    Normal (catId +:+ "$UNCATEGORIZED", cat_name catObj +:+ " - Uncategorized")
  else name_loop catObj orderedVars 0 catId (cat_name catObj).

(** Lines 258-267. *)
Definition push_run (leaderboards : JsObject.t (Leaderboard Run))
    (catId lbId lbName : string) (usedVars : gmap string string) (runObj : Run)
    : JsObject.t (Leaderboard Run) :=
  let lb := default {| lb_id := lbId; categoryId := catId;
                       lb_variables := usedVars; lb_name := lbName;
                       lb_runs := [] |}
                    (JsObject.get leaderboards lbId) in
  JsObject.set leaderboards lbId
    {| lb_id := lb_id lb; categoryId := categoryId lb;
       lb_variables := lb_variables lb; lb_name := lb_name lb;
       lb_runs := lb_runs lb ++ [runObj] |}.

(** Lines 223-256: the leaderboard a run belongs to, as its id, its name
    and the variables recorded for it. *)
Definition route (catId : string) (catObj : Category) (runObj : Run)
    : Completion (string * string * gmap string string) :=
  let '(usedVars, orderedVars, uncategorized) :=
    walk_variables (cat_variables catObj) runObj ∅ [] in
  match leaderboard_key catId catObj orderedVars uncategorized with
  | Throw e => Throw e
  | Normal (lbId, lbName) => Normal (lbId, lbName, usedVars)
  end.

(** Lines 222-268: one iteration of the breakout loop. *)
Definition place_run (catId : string) (catObj : Category)
    (leaderboards : JsObject.t (Leaderboard Run)) (runObj : Run)
    : Completion (JsObject.t (Leaderboard Run)) :=
  match route catId catObj runObj with
  | Throw e => Throw e
  | Normal (lbId, lbName, usedVars) =>
      Normal (push_run leaderboards catId lbId lbName usedVars runObj)
  end.

Fixpoint place_runs (catId : string) (catObj : Category)
    (leaderboards : JsObject.t (Leaderboard Run)) (runs : list Run)
    : Completion (JsObject.t (Leaderboard Run)) :=
  match runs with
  | [] => Normal leaderboards
  | runObj :: rest =>
      match place_run catId catObj leaderboards runObj with
      | Throw e => Throw e
      | Normal leaderboards' => place_runs catId catObj leaderboards' rest
      end
  end.

(** Lines 220-280: the body of the loop over the categories.  A category
    whose [runs] were already deleted has nothing to iterate or to rank:
    the program stops with a [TypeError]. *)
Definition build_category (popts : Options) (catId : string) (catObj : Category)
    (leaderboards : JsObject.t (Leaderboard Run))
    : Completion (Category * JsObject.t (Leaderboard Run)) :=
  let deleted := {| cat_id := cat_id catObj; cat_name := cat_name catObj;
                    cat_rules := cat_rules catObj;
                    cat_variables := cat_variables catObj;
                    cat_runs := None |} in
  if breakoutVariables popts then
    match cat_runs catObj with
    | None => Throw TypeError
    | Some runs =>
        match place_runs catId catObj leaderboards runs with
        | Throw e => Throw e
        | Normal leaderboards' => Normal (deleted, leaderboards')
        end
    end
  else
    match cat_runs catObj with
    | None => Throw TypeError
    | Some runs =>
        let lbObj := {| lb_id := catId; categoryId := catId;
                        lb_variables := ∅; lb_name := cat_name catObj;
                        lb_runs := runs |} in
        Normal (deleted, JsObject.set leaderboards (lb_id lbObj) lbObj)
    end.

(** Lines 227-236 for one variable: the value the walk records for it,
    when the run has one that passes the checks of lines 227 and 231. *)
Definition recorded_value (catVariable : CatVariable) (runObj : Run)
    : option string :=
  let recorded := run_variables runObj !! var_id catVariable in
  if negb (truthy_str recorded) then None else
  let value := default EmptyString recorded in
  if has_value catVariable value then Some value else None.

(** The value a run records for a variable of the category, when it
    records one and it is a value of the variable, with the entry
    [values] holds for it. *)
Definition chosen_value (catVariable : CatVariable) (runObj : Run)
    : option (string * ValueInfo) :=
  let recorded := run_variables runObj !! var_id catVariable in
  if negb (truthy_str recorded) then None else
  let value := default EmptyString recorded in
  info ← var_values catVariable !! value; Some (value, info).

(** The spec's words for a breakout id: the category id followed by [$]
    and [varId^valueId] for each variable in order. *)
Fixpoint spec_breakout_suffix (pairs : list (string * string)) : string :=
  match pairs with
  | [] => EmptyString
  | (varId, valueId) :: rest =>
      "$" +:+ varId +:+ "^" +:+ valueId +:+ spec_breakout_suffix rest
  end.

(** The spec's words for a breakout name: [" - "] before the first label
    and [", "] before each subsequent label. *)
Fixpoint spec_labels_suffix (first : bool) (labels : list string) : string :=
  match labels with
  | [] => EmptyString
  | l :: rest =>
      (if first then " - " else ", ") +:+ l +:+ spec_labels_suffix false rest
  end.

End Builder.

Module BuilderLoop.

(** Lines 219-281: the loop over [categories]; each category object is
    updated in place. *)
Fixpoint build_loop (popts : Options) (visit : list (string * Category))
    (categories : JsObject.t Category)
    (leaderboards : JsObject.t (Leaderboard Run))
    : Completion (JsObject.t Category * JsObject.t (Leaderboard Run)) :=
  match visit with
  | [] => Normal (categories, leaderboards)
  | (catId, catObj) :: rest =>
      match Builder.build_category popts catId catObj leaderboards with
      | Throw e => Throw e
      | Normal (catObj', leaderboards') =>
          build_loop popts rest (JsObject.set categories catId catObj')
            leaderboards'
      end
  end.

Definition build (popts : Options) (categories : JsObject.t Category)
    : Completion (JsObject.t Category * JsObject.t (Leaderboard Run)) :=
  build_loop popts (JsObject.for_in categories) categories [].

End BuilderLoop.

(** ** The ranker *)

Module Ranker.

(** [Array.prototype.sort] with a comparison function.  The sort is stable,
    and an element moves behind another only when the comparison of the two
    is positive; a comparison that is not a number counts as zero. *)
Section Sort.

Context {A : Type}.
Variable compareFn : A → A → option Q.

Definition positive (v : option Q) : bool :=
  match v with
  | Some d => negb (Qle_bool d 0)
  | None => false
  end.

Fixpoint insert_sorted (x : A) (l : list A) : list A :=
  match l with
  | [] => [x]
  | y :: l' =>
      if positive (compareFn x y) then y :: insert_sorted x l' else x :: l
  end.

Fixpoint js_sort (l : list A) : list A :=
  match l with
  | [] => []
  | x :: l' => insert_sorted x (js_sort l')
  end.

End Sort.

(** [a - b] on numbers that may be missing. *)
Definition num_sub (a b : option Q) : option Q :=
  x ← a; y ← b; Some (x - y)%Q.

(** [(a, b) => a.timeSeconds - b.timeSeconds] on runs (line 294) and on
    entries (line 306). *)
Definition by_time (a b : Run) : option Q :=
  num_sub (timeSeconds a) (timeSeconds b).

Definition entry_by_time (a b : Entry) : option Q :=
  by_time (entry_run a) (entry_run b).

(** [a <= b] on the times of two runs that both have one. *)
Definition time_le (a b : option Q) : Prop :=
  match a, b with
  | Some x, Some y => (x <= y)%Q
  | _, _ => False
  end.

(** A list is in ascending order of [key] when [ascending key] relates
    its neighbours. *)
Definition ascending {A} (key : A → option Q) : relation A :=
  λ a b, time_le (key a) (key b).

(** Line 288: [run.player.id] when [run.player] is set. *)
Definition run_player_id (run : Run) : option string :=
  player run ≫= player_id.

(** The negation of the [continue] condition of line 288. *)
Definition ranked_candidate (run : Run) : bool :=
  truthy_num (timeSeconds run) && truthy_str (run_player_id run).

(** The partition of a player: the runs of a leaderboard that are ranked
    for the player [userId], in the order of the leaderboard. *)
Definition runs_of (userId : string) (runs : list Run) : list Run :=
  filter (λ run, ranked_candidate run = true ∧ run_player_id run = Some userId)
         runs.

(** Lines 288-290, one run of the leaderboard.  [runsByUserId] is a plain
    object (line 286): for a player id that names a member of
    [Object.prototype] the read of line 289 gives the inherited member,
    which is truthy, so no array is made, and the member has no [push]:
    line 290 throws a [TypeError]. *)
Definition add_run (runsByUserId : JsObject.t (list Run)) (run : Run)
    : Completion (JsObject.t (list Run)) :=
  if negb (ranked_candidate run) then Normal runsByUserId else
  let userId := default EmptyString (run_player_id run) in
  match JsObject.get runsByUserId userId with
  | Some userRuns =>
      Normal (JsObject.set runsByUserId userId (userRuns ++ [run]))
  | None =>
      if inherited userId then Throw TypeError
      else Normal (JsObject.set runsByUserId userId ([] ++ [run]))
  end.

(** Lines 287-291: the loop over the runs, from the object [runsByUserId]. *)
Fixpoint group_loop (runs : list Run) (runsByUserId : JsObject.t (list Run))
    : Completion (JsObject.t (list Run)) :=
  match runs with
  | [] => Normal runsByUserId
  | run :: rest =>
      match add_run runsByUserId run with
      | Throw e => Throw e
      | Normal runsByUserId' => group_loop rest runsByUserId'
      end
  end.

(** Lines 286-291. *)
Definition group_runs (runs : list Run) : Completion (JsObject.t (list Run)) :=
  group_loop runs [].

(** Lines 294-304: the entry of one user; [None] is the [continue] of
    line 295. *)
Definition user_entry (popts : Options) (runsOfUser : list Run) : option Entry :=
  let userRuns := js_sort by_time runsOfUser in
  match userRuns with
  | [] => None
  | entry :: _ =>
      Some {| entry_run := entry;
              rank := None;
              obsoleteRuns :=
                if includeRunHistory popts then
                  if Nat.ltb 1 (length userRuns) then Some (drop 1 userRuns)
                  else Some []
                else None |}
  end.

(** Lines 292-305. *)
Definition collect_entries (popts : Options)
    (runsByUserId : JsObject.t (list Run)) : list Entry :=
  omap (λ p, user_entry popts p.2) (JsObject.for_in runsByUserId).

Definition set_rank (r : option nat) (e : Entry) : Entry :=
  {| entry_run := entry_run e; rank := r; obsoleteRuns := obsoleteRuns e |}.

(** Lines 308-314: the body of the ranking loop at index [i]. *)
Definition rank_step (i : nat) (lbEntries : list Entry) : list Entry :=
  if Nat.eqb i 0 then alter (set_rank (Some 1%nat)) i lbEntries
  else
    match lbEntries !! i, lbEntries !! (i - 1)%nat with
    | Some current, Some previous =>
        if num_eq (timeSeconds (entry_run current))
                  (timeSeconds (entry_run previous))
        then alter (set_rank (rank previous)) i lbEntries
        else alter (set_rank (Some (i + 1)%nat)) i lbEntries
    | _, _ => lbEntries
    end.

(** Lines 307-315: [remaining] iterations starting at index [i]. *)
Fixpoint rank_loop (remaining i : nat) (lbEntries : list Entry) : list Entry :=
  match remaining with
  | O => lbEntries
  | S remaining' => rank_loop remaining' (S i) (rank_step i lbEntries)
  end.

Definition assign_ranks (lbEntries : list Entry) : list Entry :=
  rank_loop (length lbEntries) 0 lbEntries.

(** The same loop as a recursion on the entries still to rank, from index
    [i] on; [previous] is [lbEntries[i - 1]], already ranked, and is
    missing exactly when [i] is 0. *)
Fixpoint rank_from (previous : option Entry) (i : nat) (pending : list Entry)
    : list Entry :=
  match pending with
  | [] => []
  | current :: rest =>
      let ranked :=
        match previous with
        | None => set_rank (Some 1%nat) current
        | Some previous =>
            if num_eq (timeSeconds (entry_run current))
                      (timeSeconds (entry_run previous))
            then set_rank (rank previous) current
            else set_rank (Some (i + 1)%nat) current
        end in
      ranked :: rank_from (Some ranked) (S i) rest
  end.

(** The entries of [lbEntries] with a strictly smaller [timeSeconds] than
    the entry [e]. *)
Definition faster_than (e : Entry) (lbEntries : list Entry) : list Entry :=
  filter (λ e', positive (entry_by_time e e') = true) lbEntries.

(** Lines 286-316: the ranked entries of a leaderboard's runs. *)
Definition ranked_runs (popts : Options) (runs : list Run)
    : Completion (list Entry) :=
  match group_runs runs with
  | Throw e => Throw e
  | Normal runsByUserId =>
      let lbEntries := collect_entries popts runsByUserId in
      Normal (assign_ranks (js_sort entry_by_time lbEntries))
  end.

(** Lines 285-316: one leaderboard, with [lbObj.runs] replaced. *)
Definition rank_leaderboard (popts : Options) (lbObj : Leaderboard Run)
    : Completion (Leaderboard Entry) :=
  match ranked_runs popts (lb_runs lbObj) with
  | Throw e => Throw e
  | Normal lbEntries =>
      Normal {| lb_id := lb_id lbObj; categoryId := categoryId lbObj;
                lb_variables := lb_variables lbObj; lb_name := lb_name lbObj;
                lb_runs := lbEntries |}
  end.

(** Lines 284-317: every leaderboard is ranked in place, one after the
    other.  The leaderboards are ranked independently of each other and
    keep their keys, and the only error is the [TypeError] of line 290, so
    the order of the visits does not show in the outcome. *)
Fixpoint rank_all (popts : Options)
    (leaderboards : JsObject.t (Leaderboard Run))
    : Completion (JsObject.t (Leaderboard Entry)) :=
  match leaderboards with
  | [] => Normal []
  | (lbId, lbObj) :: rest =>
      match rank_leaderboard popts lbObj with
      | Throw e => Throw e
      | Normal lbObj' =>
          match rank_all popts rest with
          | Throw e => Throw e
          | Normal rest' => Normal ((lbId, lbObj') :: rest')
          end
      end
  end.

End Ranker.


(** ** A normalized run read back as a response *)

(** The run object [runObj] seen through the property reads of [processRun]:
    [id], [comment] and [videos] are properties of a run object, [status] is
    its status string, and it has no [submitted], [values], [times],
    [system] or [players] property. *)
Definition as_response (runObj : Run) : RunResponse :=
  {| rr_id := run_id runObj;
     rr_comment := comment runObj;
     rr_submitted := None;
     rr_status := StatusText <$> run_status runObj;
     rr_values := None;
     rr_times := None;
     rr_videos := VideoUris <$> run_videos runObj;
     rr_system := None;
     rr_players := None |}.

(** ** Sample data *)

Module Samples.

Definition upstream : Upstream :=
  {| users := λ userId,
       Some {| names := Some {| international := Some ("user " +:+ userId) |} |};
     platforms := λ _, Some {| platform_name := Some "PC" |} |}.

Definition no_cache : Caches := {| platformMap := ∅; userMap := ∅ |}.

Definition defaults : Options :=
  {| breakoutVariables := false;
     includeUnverifiedRuns := false;
     includeRunHistory := false |}.

Definition with_history : Options :=
  {| breakoutVariables := false;
     includeUnverifiedRuns := false;
     includeRunHistory := true |}.

(** A verified run of user [userId] with [primary_t = t]. *)
Definition response (userId : string) (t : option Q) : RunResponse :=
  {| rr_id := Some ("run of " +:+ userId);
     rr_comment := None;
     rr_submitted := Some "2021-03-04T05:06:07Z";
     rr_status := Some (StatusObject {| so_status := Some "verified";
                                        so_verify_date := Some "2021-03-05T00:00:00Z";
                                        so_examiner := Some "mod1" |});
     rr_values := None;
     rr_times := Some {| primary_t := t |};
     rr_videos := None;
     rr_system := None;
     rr_players := Some [ {| pr_rel := Some "user"; pr_id := Some userId;
                             pr_name := None |} ] |}.

(** The response [{ id: "r1" }]: an object without a [status] property. *)
Definition response_without_status : RunResponse :=
  {| rr_id := Some "r1"; rr_comment := None; rr_submitted := None;
     rr_status := None; rr_values := None; rr_times := None;
     rr_videos := None; rr_system := None; rr_players := None |}.

(** What [processRun] returns for [response userId (Some t)]. *)
Definition run_of (userId : string) (t : Q) : Run :=
  {| run_id := Some ("run of " +:+ userId);
     comment := None;
     submitTime := Some "2021-03-04T05:06:07Z";
     run_status := Some "verified";
     run_variables := ∅;
     run_time := Some (Normalizer.formatTime t);
     timeSeconds := Some t;
     verifyTime := Some "2021-03-05T00:00:00Z";
     verifier := Some "user mod1";
     run_videos := None;
     run_platform := None;
     player := Some {| rel := "user"; player_id := Some userId;
                       player_name := Some ("user " +:+ userId) |} |}.

(** A category with the variables [V1; V2], a run that records a
    recognized value for both, and a run that records none for [V2]. *)
Definition V1 : CatVariable :=
  {| var_id := "V1"; var_name := Some "Difficulty";
     var_values := {[ "A" := {| label := "Hard"; value_rules := None |} ]} |}.

Definition V2 : CatVariable :=
  {| var_id := "V2"; var_name := Some "Version";
     var_values := {[ "B" := {| label := "1.0"; value_rules := None |} ]} |}.

Definition category : Category :=
  {| cat_id := "cat"; cat_name := "Any%"; cat_rules := None;
     cat_variables := [V1; V2]; cat_runs := None |}.

Definition run_with_values (values : gmap string string) : Run :=
  {| run_id := Some "r1"; comment := None; submitTime := None;
     run_status := Some "verified";
     run_variables := values;
     run_time := Some "00:00:10"; timeSeconds := Some 10%Q;
     verifyTime := None; verifier := None; run_videos := None;
     run_platform := None; player := None |}.

End Samples.

(** ** The request gate, pagination and the fetch of the categories *)

Module Throttle.

Definition REQUEST_TIMESTAMP_INTERVAL : Z := 1000.

(** Lines 32-35: the delay asked of the timer when the clock reads [now];
    [None] when no timer is set. *)
Definition throttle_delay (now lastRequestTimestamp : Z) : option Z :=
  let timestampDiff := now - lastRequestTimestamp in
  if timestampDiff <? REQUEST_TIMESTAMP_INTERVAL
  then Some (REQUEST_TIMESTAMP_INTERVAL - timestampDiff)
  else None.

End Throttle.

Module Pagination.

Definition PAGINATE_PAGE_SIZE : nat := 100.

Section Paginate.

Context {A St : Type}.

(** [speedrunApiRequest(methodPath, qs)] as a function of [qs.offset], the
    only part of the query the loop changes: the page, or [None] when the
    request throws. *)
Variable request : nat → option (list A).

(** The task, a sequential effect on a state [St]. *)
Variable task : A → St → Completion St.

(** Lines 61-63. *)
Fixpoint run_tasks (pageData : list A) (s : St) : Completion St :=
  match pageData with
  | [] => Normal s
  | dataObj :: rest =>
      match task dataObj s with
      | Normal s' => run_tasks rest s'
      | Throw e => Throw e
      end
  end.

(** Lines 59-69: the [while (true)] loop, from [qs.offset = offset]; every
    iteration takes one unit of [fuel], and [None] is a loop that has not
    left within the fuel. *)
Fixpoint paginate_loop (fuel : nat) (offset : nat) (s : St)
    : option (Completion St) :=
  match fuel with
  | O => None
  | S fuel' =>
      match request offset with
      | None => Some (Throw RequestError)
      | Some pageData =>
          match run_tasks pageData s with
          | Throw e => Some (Throw e)
          | Normal s' =>
              if Nat.ltb (length pageData) PAGINATE_PAGE_SIZE
              then Some (Normal s')
              else paginate_loop fuel' (offset + PAGINATE_PAGE_SIZE) s'
          end
      end
  end.

(** Lines 55-70. *)
Definition paginateSpeedrunApiRequest (fuel : nat) (s : St)
    : option (Completion St) :=
  paginate_loop fuel 0 s.

End Paginate.

(** An upstream that pages through the list [data]: the page at [offset]
    holds the next [PAGINATE_PAGE_SIZE] items from there. *)
Definition serve {A} (data : list A) (offset : nat) : option (list A) :=
  Some (take PAGINATE_PAGE_SIZE (drop offset data)).

End Pagination.

(** The responses of [games/<id>/categories] and
    [categories/<id>/variables]. *)
Record CategoryResponse := {
  cresp_id : string;
  cresp_name : string;
  cresp_rules : option string
}.

Record ValueResponse := {
  vresp_label : string;
  vresp_rules : option string
}.

Record ValuesObj := { values_values : option (gmap string ValueResponse) }.

Record VariableResponse := {
  varresp_id : string;
  varresp_name : option string;
  varresp_values : option ValuesObj
}.

(** The upstream seen by lines 185-216; [None] is a request that throws.
    [runs_page catId offset] is the page of [runs] for the category. *)
Record Api := {
  lookups : Upstream;
  categories_of : string → option (list CategoryResponse);
  variables_of : string → option (list VariableResponse);
  runs_page : string → nat → option (list (option RunResponse))
}.

Module Fetch.

(** Lines 196-207. *)
Definition make_variable (varResponseObj : VariableResponse) : CatVariable :=
  let valuesMap := varresp_values varResponseObj ≫= values_values in
  {| var_id := varresp_id varResponseObj;
     var_name := varresp_name varResponseObj;
     var_values :=
       (λ value, {| label := vresp_label value;
                    value_rules := vresp_rules value |})
       <$> default ∅ valuesMap |}.

Section WithApi.

Variable api : Api.
Variable popts : Options.

(** Lines 211-214: the task of the pagination; the state is the lookup
    caches and [catObj.runs]. *)
Definition collect_run (runResponseObj : option RunResponse)
    (s : Caches * list Run) : Completion (Caches * list Run) :=
  match Normalizer.processRun (lookups api) popts runResponseObj s.1 with
  | Normal (Some runObj, c) => Normal (c, s.2 ++ [runObj])
  | Normal (None, c) => Normal (c, s.2)
  | Throw e => Throw e
  end.

(** Lines 187-215: one category. *)
Definition fetch_category (fuel : nat) (catResponseObj : CategoryResponse)
    (c : Caches) : option (Completion (Category * Caches)) :=
  match variables_of api (cresp_id catResponseObj) with
  | None => Some (Throw RequestError)
  | Some varResponse =>
      match Pagination.paginateSpeedrunApiRequest
              (runs_page api (cresp_id catResponseObj)) collect_run fuel (c, [])
      with
      | None => None
      | Some (Throw e) => Some (Throw e)
      | Some (Normal (c', runs)) =>
          Some (Normal ({| cat_id := cresp_id catResponseObj;
                           cat_name := cresp_name catResponseObj;
                           cat_rules := cresp_rules catResponseObj;
                           cat_variables := make_variable <$> varResponse;
                           cat_runs := Some runs |}, c'))
      end
  end.

(** Lines 186-216: the loop over the category responses. *)
Fixpoint fetch_loop (fuel : nat) (catResponse : list CategoryResponse)
    (categories : JsObject.t Category) (c : Caches)
    : option (Completion (JsObject.t Category * Caches)) :=
  match catResponse with
  | [] => Some (Normal (categories, c))
  | catResponseObj :: rest =>
      match fetch_category fuel catResponseObj c with
      | None => None
      | Some (Throw e) => Some (Throw e)
      | Some (Normal (catObj, c')) =>
          fetch_loop fuel rest
            (JsObject.set categories (cat_id catObj) catObj) c'
      end
  end.

(** Lines 185-216. *)
Definition fetch_categories (fuel : nat) (gameId : string) (c : Caches)
    : option (Completion (JsObject.t Category * Caches)) :=
  match categories_of api gameId with
  | None => Some (Throw RequestError)
  | Some catResponse => fetch_loop fuel catResponse [] c
  end.

(** Lines 185-317: fetch, build and rank. *)
Definition export_data (fuel : nat) (gameId : string) (c : Caches)
    : option (Completion (JsObject.t Category * JsObject.t (Leaderboard Entry))) :=
  match fetch_categories fuel gameId c with
  | None => None
  | Some (Throw e) => Some (Throw e)
  | Some (Normal (categories, _)) =>
      match BuilderLoop.build popts categories with
      | Throw e => Some (Throw e)
      | Normal (categories', leaderboards) =>
          match Ranker.rank_all popts leaderboards with
          | Throw e => Some (Throw e)
          | Normal leaderboards' => Some (Normal (categories', leaderboards'))
          end
      end
  end.

End WithApi.
End Fetch.

(** The caches agree with the upstream: every name they hold for an id is
    the name the upstream gives for it.  Entries with an empty name are
    misses for lines 92 and 103 and are not constrained. *)
Definition coherent (api : Upstream) (c : Caches) : Prop :=
  (∀ (k v : string),
     userMap c !! k = Some v → truthy_str (Some v) = true →
     (response ← users api k; n ← names response; international n) = Some v) ∧
  (∀ (k v : string),
     platformMap c !! k = Some v → truthy_str (Some v) = true →
     (response ← platforms api k; platform_name response) = Some v).

(** Two outcomes of one call agree: both throw the same error, or both
    return the same value and leave caches that agree with the upstream. *)
Definition agree {A} (api : Upstream) (o1 o2 : Completion (A * Caches)) : Prop :=
  match o1, o2 with
  | Normal (a1, c1), Normal (a2, c2) =>
      a1 = a2 ∧ coherent api c1 ∧ coherent api c2
  | Throw e1, Throw e2 => e1 = e2
  | _, _ => False
  end.

(** A call is transparent to the caches when it has agreeing outcomes from
    any two caches that agree with the upstream. *)
Definition transparent {A} (api : Upstream) (m : M A) : Prop :=
  ∀ c1 c2, coherent api c1 → coherent api c2 → agree api (m c1) (m c2).

(** An upstream whose every request fails. *)
Definition offline : Upstream :=
  {| users := λ _, None; platforms := λ _, None |}.

(** What the normalizer guarantees of a run it returns under the options
    [popts]: a truthy status, which is verified unless unverified runs are
    included, and a [timeSeconds] that is not zero, with its [time] text. *)
Definition retained_run (popts : Options) (r : Run) : Prop :=
  truthy_str (run_status r) = true ∧
  (includeUnverifiedRuns popts = false → run_status r = Some "verified") ∧
  ∃ q, timeSeconds r = Some q ∧ ¬ (q == 0)%Q
       ∧ run_time r = Some (Normalizer.formatTime q).

(** ** The CSV export *)

Module CsvExport.

(** A row handed to the CSV writer, one field per column. *)
Record CsvLine := {
  csv_rank : option nat;
  csv_player : option string;
  csv_time : option string;
  csv_platform : option string;
  csv_videos : option string;
  csv_submitTime : option string;
  csv_status : option string;
  csv_verifyTime : option string;
  csv_verifier : option string;
  csv_comment : option string;
  csv_variables : string
}.

(** The characters of the class [[\s\/\_-]] among the ASCII characters. *)
Definition is_separator (c : ascii) : bool :=
  let n := N_of_ascii c in
  ((9 <=? n)%N && (n <=? 13)%N) || (n =? 32)%N
  || (n =? 47)%N || (n =? 95)%N || (n =? 45)%N.

(** [c.toLowerCase()] for an ASCII character. *)
Definition lower_char (c : ascii) : ascii :=
  let n := N_of_ascii c in
  if (65 <=? n)%N && (n <=? 90)%N then ascii_of_N (n + 32) else c.

Fixpoint toLowerCase (s : string) : string :=
  match s with
  | EmptyString => EmptyString
  | String c s' => String (lower_char c) (toLowerCase s')
  end.

(** [s.replace(/[\s\/\_-]+/g, '_')]: every maximal run of separators
    becomes one underscore; [in_run] tells that the previous character was
    a separator. *)
Fixpoint replace_separators (in_run : bool) (s : string) : string :=
  match s with
  | EmptyString => EmptyString
  | String c s' =>
      if is_separator c then
        if in_run then replace_separators true s'
        else String "_" (replace_separators true s')
      else String c (replace_separators false s')
  end.

(** Line 341, the last segment of the path: the name of the CSV file of a
    leaderboard.  The model covers names of ASCII characters. *)
Definition csv_file_name (gameAbbrev lbName : string) : string :=
  gameAbbrev +:+ "_" +:+ replace_separators false (toLowerCase lbName)
  +:+ ".csv".

Definition ascii_only (s : string) : Prop :=
  Forall (λ c, (N_of_ascii c < 128)%N) (list_ascii_of_string s).

Section Csv.

(** [JSON.stringify] on the variables of a run. *)
Variable stringify : gmap string string → string.

(** Lines 322-336; [rank] is [run.rank], which only entries have. *)
Definition makeCsvLine (rank : option nat) (run : Run) : CsvLine :=
  {| csv_rank := rank;
     csv_player := player run ≫= player_name;
     csv_time := run_time run;
     csv_platform := run_platform run;
     csv_videos := String.concat ", " <$> run_videos run;
     csv_submitTime := submitTime run;
     csv_status := run_status run;
     csv_verifyTime := verifyTime run;
     csv_verifier := verifier run;
     csv_comment := comment run;
     csv_variables :=
       if decide (run_variables run = ∅) then EmptyString
       else stringify (run_variables run) |}.

(** Lines 343-350: the rows of one entry. *)
Definition entry_lines (e : Entry) : list CsvLine :=
  makeCsvLine (rank e) (entry_run e)
  :: match obsoleteRuns e with
     | Some history => makeCsvLine None <$> history
     | None => []
     end.

(** Lines 339-350: the rows of a leaderboard, [None] for a leaderboard
    that is skipped. *)
Definition csv_lines (lbObj : Leaderboard Entry) : option (list CsvLine) :=
  match lb_runs lbObj with
  | [] => None
  | runs => Some (runs ≫= entry_lines)
  end.

End Csv.
End CsvExport.

(** ** More sample data *)

Module MoreSamples.

Definition category_response : CategoryResponse :=
  {| cresp_id := "cat"; cresp_name := "Any%"; cresp_rules := None |}.

(** Two runs of the category: a verified run of 90 seconds, and a run
    without a primary time. *)
Definition served_runs : list (option RunResponse) :=
  [Some (Samples.response "u1" (Some 90%Q)); Some (Samples.response "u2" None)].

Definition api : Api :=
  {| lookups := Samples.upstream;
     categories_of := λ _, Some [category_response];
     variables_of := λ _, Some [];
     runs_page := λ _, Pagination.serve served_runs |}.

Definition with_breakout : Options :=
  {| breakoutVariables := true;
     includeUnverifiedRuns := false;
     includeRunHistory := false |}.

(** The sample category with two runs to place. *)
Definition category_with_runs : Category :=
  {| cat_id := "cat"; cat_name := "Any%"; cat_rules := None;
     cat_variables := [Samples.V1; Samples.V2];
     cat_runs := Some [Samples.run_with_values {[ "V1" := "A"; "V2" := "B" ]};
                       Samples.run_with_values {[ "V1" := "A" ]}] |}.

End MoreSamples.

(** The runs held by all the leaderboards, leaderboard after leaderboard. *)
Definition placed_runs {R} (leaderboards : JsObject.t (Leaderboard R)) : list R :=
  leaderboards ≫= (λ p, lb_runs p.2).

(** The runs held by all the categories, category after category. *)
Definition fetched_runs (categories : JsObject.t Category) : list Run :=
  categories ≫= (λ p, default [] (cat_runs p.2)).

(** Every leaderboard is stored under its own id. *)
Definition keyed {R} (leaderboards : JsObject.t (Leaderboard R)) : Prop :=
  ∀ k lb, JsObject.get leaderboards k = Some lb → lb_id lb = k.

(** An entry as the ranker makes it without run history. *)
Definition without_history (e : Entry) : Entry :=
  {| entry_run := entry_run e; rank := rank e; obsoleteRuns := None |}.

(** The runs an entry stands for: its own and the obsolete ones. *)
Definition entry_runs (e : Entry) : list Run :=
  entry_run e :: default [] (obsoleteRuns e).

(** ** The time text in the spec's words *)

(** The hours, minutes and seconds of a total of seconds that is not
    negative, by the arithmetic the spec prescribes. *)
Definition spec_clock_fields (total : Z) : Z * Z * Z :=
  let seconds := total `mod` 60 in
  let rem1 := total - seconds in
  let minutesRaw := rem1 `mod` 3600 in
  let minutes := minutesRaw / 60 in
  let hours := (rem1 - minutesRaw) / 3600 in
  (hours, minutes, seconds).

(** A decimal digit as a character. *)
Definition spec_digit (d : Z) : ascii := ascii_of_N (48 + Z.to_N d).

(** A field below 100 written with two digits, zero-padded. *)
Definition spec_two_digits (n : Z) : string :=
  String (spec_digit (n / 10)) (String (spec_digit (n `mod` 10)) EmptyString).

(** Zero-padded [HH:MM:SS]; the hours are not padded beyond two digits and
    not capped: from 100 hours on they are written with all their digits. *)
Definition spec_time_text (total : Z) : string :=
  let '(hours, minutes, seconds) := spec_clock_fields total in
  (if hours <? 100 then spec_two_digits hours else pretty hours)
  +:+ ":" +:+ spec_two_digits minutes +:+ ":" +:+ spec_two_digits seconds.

(** * Properties *)

Import Normalizer Builder BuilderLoop Ranker.

(** ** The normalizer *)

Section NormalizerFacts.

Variable api : Upstream.
Variable popts : Options.

Lemma str_eq_Some (a : option string) (s : string) :
  str_eq a (Some s) = true → a = Some s.
Proof.
  destruct a as [x|]; simpl; [|discriminate].
  intros H. apply String.eqb_eq in H. by subst.
Qed.

(** What is known of a run the normalizer returns. *)
Lemma processRun_retained (rr : option RunResponse) (c c' : Caches) (r : Run) :
  processRun api popts rr c = Normal (Some r, c') →
  ∃ resp q,
    rr = Some resp ∧
    read_primary_t resp = Some q ∧
    Qeq_bool q 0 = false ∧
    timeSeconds r = Some q ∧
    run_time r = Some (formatTime q) ∧
    truthy_str (run_status r) = true ∧
    (includeUnverifiedRuns popts = false → run_status r = Some "verified").
Proof.
  destruct rr as [resp|]; [|discriminate].
  unfold processRun, read_status.
  destruct (rr_status resp) as [[o|s]|]; [|discriminate..].
  unfold mbind, M_bind, mret, M_ret; simpl.
  destruct (truthy_str (so_status o)) eqn:Hst; [|discriminate]; simpl.
  destruct (negb (includeUnverifiedRuns popts)
            && negb (str_eq (so_status o) (Some "verified")))
    eqn:Hver; [discriminate|].
  destruct (read_primary_t resp) as [q|] eqn:Hq; [|discriminate]; simpl.
  destruct (Qeq_bool q 0) eqn:Hz; [discriminate|]; simpl.
  rewrite Hz; simpl.
  intros H. exists resp, q.
  assert (Hfields : timeSeconds r = Some q ∧ run_time r = Some (formatTime q)
                    ∧ run_status r = so_status o).
  { repeat case_match; simplify_eq/=; auto. }
  destruct Hfields as (-> & -> & ->).
  repeat split; auto.
  intros Hinc. rewrite Hinc in Hver. simpl in Hver.
  apply negb_false_iff in Hver. by apply str_eq_Some.
Qed.

(** A response whose [status] is present but whose timing is missing or
    zero is rejected before any lookup. *)
Lemma processRun_rejects_falsy_time (resp : RunResponse) (c : Caches) :
  rr_status resp ≠ None →
  truthy_num (read_primary_t resp) = false →
  processRun api popts (Some resp) c = Normal (None, c).
Proof.
  intros Hst Ht. unfold processRun, read_status.
  destruct (rr_status resp) as [[o|s]|]; [| |done];
    unfold mbind, M_bind, mret, M_ret; simpl; [|done].
  destruct (negb (truthy_str (so_status o)) || _); [done|].
  by rewrite Ht.
Qed.

(** A response object without a [status] property makes the normalizer
    throw. *)
Lemma processRun_throws_without_status (resp : RunResponse) (c : Caches) :
  rr_status resp = None →
  processRun api popts (Some resp) c = Throw TypeError.
Proof. intros Hst. unfold processRun. by rewrite Hst. Qed.

Lemma getUsername_returns (userId : option string) (c : Caches) :
  (∀ id, is_Some (users api id)) →
  ∃ name c', getUsername api userId c = Normal (name, c').
Proof.
  intros Hup. unfold getUsername.
  destruct (negb (truthy_str userId)); [by eexists _, _|].
  destruct (truthy_str (userMap c !! _)); [by eexists _, _|].
  destruct (Hup (default EmptyString userId)) as [response ->].
  destruct (truthy_str _); by eexists _, _.
Qed.

Lemma getPlatform_returns (platformId : option string) (c : Caches) :
  (∀ id, is_Some (platforms api id)) →
  ∃ name c', getPlatform api platformId c = Normal (name, c').
Proof.
  intros Hup. unfold getPlatform.
  destruct (negb (truthy_str platformId)); [by eexists _, _|].
  destruct (truthy_str (platformMap c !! _)); [by eexists _, _|].
  destruct (Hup (default EmptyString platformId)) as [response ->].
  destruct (truthy_str _); by eexists _, _.
Qed.

(** With a [status] property in the response and an upstream that answers,
    the normalizer returns: a run or the rejection. *)
Lemma processRun_returns (resp : RunResponse) (c : Caches) :
  rr_status resp ≠ None →
  (∀ id, is_Some (users api id)) →
  (∀ id, is_Some (platforms api id)) →
  ∃ result c', processRun api popts (Some resp) c = Normal (result, c').
Proof.
  intros Hst Husers Hplatforms. unfold processRun, read_status.
  destruct (rr_status resp) as [[o|s]|]; [| |done];
    unfold mbind, M_bind, mret, M_ret; simpl; [|by eexists _, _].
  destruct (negb (truthy_str (so_status o)) || _); [by eexists _, _|].
  destruct (truthy_num (read_primary_t resp)) eqn:Ht; simpl;
    [rewrite Ht; simpl|by eexists _, _].
  assert (Hplayer : ∀ c2, ∃ pl c3, read_player api resp c2 = Normal (pl, c3)).
  { intros c2. unfold read_player.
    destruct (rr_players resp) as [[|playerObj [|]]|]; try by eexists _, _.
    destruct (str_eq (pr_rel playerObj) (Some "guest")); [by eexists _, _|].
    destruct (str_eq (pr_rel playerObj) (Some "user")); [|by eexists _, _].
    unfold mbind, M_bind, mret, M_ret.
    destruct (getUsername_returns (pr_id playerObj) c2 Husers) as (n & c3 & ->).
    by eexists _, _. }
  repeat match goal with
         | |- context [getUsername api ?u ?c0] =>
             destruct (getUsername_returns u c0 Husers) as (? & ? & ->)
         | |- context [getPlatform api ?p ?c0] =>
             destruct (getPlatform_returns p c0 Hplatforms) as (? & ? & ->)
         | |- context [read_player api resp ?c0] =>
             destruct (Hplayer c0) as (? & ? & ->)
         | |- context [if ?b then _ else _] => destruct b
         end;
    by eexists _, _.
Qed.

End NormalizerFacts.

(** The divisions of the time formatter are exact: the JavaScript quotient
    is the integer quotient. *)
Lemma clock_fields_exact (total : Z) :
  let seconds := Z.rem total 60 in
  let rem1 := total - seconds in
  let minutesRaw := Z.rem rem1 3600 in
  Z.quot minutesRaw 60 = minutesRaw / 60 ∧
  Z.quot (rem1 - minutesRaw) 3600 = (rem1 - minutesRaw) / 3600 ∧
  minutesRaw / 60 * 60 = minutesRaw ∧
  (rem1 - minutesRaw) / 3600 * 3600 = rem1 - minutesRaw.
Proof.
  intros seconds rem1 minutesRaw.
  assert (H1 : rem1 = Z.quot total 60 * 60).
  { unfold rem1, seconds. pose proof (Z.quot_rem' total 60). lia. }
  assert (H2 : rem1 - minutesRaw = Z.quot rem1 3600 * 3600).
  { unfold minutesRaw. pose proof (Z.quot_rem' rem1 3600). lia. }
  assert (H3 : minutesRaw = (Z.quot total 60 - Z.quot rem1 3600 * 60) * 60) by lia.
  rewrite H2, H3.
  rewrite !Z.quot_mul, !Z.div_mul by lia. auto.
Qed.

(** For a time that is not negative the fields are the usual clock
    decomposition of the total. *)
Lemma clock_fields_nonneg (total : Z) :
  0 ≤ total →
  let seconds := Z.rem total 60 in
  let rem1 := total - seconds in
  let minutesRaw := Z.rem rem1 3600 in
  seconds = total `mod` 60 ∧
  minutesRaw / 60 = (total / 60) `mod` 60 ∧
  (rem1 - minutesRaw) / 3600 = total / 3600.
Proof.
  intros Hpos seconds rem1 minutesRaw.
  assert (Hs : seconds = total `mod` 60) by (apply Z.rem_mod_nonneg; lia).
  assert (0 ≤ rem1).
  { unfold rem1. rewrite Hs. pose proof (Z.mod_le total 60). lia. }
  assert (Hm : minutesRaw = rem1 `mod` 3600) by (apply Z.rem_mod_nonneg; lia).
  rewrite Hm. unfold rem1. rewrite Hs.
  split; [done|].
  Z.div_mod_to_equations. lia.
Qed.

Lemma formatTime_clock_text (t : Q) :
  let total := Qfloor t in
  let seconds := Z.rem total 60 in
  let rem1 := total - seconds in
  let minutesRaw := Z.rem rem1 3600 in
  formatTime t
  = clock_text ((rem1 - minutesRaw) / 3600) (minutesRaw / 60) seconds.
Proof.
  intros total seconds rem1 minutesRaw.
  destruct (clock_fields_exact total) as (Hm & Hh & _).
  unfold formatTime, rem. cbv zeta. fold total.
  by rewrite Hm, Hh.
Qed.

(** Two digits for a field below 100, all the digits from 100 on. *)
Lemma pad2_digits (n : Z) :
  0 ≤ n < 100 → padStart 2 "0"%char (to_string n) = spec_two_digits n.
Proof.
  intros Hn.
  assert (∃ k, (k < 100)%nat ∧ n = Z.of_nat k) as (k & Hk & ->)
    by (exists (Z.to_nat n); lia).
  clear Hn. do 100 (destruct k as [|k]; [vm_compute; reflexivity|]). lia.
Qed.

Lemma pretty_N_go_length (x : N) (s : string) :
  (String.length s ≤ String.length (pretty_N_go x s))%nat.
Proof.
  revert s. induction (N.lt_wf_0 x) as [x _ IH]; intros s.
  assert (x = 0 ∨ 0 < x)%N as [->|Hx] by lia; [by rewrite pretty_N_go_0|].
  rewrite pretty_N_go_step by done.
  etrans; [|eapply IH, N.div_lt; [done|lia]]. simpl. lia.
Qed.

Lemma pad2_long (n : Z) :
  10 ≤ n → padStart 2 "0"%char (to_string n) = pretty n.
Proof.
  intros Hn. unfold padStart, to_string.
  assert (Hlen : (2 ≤ String.length (pretty n))%nat).
  { destruct n as [|x|x]; [lia| |lia].
    change (pretty (Z.pos x)) with (pretty (N.pos x)).
    unfold pretty, pretty_N. rewrite decide_False by done.
    rewrite 2!pretty_N_go_step by (try apply N.div_str_pos_iff; lia).
    etrans; [|apply pretty_N_go_length]. simpl. lia. }
  replace (2 - String.length (pretty n))%nat with 0%nat by lia. done.
Qed.

(** On a total that is not negative the remainder operator of the program
    is the modulo of the spec: the fields of the program are the fields
    of the spec. *)
Lemma formatTime_spec_time_text (t : Q) :
  0 ≤ Qfloor t → formatTime t = spec_time_text (Qfloor t).
Proof.
  intros Hpos.
  pose proof (formatTime_clock_text t) as Htext. cbv zeta in Htext.
  destruct (clock_fields_nonneg (Qfloor t) Hpos) as (Hs & Hm & Hh).
  cbv zeta in Hs, Hm, Hh.
  unfold spec_time_text, spec_clock_fields.
  assert (Hrem1 : 0 ≤ Qfloor t - Qfloor t `mod` 60).
  { pose proof (Z.mod_le (Qfloor t) 60). lia. }
  rewrite <- Hs. rewrite <- (Z.rem_mod_nonneg (Qfloor t - Z.rem (Qfloor t) 60) 3600)
    by (rewrite ?Hs; lia).
  rewrite Htext. unfold clock_text.
  set (hours := (Qfloor t - Z.rem (Qfloor t) 60
                 - Z.rem (Qfloor t - Z.rem (Qfloor t) 60) 3600) / 3600) in *.
  set (minutes := Z.rem (Qfloor t - Z.rem (Qfloor t) 60) 3600 / 60) in *.
  set (seconds := Z.rem (Qfloor t) 60) in *.
  pose proof (Z.mod_pos_bound (Qfloor t) 60 ltac:(lia)).
  pose proof (Z.mod_pos_bound (Qfloor t / 60) 60 ltac:(lia)).
  pose proof (Z.div_pos (Qfloor t) 3600 Hpos ltac:(lia)).
  rewrite (pad2_digits minutes), (pad2_digits seconds) by lia.
  destruct (Z.ltb_spec hours 100).
  - by rewrite pad2_digits by lia.
  - by rewrite pad2_long by lia.
Qed.

(** C9, as stated, fails: a retained run with a negative primary time has
    a [time] text with a sign in it, which is no zero-padded [HH:MM:SS]
    text. *)
Lemma negative_time_text_has_a_sign :
  returned (processRun Samples.upstream Samples.defaults
              (Some (Samples.response "u1" (Some (-5)%Q)))) Samples.no_cache
  = Normal (Some (Samples.run_of "u1" (-5)%Q)) ∧
  run_time (Samples.run_of "u1" (-5)%Q) = Some "00:00:-5".
Proof. split; vm_compute; reflexivity. Qed.

(** C9, amended.  For every retained run with a primary time that is not
    negative and floors below 2^53 (the range in which the arithmetic of
    the program is exact on its numbers) the [time] text is the
    zero-padded [HH:MM:SS] rendering of the floored primary time: two
    digits for the minutes and for the seconds, which are below 60, and
    two digits for the hours below 100, all their digits from 100 on,
    with seconds = total mod 60, rem1 = total - seconds,
    minutesRaw = rem1 mod 3600, minutes = minutesRaw / 60 and
    hours = (rem1 - minutesRaw) / 3600.  In particular 3661 seconds give
    01:01:01, 59 seconds 00:00:59 and 7200 seconds 02:00:00. *)
Theorem time_text_is_padded_clock_fields :
  (∀ api popts rr c c' r,
     processRun api popts rr c = Normal (Some r, c') →
     ∃ resp t,
       rr = Some resp ∧ read_primary_t resp = Some t ∧
       (0 ≤ Qfloor t < 2 ^ 53 →
        let '(hours, minutes, seconds) := spec_clock_fields (Qfloor t) in
        hours * 3600 + minutes * 60 + seconds = Qfloor t ∧
        0 ≤ hours ∧ 0 ≤ minutes < 60 ∧ 0 ≤ seconds < 60 ∧
        run_time r = Some (spec_time_text (Qfloor t)))) ∧
  (∃ r, returned (processRun Samples.upstream Samples.defaults
                    (Some (Samples.response "u1" (Some 3661%Q))))
                 Samples.no_cache = Normal (Some r) ∧
        run_time r = Some "01:01:01") ∧
  (∃ r, returned (processRun Samples.upstream Samples.defaults
                    (Some (Samples.response "u1" (Some 59%Q))))
                 Samples.no_cache = Normal (Some r) ∧
        run_time r = Some "00:00:59") ∧
  (∃ r, returned (processRun Samples.upstream Samples.defaults
                    (Some (Samples.response "u1" (Some 7200%Q))))
                 Samples.no_cache = Normal (Some r) ∧
        run_time r = Some "02:00:00").
Proof.
  split.
  - intros api popts rr c c' r Hrun.
    destruct (processRun_retained _ _ _ _ _ _ Hrun)
      as (resp & t & -> & Ht & _ & _ & Htime & _).
    exists resp, t. split; [done|]. split; [done|]. intros [Hpos _].
    unfold spec_clock_fields.
    pose proof (Z.mod_pos_bound (Qfloor t) 60 ltac:(lia)) as Hs.
    assert (Hrem1 : Qfloor t - Qfloor t `mod` 60 = Qfloor t / 60 * 60).
    { pose proof (Z.div_mod (Qfloor t) 60 ltac:(lia)). lia. }
    pose proof (Z.mod_pos_bound (Qfloor t - Qfloor t `mod` 60) 3600 ltac:(lia))
      as Hm.
    assert (Hraw : (Qfloor t - Qfloor t `mod` 60) `mod` 3600
                   = (Qfloor t / 60) `mod` 60 * 60).
    { rewrite Hrem1. Z.div_mod_to_equations. lia. }
    assert (Hmin : (Qfloor t - Qfloor t `mod` 60) `mod` 3600 / 60
                   = (Qfloor t / 60) `mod` 60).
    { rewrite Hraw. by rewrite Z.div_mul. }
    assert (Hhours : (Qfloor t - Qfloor t `mod` 60
                      - (Qfloor t - Qfloor t `mod` 60) `mod` 3600) / 3600
                     = Qfloor t / 3600).
    { rewrite Hraw, Hrem1. Z.div_mod_to_equations. lia. }
    rewrite Hmin, Hhours.
    pose proof (Z.mod_pos_bound (Qfloor t / 60) 60 ltac:(lia)).
    pose proof (Z.div_pos (Qfloor t) 3600 Hpos ltac:(lia)).
    split; [Z.div_mod_to_equations; lia|].
    split; [done|]. split; [done|]. split; [done|].
    rewrite Htime. f_equal. by apply formatTime_spec_time_text.
  - repeat split; eexists; (split; [vm_compute; reflexivity|reflexivity]).
Qed.

(** The universal part of C9 at a verified run of 3725 seconds. *)
Lemma time_text_is_padded_clock_fields_witness :
  ∃ resp t,
    Some (Samples.response "u1" (Some 3725%Q)) = Some resp ∧
    read_primary_t resp = Some t ∧
    (0 ≤ Qfloor t < 2 ^ 53 →
     let '(hours, minutes, seconds) := spec_clock_fields (Qfloor t) in
     hours * 3600 + minutes * 60 + seconds = Qfloor t ∧
     0 ≤ hours ∧ 0 ≤ minutes < 60 ∧ 0 ≤ seconds < 60 ∧
     run_time (Samples.run_of "u1" 3725%Q)
     = Some (spec_time_text (Qfloor t))).
Proof.
  apply (proj1 time_text_is_padded_clock_fields Samples.upstream
           Samples.defaults _ Samples.no_cache
           {| platformMap := ∅;
              userMap := {[ "mod1" := "user mod1"; "u1" := "user u1" ]} |}).
  vm_compute. reflexivity.
Defined.

(** C2, as stated, fails: a negative primary time is not positive after
    flooring and is retained with that negative [timeSeconds]; a primary
    time of one half floors to zero and is retained as well. *)
Lemma nonpositive_time_is_retained :
  returned (processRun Samples.upstream Samples.defaults
              (Some (Samples.response "u1" (Some (-5)%Q)))) Samples.no_cache
  = Normal (Some (Samples.run_of "u1" (-5)%Q)) ∧
  Qfloor (-5) ≤ 0 ∧
  timeSeconds (Samples.run_of "u1" (-5)%Q) = Some (-5)%Q ∧
  ¬ (0 < -5)%Q ∧
  returned (processRun Samples.upstream Samples.defaults
              (Some (Samples.response "u1" (Some (1 # 2)%Q)))) Samples.no_cache
  = Normal (Some (Samples.run_of "u1" (1 # 2)%Q)) ∧
  Qfloor (1 # 2) ≤ 0.
Proof.
  repeat split; try (vm_compute; reflexivity); try (vm_compute; discriminate).
Qed.

(** C2, amended.  A response that has a [status] is rejected when its
    primary time is missing or zero, and every retained run has a
    [timeSeconds] that is the primary time and is not zero. *)
Theorem falsy_time_is_rejected :
  ∀ api popts,
    (∀ resp c,
       rr_status resp ≠ None →
       (read_primary_t resp = None
        ∨ ∃ q, read_primary_t resp = Some q ∧ (q == 0)%Q) →
       processRun api popts (Some resp) c = Normal (None, c)) ∧
    (∀ rr c c' r,
       processRun api popts rr c = Normal (Some r, c') →
       ∃ resp q, rr = Some resp ∧ read_primary_t resp = Some q ∧
                 timeSeconds r = Some q ∧ ¬ (q == 0)%Q).
Proof.
  intros api popts. split.
  - intros resp c Hst Ht. apply processRun_rejects_falsy_time; [done|].
    destruct Ht as [->|(q & -> & Hq)]; [done|].
    simpl. apply Qeq_bool_iff in Hq. by rewrite Hq.
  - intros rr c c' r Hrun.
    destruct (processRun_retained _ _ _ _ _ _ Hrun)
      as (resp & q & -> & Ht & Hz & Hts & _).
    exists resp, q. repeat split; try done.
    intros Hq. apply Qeq_bool_iff in Hq. congruence.
Qed.

(** The amended C2 at a response with a primary time of zero, and at the
    retained run of -5 seconds. *)
Lemma falsy_time_is_rejected_witness :
  processRun Samples.upstream Samples.defaults
    (Some (Samples.response "u1" (Some 0%Q))) Samples.no_cache
  = Normal (None, Samples.no_cache) ∧
  ∃ resp q,
    Some (Samples.response "u1" (Some (-5)%Q)) = Some resp ∧
    read_primary_t resp = Some q ∧
    timeSeconds (Samples.run_of "u1" (-5)%Q) = Some q ∧ ¬ (q == 0)%Q.
Proof.
  split.
  - apply (proj1 (falsy_time_is_rejected Samples.upstream Samples.defaults)).
    + simpl. discriminate.
    + right. exists 0%Q. split; reflexivity.
  - apply (proj2 (falsy_time_is_rejected Samples.upstream Samples.defaults)
             _ Samples.no_cache
             {| platformMap := ∅;
                userMap := {[ "mod1" := "user mod1"; "u1" := "user u1" ]} |}).
    vm_compute. reflexivity.
Defined.

(** C5 fails on the code: for a response object without a [status]
    property the read [runResponseObj.status.status] of line 117 throws a
    [TypeError]; no value is returned.  An absent response is rejected. *)
Theorem missing_status_throws :
  ∀ api popts c,
    processRun api popts (Some Samples.response_without_status) c
    = Throw TypeError ∧
    processRun api popts None c = Normal (None, c).
Proof. intros api popts c. split; reflexivity. Qed.

(** C4, as stated, fails: the run the normalizer returns for a verified
    90-second response is rejected when it is normalized again. *)
Lemma normalized_run_is_rejected :
  returned (processRun Samples.upstream Samples.defaults
              (Some (Samples.response "u1" (Some 90%Q)))) Samples.no_cache
  = Normal (Some (Samples.run_of "u1" 90%Q)) ∧
  returned (processRun Samples.upstream Samples.defaults
              (Some (as_response (Samples.run_of "u1" 90%Q)))) Samples.no_cache
  = Normal None.
Proof. split; vm_compute; reflexivity. Qed.

(** C4, amended.  The normalizer is not idempotent: every run it returns,
    read back as a response, is rejected, whatever the options and the
    caches; the second application changes no cache. *)
Theorem renormalizing_rejects :
  ∀ api popts rr c c' r,
    processRun api popts rr c = Normal (Some r, c') →
    ∀ api' popts' c'',
      processRun api' popts' (Some (as_response r)) c'' = Normal (None, c'').
Proof.
  intros api popts rr c c' r Hrun api' popts' c''.
  destruct (processRun_retained _ _ _ _ _ _ Hrun)
    as (resp & q & _ & _ & _ & _ & _ & Hst & _).
  unfold processRun, as_response; simpl.
  destruct (run_status r) as [text|]; [|discriminate]. reflexivity.
Qed.

(** The amended C4 at the run returned for a verified 90-second response. *)
Lemma renormalizing_rejects_witness :
  processRun Samples.upstream Samples.with_history
    (Some (as_response (Samples.run_of "u1" 90%Q))) Samples.no_cache
  = Normal (None, Samples.no_cache).
Proof.
  apply (renormalizing_rejects Samples.upstream Samples.defaults
           (Some (Samples.response "u1" (Some 90%Q))) Samples.no_cache
           {| platformMap := ∅;
              userMap := {[ "mod1" := "user mod1"; "u1" := "user u1" ]} |}).
  vm_compute. reflexivity.
Defined.

(** ** Objects iterated with [for ... in] *)

Section JsObjectFacts.

Context {V : Type}.
Implicit Types (o : JsObject.t V) (k : string) (v : V).

Lemma get_set_eq o k v : JsObject.get (JsObject.set o k v) k = Some v.
Proof.
  induction o as [|[k' v'] o IH]; simpl.
  - by rewrite String.eqb_refl.
  - destruct (String.eqb k' k) eqn:E; simpl; by rewrite E.
Qed.

Lemma get_set_ne o k k' v :
  k ≠ k' → JsObject.get (JsObject.set o k v) k' = JsObject.get o k'.
Proof.
  intros Hne. induction o as [|[k0 v0] o IH]; simpl.
  - destruct (String.eqb k k') eqn:E; [|done].
    apply String.eqb_eq in E. done.
  - destruct (String.eqb k0 k) eqn:E; simpl; [|by rewrite IH].
    apply String.eqb_eq in E. subst k0.
    destruct (String.eqb k k') eqn:E'; [|done].
    apply String.eqb_eq in E'. done.
Qed.

End JsObjectFacts.

(** ** The leaderboard builder *)

Lemma append_assoc (s1 s2 s3 : string) :
  (s1 +:+ s2) +:+ s3 = s1 +:+ s2 +:+ s3.
Proof.
  induction s1 as [|a s1 IH]; [done|].
  change (String a ((s1 +:+ s2) +:+ s3) = String a (s1 +:+ s2 +:+ s3)).
  by rewrite IH.
Qed.

Lemma append_nil_r (s : string) : s +:+ EmptyString = s.
Proof.
  induction s as [|a s IH]; [done|].
  change (String a (s +:+ EmptyString) = String a s). by rewrite IH.
Qed.

Section BuilderFacts.

Variable catId : string.
Variable catObj : Category.
Variable runObj : Run.

(** A value of the variable that the run records passes the checks of the
    walk. *)
Lemma chosen_value_passes (v : CatVariable) (p : string * ValueInfo) :
  chosen_value v runObj = Some p →
  recorded_value v runObj = Some p.1 ∧ var_values v !! p.1 = Some p.2.
Proof.
  unfold chosen_value, recorded_value, has_value.
  destruct (negb (truthy_str (run_variables runObj !! var_id v))); [done|].
  destruct (var_values v !! default EmptyString (run_variables runObj !! var_id v))
    as [info|] eqn:Hinfo; [|done].
  simpl. by intros [= <-].
Qed.

Lemma walk_step (v : CatVariable) (variables : list CatVariable)
    usedVars orderedVars :
  walk_variables (v :: variables) runObj usedVars orderedVars
  = match recorded_value v runObj with
    | None => (usedVars, orderedVars, true)
    | Some value =>
        walk_variables variables runObj (<[var_id v := value]> usedVars)
          (orderedVars ++ [(var_id v, value)])
    end.
Proof.
  simpl. unfold recorded_value.
  destruct (negb (truthy_str (run_variables runObj !! var_id v))); [done|].
  by destruct (has_value v _).
Qed.

(** The walk stops as uncategorized as soon as one variable has no value
    that passes the checks. *)
Lemma walk_uncategorized (variables : list CatVariable) usedVars orderedVars :
  Exists (λ v, recorded_value v runObj = None) variables →
  (walk_variables variables runObj usedVars orderedVars).2 = true.
Proof.
  revert usedVars orderedVars.
  induction variables as [|v vs IH]; intros usedVars orderedVars Hex.
  - by apply Exists_nil in Hex.
  - rewrite walk_step.
    destruct (recorded_value v runObj) as [value|] eqn:Hv; [|done].
    apply IH. apply Exists_cons in Hex as [Hex|Hex]; [congruence|done].
Qed.

(** A walk that reaches the end has recorded one pair per variable, in the
    order of the variables. *)
Lemma walk_recorded (variables : list CatVariable) (values : list string)
    usedVars orderedVars :
  Forall2 (λ v a, recorded_value v runObj = Some a) variables values →
  walk_variables variables runObj usedVars orderedVars
  = (foldl (λ m va, <[va.1 := va.2]> m) usedVars
           (zip (var_id <$> variables) values),
     orderedVars ++ zip (var_id <$> variables) values,
     false).
Proof.
  intros Hall. revert usedVars orderedVars.
  induction Hall as [|v a vs values Hv _ IH]; intros usedVars orderedVars.
  - simpl. by rewrite app_nil_r.
  - rewrite walk_step, Hv, IH. csimpl. by rewrite <- app_assoc.
Qed.

Lemma walk_categorized (variables : list CatVariable)
    (picks : list (string * ValueInfo)) usedVars orderedVars :
  Forall2 (λ v p, chosen_value v runObj = Some p) variables picks →
  walk_variables variables runObj usedVars orderedVars
  = (foldl (λ m vp, <[var_id vp.1 := vp.2.1]> m) usedVars (zip variables picks),
     orderedVars ++ zip (var_id <$> variables) (fst <$> picks),
     false).
Proof.
  intros Hall. revert usedVars orderedVars.
  induction Hall as [|v p vs ps Hv _ IH]; intros usedVars orderedVars.
  - simpl. by rewrite app_nil_r.
  - apply chosen_value_passes in Hv as [Hv _].
    rewrite walk_step, Hv, IH. csimpl. by rewrite <- app_assoc.
Qed.

(** Every walk ends one way or the other. *)
Lemma walk_cases (variables : list CatVariable) :
  Exists (λ v, recorded_value v runObj = None) variables
  ∨ ∃ values, Forall2 (λ v a, recorded_value v runObj = Some a) variables values.
Proof.
  induction variables as [|v vs [IH|[values IH]]].
  - right. exists []. constructor.
  - left. by apply Exists_cons_tl.
  - destruct (recorded_value v runObj) as [a|] eqn:Hv.
    + right. exists (a :: values). by constructor.
    + left. by apply Exists_cons_hd.
Qed.

(** The naming loop appends the spec's id and name suffixes. *)
Lemma name_loop_spec (variables : list CatVariable)
    (picks : list (string * ValueInfo)) (i : nat) (lbId lbName : string) :
  Forall2 (λ v p, chosen_value v runObj = Some p) variables picks →
  drop i (cat_variables catObj) = variables →
  name_loop catObj (zip (var_id <$> variables) (fst <$> picks)) i lbId lbName
  = Normal (lbId +:+ spec_breakout_suffix (zip (var_id <$> variables) (fst <$> picks)),
            lbName +:+ spec_labels_suffix (Nat.eqb i 0) ((label ∘ snd) <$> picks)).
Proof.
  intros Hall. revert i lbId lbName.
  induction Hall as [|v p vs ps Hv _ IH]; intros i lbId lbName Hdrop.
  - simpl. by rewrite !append_nil_r.
  - simpl.
    assert (Hi : cat_variables catObj !! i = Some v).
    { rewrite <- (Nat.add_0_r i), <- lookup_drop, Hdrop. done. }
    rewrite Hi.
    apply chosen_value_passes in Hv as [_ Hinfo].
    unfold label_text. rewrite Hinfo.
    rewrite IH.
    + f_equal. f_equal.
      * by rewrite !append_assoc.
      * by rewrite !append_assoc.
    + rewrite (drop_S _ _ _ Hi) in Hdrop. by injection Hdrop.
Qed.

(** The naming loop returns for the values a walk has recorded, with the
    spec's id suffix. *)
Lemma name_loop_recorded (variables : list CatVariable) (values : list string)
    (i : nat) (lbId lbName : string) :
  Forall2 (λ v a, recorded_value v runObj = Some a) variables values →
  drop i (cat_variables catObj) = variables →
  ∃ lbName',
    name_loop catObj (zip (var_id <$> variables) values) i lbId lbName
    = Normal (lbId +:+ spec_breakout_suffix (zip (var_id <$> variables) values),
              lbName').
Proof.
  intros Hall. revert i lbId lbName.
  induction Hall as [|v a vs values Hv _ IH]; intros i lbId lbName Hdrop.
  - simpl. rewrite append_nil_r. by eexists.
  - simpl.
    assert (Hi : cat_variables catObj !! i = Some v).
    { rewrite <- (Nat.add_0_r i), <- lookup_drop, Hdrop. done. }
    rewrite Hi.
    assert (Htext : ∃ text, label_text v a = Normal text).
    { unfold recorded_value, has_value in Hv. unfold label_text.
      destruct (negb (truthy_str (run_variables runObj !! var_id v))); [done|].
      destruct (bool_decide _ || inherited _) eqn:Hhas; [|done].
      injection Hv as <-.
      destruct (var_values v !! _) as [info|] eqn:Hinfo; [by eexists|].
      rewrite bool_decide_eq_false_2 in Hhas by (by intros [? ?]).
      simpl in Hhas. rewrite Hhas. by eexists. }
    destruct Htext as [text ->]. cbv iota.
    destruct (IH (S i) ((lbId +:+ "$") +:+ (var_id v +:+ "^" +:+ a))
                ((lbName +:+ (if Nat.eqb i 0 then " - " else ", ")) +:+ text))
      as [lbName' Hloop].
    + rewrite (drop_S _ _ _ Hi) in Hdrop. by injection Hdrop.
    + exists lbName'. etrans; [exact Hloop|]. f_equal. f_equal.
      by rewrite !append_assoc.
Qed.

End BuilderFacts.

Section RoutingFacts.

Variable catId : string.
Variable catObj : Category.
Variable runObj : Run.

(** A run with a value of the variable for every variable goes to the
    breakout leaderboard of these values. *)
Lemma route_categorized (picks : list (string * ValueInfo)) :
  Forall2 (λ v p, chosen_value v runObj = Some p) (cat_variables catObj) picks →
  route catId catObj runObj
  = Normal (catId +:+ spec_breakout_suffix
                        (zip (var_id <$> cat_variables catObj) (fst <$> picks)),
            cat_name catObj +:+ spec_labels_suffix true ((label ∘ snd) <$> picks),
            foldl (λ m vp, <[var_id vp.1 := vp.2.1]> m) ∅
                  (zip (cat_variables catObj) picks)).
Proof.
  intros Hall. unfold route.
  rewrite (walk_categorized runObj _ picks ∅ [] Hall). simpl.
  unfold leaderboard_key.
  by rewrite (name_loop_spec catObj runObj _ picks 0 _ _ Hall eq_refl).
Qed.

(** A run with a value that passes the checks for every variable goes to
    the breakout leaderboard of these values. *)
Lemma route_recorded (values : list string) :
  Forall2 (λ v a, recorded_value v runObj = Some a) (cat_variables catObj) values →
  ∃ lbName,
    route catId catObj runObj
    = Normal (catId +:+ spec_breakout_suffix
                          (zip (var_id <$> cat_variables catObj) values),
              lbName,
              foldl (λ m va, <[va.1 := va.2]> m) ∅
                    (zip (var_id <$> cat_variables catObj) values)).
Proof.
  intros Hall. unfold route.
  rewrite (walk_recorded runObj _ values ∅ [] Hall). simpl.
  unfold leaderboard_key.
  destruct (name_loop_recorded catObj runObj _ values 0 catId (cat_name catObj)
              Hall eq_refl) as [lbName ->].
  by exists lbName.
Qed.

(** A run without a value that passes the checks for some variable goes to
    the uncategorized leaderboard of the category. *)
Lemma route_uncategorized :
  Exists (λ v, recorded_value v runObj = None) (cat_variables catObj) →
  ∃ usedVars,
    route catId catObj runObj
    = Normal (catId +:+ "$UNCATEGORIZED",
              cat_name catObj +:+ " - Uncategorized", usedVars).
Proof.
  intros Hex. unfold route.
  pose proof (walk_uncategorized runObj _ ∅ [] Hex) as Hwalk.
  destruct (walk_variables (cat_variables catObj) runObj ∅ [])
    as [[usedVars orderedVars] uncategorized].
  simpl in Hwalk. subst uncategorized. simpl. by exists usedVars.
Qed.

(** The routing of a run never throws. *)
Lemma route_returns :
  ∃ lbId lbName usedVars,
    route catId catObj runObj = Normal (lbId, lbName, usedVars).
Proof.
  destruct (walk_cases runObj (cat_variables catObj)) as [Hex|[values Hall]].
  - destruct (route_uncategorized Hex) as [usedVars ->]. eauto.
  - destruct (route_recorded values Hall) as [lbName ->]. eauto.
Qed.

(** What [push_run] does to the leaderboards. *)
Lemma push_run_target (leaderboards : JsObject.t (Leaderboard Run))
    (lbId lbName : string) (usedVars : gmap string string) :
  ∃ lb,
    JsObject.get (push_run leaderboards catId lbId lbName usedVars runObj) lbId
    = Some lb ∧
    lb_runs lb
    = default [] (lb_runs <$> JsObject.get leaderboards lbId) ++ [runObj] ∧
    lb_id lb = default lbId (lb_id <$> JsObject.get leaderboards lbId) ∧
    lb_name lb = default lbName (lb_name <$> JsObject.get leaderboards lbId) ∧
    categoryId lb = default catId (categoryId <$> JsObject.get leaderboards lbId).
Proof.
  unfold push_run. eexists. split; [apply get_set_eq|].
  by destruct (JsObject.get leaderboards lbId).
Qed.

Lemma push_run_others (leaderboards : JsObject.t (Leaderboard Run))
    (lbId lbName : string) (usedVars : gmap string string) (k : string) :
  k ≠ lbId →
  JsObject.get (push_run leaderboards catId lbId lbName usedVars runObj) k
  = JsObject.get leaderboards k.
Proof. intros Hne. unfold push_run. by apply get_set_ne. Qed.

End RoutingFacts.

(** C6. With breakout, for a category whose variables are [V1; V2] in this
    order and a run that records the recognized values A for V1 and B for
    V2, the builder computes the leaderboard id cat$V1^A$V2^B: the category
    id followed by the pairs in the order of the category's variables.  The
    id is this text whatever the order of the run's own map, so it is the
    swapped text cat$V2^B$V1^A only where the two texts coincide.  The run
    is appended to the leaderboard of this id. *)
Theorem breakout_id_follows_variable_order :
  ∀ catId catObj runObj V1 V2 A B leaderboards,
    cat_variables catObj = [V1; V2] →
    run_variables runObj !! var_id V1 = Some A →
    run_variables runObj !! var_id V2 = Some B →
    A ≠ EmptyString → B ≠ EmptyString →
    is_Some (var_values V1 !! A) →
    is_Some (var_values V2 !! B) →
    let lbId :=
      catId +:+ "$" +:+ var_id V1 +:+ "^" +:+ A
            +:+ "$" +:+ var_id V2 +:+ "^" +:+ B in
    (∃ lbName usedVars,
       route catId catObj runObj = Normal (lbId, lbName, usedVars)) ∧
    (∃ leaderboards' lb,
       place_run catId catObj leaderboards runObj = Normal leaderboards' ∧
       JsObject.get leaderboards' lbId = Some lb ∧
       lb_runs lb
       = default [] (lb_runs <$> JsObject.get leaderboards lbId) ++ [runObj]) ∧
    (∀ other lbName usedVars,
       route catId catObj runObj = Normal (other, lbName, usedVars) →
       other = lbId).
Proof.
  intros catId catObj runObj V1 V2 A B leaderboards Hvars HA HB HAne HBne
    [a Ha] [b Hb] lbId.
  assert (Hpick : ∀ V X info,
            run_variables runObj !! var_id V = Some X → X ≠ EmptyString →
            var_values V !! X = Some info →
            chosen_value V runObj = Some (X, info)).
  { intros V X info HX HXne Hinfo. unfold chosen_value. rewrite HX. simpl.
    destruct (String.eqb X EmptyString) eqn:E.
    - apply String.eqb_eq in E. done.
    - simpl. by rewrite Hinfo. }
  assert (Hall : Forall2 (λ v p, chosen_value v runObj = Some p)
                   (cat_variables catObj) [(A, a); (B, b)]).
  { rewrite Hvars. repeat constructor; by apply Hpick. }
  pose proof (route_categorized catId catObj runObj _ Hall) as Hroute.
  rewrite Hvars in Hroute. simpl in Hroute.
  rewrite append_nil_r in Hroute.
  fold lbId in Hroute.
  split; [eauto|]. split.
  - unfold place_run. rewrite Hroute.
    destruct (push_run_target catId runObj leaderboards lbId
                (cat_name catObj +:+ " - " +:+ label a +:+ ", " +:+ label b +:+ EmptyString)
                (<[var_id V2:=B]> (<[var_id V1:=A]> ∅)))
      as (lb & Hget & Hruns & _).
    eauto.
  - intros other lbName usedVars Hother. congruence.
Qed.

(** C6 at the sample category, for a run whose own map lists [V2] before
    [V1]. *)
Lemma breakout_id_follows_variable_order_witness :
  ∃ lbName usedVars,
    route "cat" Samples.category
      (Samples.run_with_values {[ "V2" := "B"; "V1" := "A" ]})
    = Normal ("cat$V1^A$V2^B", lbName, usedVars).
Proof.
  refine (proj1 (breakout_id_follows_variable_order "cat" Samples.category
                   (Samples.run_with_values {[ "V2" := "B"; "V1" := "A" ]})
                   Samples.V1 Samples.V2 "A" "B" [] eq_refl eq_refl eq_refl
                   _ _ _ _)).
  - discriminate.
  - discriminate.
  - by eexists.
  - by eexists.
Defined.

(** *** The whole breakout loop *)

Lemma includes_app (c : ascii) (s1 s2 : string) :
  includes c (s1 +:+ s2) = includes c s1 || includes c s2.
Proof.
  induction s1 as [|a s1 IH]; [done|].
  change (Ascii.eqb a c || includes c (s1 +:+ s2)
          = Ascii.eqb a c || includes c s1 || includes c s2).
  rewrite IH. by rewrite orb_assoc.
Qed.

(** The id of a breakout leaderboard is never the uncategorized id. *)
Lemma breakout_id_is_not_uncategorized (catId : string)
    (pairs : list (string * string)) :
  catId +:+ spec_breakout_suffix pairs ≠ catId +:+ "$UNCATEGORIZED".
Proof.
  intros Heq. apply (inj (String.append catId)) in Heq.
  destruct pairs as [|[k v] pairs]; [done|].
  apply (f_equal (includes "^"%char)) in Heq.
  simpl spec_breakout_suffix in Heq.
  change ("$" +:+ k +:+ "^" +:+ v +:+ spec_breakout_suffix pairs)
    with (String "$" (k +:+ "^" +:+ v +:+ spec_breakout_suffix pairs)) in Heq.
  simpl in Heq. rewrite includes_app in Heq.
  change ("^" +:+ v +:+ spec_breakout_suffix pairs)
    with (String "^" (v +:+ spec_breakout_suffix pairs)) in Heq.
  simpl in Heq. rewrite orb_true_r in Heq. done.
Qed.

Section BreakoutLoop.

Variable catId : string.
Variable catObj : Category.

Lemma place_run_returns (leaderboards : JsObject.t (Leaderboard Run))
    (runObj : Run) :
  ∃ lbId lbName usedVars,
    route catId catObj runObj = Normal (lbId, lbName, usedVars) ∧
    place_run catId catObj leaderboards runObj
    = Normal (push_run leaderboards catId lbId lbName usedVars runObj).
Proof.
  destruct (route_returns catId catObj runObj)
    as (lbId & lbName & usedVars & Hroute).
  exists lbId, lbName, usedVars. split; [done|].
  unfold place_run. by rewrite Hroute.
Qed.

(** A step keeps every leaderboard, with its id and name, and only appends
    to its runs. *)
Lemma place_run_keeps (leaderboards leaderboards' : JsObject.t (Leaderboard Run))
    (runObj : Run) (k : string) (lb : Leaderboard Run) :
  place_run catId catObj leaderboards runObj = Normal leaderboards' →
  JsObject.get leaderboards k = Some lb →
  ∃ lb', JsObject.get leaderboards' k = Some lb' ∧
         lb_id lb' = lb_id lb ∧ lb_name lb' = lb_name lb ∧
         ∃ more, lb_runs lb' = lb_runs lb ++ more.
Proof.
  intros Hstep Hget.
  destruct (place_run_returns leaderboards runObj)
    as (lbId & lbName & usedVars & _ & Hplace).
  rewrite Hplace in Hstep. injection Hstep as <-.
  destruct (decide (k = lbId)) as [->|Hne].
  - destruct (push_run_target catId runObj leaderboards lbId lbName usedVars)
      as (lb' & Hget' & Hruns & Hid & Hname & _).
    rewrite Hget in Hruns, Hid, Hname. simpl in *. exists lb'. eauto 6.
  - exists lb. rewrite push_run_others by done.
    repeat split; try done. exists []. by rewrite app_nil_r.
Qed.

Lemma place_runs_keeps (runs : list Run)
    (leaderboards leaderboards' : JsObject.t (Leaderboard Run))
    (k : string) (lb : Leaderboard Run) :
  place_runs catId catObj leaderboards runs = Normal leaderboards' →
  JsObject.get leaderboards k = Some lb →
  ∃ lb', JsObject.get leaderboards' k = Some lb' ∧
         lb_id lb' = lb_id lb ∧ lb_name lb' = lb_name lb ∧
         ∃ more, lb_runs lb' = lb_runs lb ++ more.
Proof.
  revert leaderboards lb.
  induction runs as [|runObj runs IH]; intros leaderboards lb Hloop Hget.
  - injection Hloop as <-. exists lb. repeat split; try done.
    exists []. by rewrite app_nil_r.
  - simpl in Hloop.
    destruct (place_run catId catObj leaderboards runObj)
      as [step|] eqn:Hstep; [|done].
    destruct (place_run_keeps _ _ _ _ _ Hstep Hget)
      as (lb1 & Hget1 & Hid1 & Hname1 & more1 & Hruns1).
    destruct (IH _ _ Hloop Hget1) as (lb' & Hget' & Hid & Hname & more & Hruns).
    exists lb'. rewrite Hid, Hname, Hruns, Hruns1.
    repeat split; try done. exists (more1 ++ more). by rewrite app_assoc.
Qed.

(** The loop over the runs of a category never throws. *)
Lemma place_runs_returns (runs : list Run)
    (leaderboards : JsObject.t (Leaderboard Run)) :
  ∃ leaderboards', place_runs catId catObj leaderboards runs = Normal leaderboards'.
Proof.
  revert leaderboards. induction runs as [|runObj runs IH]; intros leaderboards.
  - by eexists.
  - simpl.
    destruct (place_run_returns leaderboards runObj)
      as (lbId & lbName & usedVars & _ & ->).
    apply IH.
Qed.

(** After the loop every run without a recognized value for some variable
    is in the uncategorized leaderboard of the category, which has the
    uncategorized id and name when the loop created it. *)
Lemma uncategorized_runs_are_kept (runs : list Run)
    (leaderboards leaderboards' : JsObject.t (Leaderboard Run)) (runObj : Run) :
  place_runs catId catObj leaderboards runs = Normal leaderboards' →
  runObj ∈ runs →
  Exists (λ v, recorded_value v runObj = None) (cat_variables catObj) →
  ∃ lb,
    JsObject.get leaderboards' (catId +:+ "$UNCATEGORIZED") = Some lb ∧
    runObj ∈ lb_runs lb ∧
    (JsObject.get leaderboards (catId +:+ "$UNCATEGORIZED") = None →
     lb_id lb = catId +:+ "$UNCATEGORIZED" ∧
     lb_name lb = cat_name catObj +:+ " - Uncategorized").
Proof.
  intros Hloop Hin Hex. revert leaderboards Hloop.
  induction runs as [|r runs IH]; intros leaderboards Hloop.
  - by apply elem_of_nil in Hin.
  - simpl in Hloop.
    destruct (place_run catId catObj leaderboards r) as [step|] eqn:Hstep;
      [|done].
    apply elem_of_cons in Hin as [->|Hin].
    + destruct (route_uncategorized catId catObj r Hex) as [usedVars Hroute].
      unfold place_run in Hstep. rewrite Hroute in Hstep.
      injection Hstep as <-.
      destruct (push_run_target catId r leaderboards
                  (catId +:+ "$UNCATEGORIZED")
                  (cat_name catObj +:+ " - Uncategorized") usedVars)
        as (lb1 & Hget1 & Hruns1 & Hid1 & Hname1 & _).
      destruct (place_runs_keeps _ _ _ _ _ Hloop Hget1)
        as (lb' & Hget' & Hid & Hname & more & Hruns).
      exists lb'. split; [done|]. split.
      * rewrite Hruns, Hruns1. apply elem_of_app. left.
        apply elem_of_app. right. by left.
      * intros Hnone. rewrite Hnone in Hid1, Hname1. simpl in *.
        by rewrite Hid, Hname.
    + destruct (IH Hin _ Hloop) as (lb & Hget & Hmem & Hnew).
      exists lb. split; [done|]. split; [done|].
      intros Hnone.
      destruct (JsObject.get step (catId +:+ "$UNCATEGORIZED")) as [lb1|] eqn:Hget1.
      * destruct (place_run_returns leaderboards r)
          as (lbId & lbName & usedVars & Hroute & Hplace).
        rewrite Hplace in Hstep. injection Hstep as <-.
        destruct (decide (catId +:+ "$UNCATEGORIZED" = lbId)) as [<-|Hne].
        -- destruct (push_run_target catId r leaderboards
                       (catId +:+ "$UNCATEGORIZED") lbName usedVars)
             as (lb2 & Hget2 & _ & Hid2 & Hname2 & _).
           rewrite Hget1 in Hget2. injection Hget2 as <-.
           rewrite Hnone in Hid2, Hname2. simpl in *.
           destruct (place_runs_keeps _ _ _ _ _ Hloop Hget1)
             as (lb' & Hget' & Hid & Hname & _).
           rewrite Hget in Hget'. injection Hget' as <-.
           rewrite Hid, Hname, Hid2, Hname2. split; [done|].
           destruct (walk_cases r (cat_variables catObj)) as [Hex'|[values Hall]].
           ++ destruct (route_uncategorized catId catObj r Hex') as [u Hr].
              rewrite Hr in Hroute. congruence.
           ++ destruct (route_recorded catId catObj r values Hall) as [n Hr].
              rewrite Hr in Hroute. exfalso.
              apply (breakout_id_is_not_uncategorized catId
                       (zip (var_id <$> cat_variables catObj) values)).
              congruence.
        -- rewrite push_run_others in Hget1 by done. congruence.
      * by apply Hnew.
Qed.

End BreakoutLoop.

(** The builder returns for every category that still has its runs, and
    deletes them. *)
Lemma build_category_returns (popts : Options) (catId : string)
    (catObj : Category) (leaderboards : JsObject.t (Leaderboard Run)) :
  is_Some (cat_runs catObj) →
  ∃ catObj' leaderboards',
    build_category popts catId catObj leaderboards
    = Normal (catObj', leaderboards') ∧
    cat_runs catObj' = None.
Proof.
  intros [runs Hruns]. unfold build_category. rewrite Hruns.
  destruct (breakoutVariables popts).
  - destruct (place_runs_returns catId catObj runs leaderboards) as [lbs ->].
    by eexists _, _.
  - by eexists _, _.
Qed.

(** A run lacks a value for a variable in the sense of the spec: it
    records none, or it records one that is not a value of the variable.
    For names that no plain object inherits, such a run does not pass the
    checks of the walk. *)
Lemma lacking_value_is_not_recorded (runObj : Run) (v : CatVariable) :
  (run_variables runObj !! var_id v = None
   ∨ ∃ a, run_variables runObj !! var_id v = Some a
          ∧ var_values v !! a = None ∧ inherited a = false) →
  recorded_value v runObj = None.
Proof.
  unfold recorded_value, has_value.
  intros [->|(a & -> & Ha & Hi)]; [done|]. simpl.
  destruct (negb (negb (String.eqb a EmptyString))); [done|].
  rewrite Ha, Hi. by rewrite bool_decide_eq_false_2 by (by intros [? ?]).
Qed.

Lemma own_or_inherited_is_recorded (runObj : Run) (v : CatVariable) (a : string) :
  run_variables runObj !! var_id v = Some a → a ≠ EmptyString →
  is_Some (var_values v !! a) ∨ inherited a = true →
  recorded_value v runObj = Some a.
Proof.
  intros Ha Hne Hhas. unfold recorded_value, has_value. rewrite Ha. simpl.
  destruct (String.eqb a EmptyString) eqn:E;
    [by apply String.eqb_eq in E|]. simpl.
  destruct Hhas as [Hown| ->]; [|by rewrite orb_true_r].
  by rewrite bool_decide_eq_true_2.
Qed.

(** C7. With breakout, a run without a recorded value for some variable of
    its category, or with a recorded value that is not a value of that
    variable, is meant to go to the leaderboard catId$UNCATEGORIZED.  The
    code does so unless the recorded value names a member of
    [Object.prototype]: [values] is a plain object, so line 231 takes such
    a name for a value of the variable, and the run goes to a breakout
    leaderboard of its own, named with the text "undefined" (first and
    second part; the sample run with the value toString for V1 goes to
    cat$V1^toString$V2^B).  For the other runs the claim holds: one step
    of the loop appends the run to catId$UNCATEGORIZED, created with the
    name catName - Uncategorized when it does not exist yet, and changes
    no other leaderboard (third part), and when the loop over the runs of
    the category has returned, every such run is in that leaderboard
    (fourth part). *)
Theorem uncategorized_run_is_routed :
  (∀ catId catObj runObj values,
     Forall2 (λ v a, run_variables runObj !! var_id v = Some a
                     ∧ a ≠ EmptyString
                     ∧ (is_Some (var_values v !! a) ∨ inherited a = true))
             (cat_variables catObj) values →
     let lbId :=
       catId +:+ spec_breakout_suffix
                   (zip (var_id <$> cat_variables catObj) values) in
     lbId ≠ catId +:+ "$UNCATEGORIZED" ∧
     ∃ lbName usedVars,
       route catId catObj runObj = Normal (lbId, lbName, usedVars)) ∧
  (var_values Samples.V1 !! "toString" = None ∧
   route "cat" Samples.category
     (Samples.run_with_values {[ "V1" := "toString"; "V2" := "B" ]})
   = Normal ("cat$V1^toString$V2^B", "Any% - undefined, 1.0",
             {[ "V1" := "toString"; "V2" := "B" ]})) ∧
  (∀ catId catObj runObj leaderboards v,
     v ∈ cat_variables catObj →
     inherited (var_id v) = false →
     (run_variables runObj !! var_id v = None
      ∨ ∃ a, run_variables runObj !! var_id v = Some a
             ∧ var_values v !! a = None ∧ inherited a = false) →
     let lbId := catId +:+ "$UNCATEGORIZED" in
     let lbName := cat_name catObj +:+ " - Uncategorized" in
     ∃ leaderboards',
       place_run catId catObj leaderboards runObj = Normal leaderboards' ∧
       (∃ lb,
          JsObject.get leaderboards' lbId = Some lb ∧
          lb_runs lb
          = default [] (lb_runs <$> JsObject.get leaderboards lbId) ++ [runObj] ∧
          lb_id lb = default lbId (lb_id <$> JsObject.get leaderboards lbId) ∧
          lb_name lb
          = default lbName (lb_name <$> JsObject.get leaderboards lbId)) ∧
       (∀ k, k ≠ lbId →
             JsObject.get leaderboards' k = JsObject.get leaderboards k)) ∧
  (∀ popts catId catObj runs leaderboards,
     breakoutVariables popts = true →
     cat_runs catObj = Some runs →
     ∃ catObj' leaderboards',
       build_category popts catId catObj leaderboards
       = Normal (catObj', leaderboards') ∧
       ∀ runObj v,
         runObj ∈ runs →
         v ∈ cat_variables catObj →
         inherited (var_id v) = false →
         (run_variables runObj !! var_id v = None
          ∨ ∃ a, run_variables runObj !! var_id v = Some a
                 ∧ var_values v !! a = None ∧ inherited a = false) →
         ∃ lb,
           JsObject.get leaderboards' (catId +:+ "$UNCATEGORIZED") = Some lb ∧
           runObj ∈ lb_runs lb ∧
           (JsObject.get leaderboards (catId +:+ "$UNCATEGORIZED") = None →
            lb_id lb = catId +:+ "$UNCATEGORIZED" ∧
            lb_name lb = cat_name catObj +:+ " - Uncategorized")).
Proof.
  split; [|split; [|split]].
  - intros catId catObj runObj values Hall lbId. split.
    + apply breakout_id_is_not_uncategorized.
    + assert (Hrec : Forall2 (λ v a, recorded_value v runObj = Some a)
                       (cat_variables catObj) values).
      { eapply Forall2_impl; [exact Hall|]. simpl.
        intros v a (Ha & Hne & Hhas). by apply own_or_inherited_is_recorded. }
      destruct (route_recorded catId catObj runObj values Hrec) as [lbName Hr].
      eauto.
  - split; vm_compute; reflexivity.
  - intros catId catObj runObj leaderboards v Hin _ Hv lbId lbName.
    assert (Hex : Exists (λ v, recorded_value v runObj = None)
                    (cat_variables catObj)).
    { apply Exists_exists. exists v. split; [done|].
      by apply lacking_value_is_not_recorded. }
    destruct (route_uncategorized catId catObj runObj Hex) as [usedVars Hroute].
    unfold place_run. rewrite Hroute.
    eexists. split; [reflexivity|]. split.
    + destruct (push_run_target catId runObj leaderboards lbId lbName usedVars)
        as (lb & ? & ? & ? & ? & ?).
      exists lb. auto.
    + intros k Hk. by apply push_run_others.
  - intros popts catId catObj runs leaderboards Hb Hruns.
    unfold build_category. rewrite Hb, Hruns.
    destruct (place_runs_returns catId catObj runs leaderboards)
      as [leaderboards' Hloop].
    rewrite Hloop. eexists _, _. split; [reflexivity|].
    intros runObj v Hrun Hin _ Hv.
    apply (uncategorized_runs_are_kept catId catObj runs leaderboards
             leaderboards' runObj Hloop Hrun).
    apply Exists_exists. exists v. split; [done|].
    by apply lacking_value_is_not_recorded.
Qed.

(** The fourth part of C7 at the sample category with two runs, of which
    the second records no value for [V2]. *)
Lemma uncategorized_run_is_routed_witness :
  ∃ catObj' leaderboards' lb,
    build_category MoreSamples.with_breakout "cat"
      MoreSamples.category_with_runs []
    = Normal (catObj', leaderboards') ∧
    JsObject.get leaderboards' "cat$UNCATEGORIZED" = Some lb ∧
    Samples.run_with_values {[ "V1" := "A" ]} ∈ lb_runs lb ∧
    lb_id lb = "cat$UNCATEGORIZED" ∧
    lb_name lb = "Any% - Uncategorized".
Proof.
  destruct (proj2 (proj2 (proj2 uncategorized_run_is_routed))
              MoreSamples.with_breakout "cat" MoreSamples.category_with_runs
              _ [] eq_refl eq_refl)
    as (catObj' & leaderboards' & Hbuild & Hall).
  destruct (Hall (Samples.run_with_values {[ "V1" := "A" ]}) Samples.V2)
    as (lb & Hget & Hin & Hnew).
  - set_solver.
  - set_solver.
  - reflexivity.
  - left. reflexivity.
  - destruct (Hnew eq_refl) as [Hid Hname].
    exists catObj', leaderboards', lb. auto.
Defined.

(** ** The ranker: sorting *)

Lemma positive_num_sub (a b : option Q) :
  positive (num_sub a b) = true ↔
  ∃ x y, a = Some x ∧ b = Some y ∧ (y < x)%Q.
Proof.
  destruct a as [x|], b as [y|]; simpl;
    try (split; [discriminate|intros (? & ? & ? & ? & ?); discriminate]).
  rewrite negb_true_iff, <- not_true_iff_false, Qle_bool_iff.
  split.
  - intros H. exists x, y. repeat split; try done. lra.
  - intros (x' & y' & [= <-] & [= <-] & H). lra.
Qed.

Section SortFacts.

Context {A : Type}.
Variable compareFn : A → A → option Q.
Variable key : A → option Q.
Hypothesis compareFn_key : ∀ a b, compareFn a b = num_sub (key a) (key b).

Lemma insert_sorted_Permutation (x : A) (l : list A) :
  insert_sorted compareFn x l ≡ₚ x :: l.
Proof.
  induction l as [|y l IH]; simpl; [done|].
  destruct (positive (compareFn x y)); [|done].
  rewrite IH. apply Permutation_swap.
Qed.

Lemma js_sort_Permutation (l : list A) : js_sort compareFn l ≡ₚ l.
Proof.
  induction l as [|x l IH]; simpl; [done|].
  by rewrite insert_sorted_Permutation, IH.
Qed.

Lemma js_sort_length (l : list A) : length (js_sort compareFn l) = length l.
Proof. by rewrite js_sort_Permutation. Qed.

Lemma insert_sorted_Sorted (x : A) (l : list A) :
  is_Some (key x) →
  Forall (λ a, is_Some (key a)) l →
  Sorted (ascending key) l →
  Sorted (ascending key) (insert_sorted compareFn x l).
Proof.
  intros [tx Hx] Hall Hsorted.
  induction l as [|y l IH]; simpl.
  - repeat constructor.
  - apply Forall_cons in Hall as [[ty Hy] Hall].
    apply Sorted_inv in Hsorted as [Hsorted Hhd].
    destruct (positive (compareFn x y)) eqn:Hxy.
    + rewrite compareFn_key in Hxy.
      apply positive_num_sub in Hxy as (x' & y' & Hx' & Hy' & Hlt).
      constructor; [by apply IH|].
      destruct l as [|z l]; simpl.
      * constructor. unfold ascending. rewrite Hx', Hy'. simpl. lra.
      * destruct (positive (compareFn x z)).
        -- constructor. by apply HdRel_inv in Hhd.
        -- constructor. unfold ascending. rewrite Hx', Hy'. simpl. lra.
    + constructor; [by constructor|].
      constructor. unfold ascending. rewrite Hx, Hy. simpl.
      destruct (Qlt_le_dec ty tx) as [Hlt|Hle]; [|done].
      assert (positive (compareFn x y) = true); [|congruence].
      rewrite compareFn_key. apply positive_num_sub. eauto 6.
Qed.

Lemma js_sort_Sorted (l : list A) :
  Forall (λ a, is_Some (key a)) l →
  Sorted (ascending key) (js_sort compareFn l).
Proof.
  induction l as [|x l IH]; intros Hall; simpl; [constructor|].
  apply Forall_cons in Hall as [Hx Hall].
  apply insert_sorted_Sorted; [done| |by apply IH].
  by rewrite js_sort_Permutation.
Qed.

Lemma ascending_trans (a b c : A) :
  ascending key a b → ascending key b c → ascending key a c.
Proof.
  unfold ascending, time_le.
  destruct (key a), (key b), (key c); try done. intros. lra.
Qed.

Lemma js_sort_StronglySorted (l : list A) :
  Forall (λ a, is_Some (key a)) l →
  StronglySorted (ascending key) (js_sort compareFn l).
Proof.
  intros Hall. apply Sorted_StronglySorted; [|by apply js_sort_Sorted].
  intros a b c. apply ascending_trans.
Qed.

End SortFacts.

Lemma Sorted_lookup_adjacent {A} (R : relation A) (l : list A) (i : nat) (a b : A) :
  Sorted R l → l !! i = Some a → l !! S i = Some b → R a b.
Proof.
  intros Hsorted. revert i.
  induction Hsorted as [|x l Hsorted IH Hhd]; intros i Ha Hb; [done|].
  destruct i as [|i]; simpl in *.
  - injection Ha as <-. destruct l as [|y l]; [done|].
    simpl in Hb. injection Hb as <-. by apply HdRel_inv in Hhd.
  - by apply (IH i).
Qed.

(** ** The ranker: the ranking loop *)

Lemma rank_step_snoc (ranked pending : list Entry) (current : Entry) :
  rank_step (length ranked) (ranked ++ current :: pending)
  = (ranked ++ rank_from (last ranked) (length ranked) [current]) ++ pending.
Proof.
  unfold rank_step. rewrite <- app_assoc. simpl.
  destruct (Nat.eqb (length ranked) 0) eqn:Hzero.
  - apply Nat.eqb_eq in Hzero. destruct ranked; [done|discriminate].
  - apply Nat.eqb_neq in Hzero.
    rewrite list_lookup_middle by done.
    rewrite lookup_app_l by lia.
    replace (length ranked - 1)%nat with (pred (length ranked)) by lia.
    rewrite <- last_lookup.
    destruct (last ranked) as [previous|] eqn:Hlast.
    + destruct (num_eq _ _);
        rewrite alter_app_r_alt by lia; by rewrite Nat.sub_diag.
    + apply last_None in Hlast. by subst ranked.
Qed.

Lemma rank_loop_rank_from (pending ranked : list Entry) :
  rank_loop (length pending) (length ranked) (ranked ++ pending)
  = ranked ++ rank_from (last ranked) (length ranked) pending.
Proof.
  revert ranked. induction pending as [|current pending IH]; intros ranked.
  - done.
  - simpl rank_loop. rewrite rank_step_snoc. simpl rank_from.
    set (e := match last ranked with
              | None => set_rank (Some 1%nat) current
              | Some previous =>
                  if num_eq (timeSeconds (entry_run current))
                            (timeSeconds (entry_run previous))
                  then set_rank (rank previous) current
                  else set_rank (Some (length ranked + 1)%nat) current
              end).
    replace (S (length ranked)) with (length (ranked ++ [e]))
      by (rewrite length_app; simpl; lia).
    rewrite IH. rewrite last_snoc. by rewrite <- app_assoc.
Qed.

Lemma assign_ranks_rank_from (lbEntries : list Entry) :
  assign_ranks lbEntries = rank_from None 0 lbEntries.
Proof. apply (rank_loop_rank_from lbEntries []). Qed.

Lemma rank_from_runs (previous : option Entry) (i : nat) (pending : list Entry) :
  entry_run <$> rank_from previous i pending = entry_run <$> pending.
Proof.
  revert previous i. induction pending as [|e l IH]; intros previous i; [done|].
  simpl. rewrite IH. f_equal. destruct previous as [p|]; [|done].
  by destruct (num_eq _ _).
Qed.

Lemma rank_from_obsoleteRuns (previous : option Entry) (i : nat)
    (pending : list Entry) :
  obsoleteRuns <$> rank_from previous i pending = obsoleteRuns <$> pending.
Proof.
  revert previous i. induction pending as [|e l IH]; intros previous i; [done|].
  simpl. rewrite IH. f_equal. destruct previous as [p|]; [|done].
  by destruct (num_eq _ _).
Qed.

Lemma rank_from_first (i : nat) (pending : list Entry) (e : Entry) :
  rank_from None i pending !! 0%nat = Some e → rank e = Some 1%nat.
Proof. destruct pending; simpl; [done|]. by intros [= <-]. Qed.

Lemma rank_from_adjacent (previous : option Entry) (i j : nat)
    (pending : list Entry) (p e : Entry) :
  rank_from previous i pending !! j = Some p →
  rank_from previous i pending !! S j = Some e →
  rank e = if num_eq (timeSeconds (entry_run e)) (timeSeconds (entry_run p))
           then rank p else Some (i + S j + 1)%nat.
Proof.
  revert previous i j.
  induction pending as [|c rest IH]; intros previous i j Hp He; [done|].
  destruct j as [|j].
  - simpl in Hp, He. injection Hp as <-.
    destruct rest as [|c2 rest]; [done|].
    simpl in He. injection He as <-.
    set (first := match previous with
                  | None => set_rank (Some 1%nat) c
                  | Some previous =>
                      if num_eq (timeSeconds (entry_run c))
                                (timeSeconds (entry_run previous))
                      then set_rank (rank previous) c
                      else set_rank (Some (i + 1)%nat) c
                  end).
    destruct (num_eq (timeSeconds (entry_run c2)) (timeSeconds (entry_run first)))
      eqn:Heq; simpl; rewrite Heq; [done|]. f_equal. lia.
  - simpl in Hp, He. rewrite (IH _ _ _ Hp He). destruct (num_eq _ _); [done|].
    f_equal. lia.
Qed.

(** ** The ranker: grouping by player *)

Section JsObjectOrder.

Context {V : Type}.
Implicit Types (o : JsObject.t V) (k : string) (v : V).

Lemma set_keys o k v :
  (JsObject.set o k v).*1
  = if bool_decide (k ∈ o.*1) then o.*1 else o.*1 ++ [k].
Proof.
  induction o as [|[k' v'] o IH]; csimpl; [done|].
  destruct (String.eqb k' k) eqn:E; csimpl.
  - apply String.eqb_eq in E. subst k'.
    rewrite bool_decide_eq_true_2 by (by left). done.
  - apply String.eqb_neq in E. rewrite IH.
    destruct (bool_decide (k ∈ o.*1)) eqn:Hin.
    + apply bool_decide_eq_true in Hin.
      rewrite bool_decide_eq_true_2 by (by right). done.
    + apply bool_decide_eq_false in Hin.
      rewrite bool_decide_eq_false_2; [done|].
      intros [->|?]%elem_of_cons; done.
Qed.

Lemma set_NoDup o k v : NoDup o.*1 → NoDup (JsObject.set o k v).*1.
Proof.
  intros Hnd. rewrite set_keys.
  destruct (bool_decide (k ∈ o.*1)) eqn:Hin; [done|].
  apply bool_decide_eq_false in Hin.
  apply NoDup_app. repeat split; [done| |apply NoDup_singleton].
  intros x Hx Hx'. apply list_elem_of_singleton in Hx'. by subst.
Qed.

Lemma elem_of_get o k v : NoDup o.*1 → (k, v) ∈ o ↔ JsObject.get o k = Some v.
Proof.
  induction o as [|[k' v'] o IH]; csimpl; intros Hnd.
  - split; [by intros ?%elem_of_nil|done].
  - apply NoDup_cons in Hnd as [Hk' Hnd].
    destruct (String.eqb k' k) eqn:E.
    + apply String.eqb_eq in E. subst k'. split.
      * intros [[= <-]|Hin]%elem_of_cons; [done|].
        destruct Hk'. apply list_elem_of_fmap. by exists (k, v).
      * intros [= <-]. by left.
    + apply String.eqb_neq in E. rewrite <- (IH Hnd). split.
      * intros [[= <- <-]|Hin]%elem_of_cons; done.
      * by right.
Qed.

Lemma insert_index_Permutation (n : N) (p : string * V)
    (l : list (N * (string * V))) :
  JsObject.insert_index n p l ≡ₚ (n, p) :: l.
Proof.
  induction l as [|[m q] l IH]; csimpl; [done|].
  destruct (n <=? m)%N; [done|]. rewrite IH. apply Permutation_swap.
Qed.

Lemma index_entries_Permutation o :
  (JsObject.index_entries o).*2 ≡ₚ filter (λ p, ¬ (JsObject.array_index p.1 = None)) o.
Proof.
  induction o as [|[k v] o IH]; csimpl; [done|].
  destruct (JsObject.array_index k) as [n|] eqn:E.
  - rewrite insert_index_Permutation. csimpl.
    rewrite filter_cons_True by (simpl; congruence). by rewrite IH.
  - rewrite filter_cons_False by (simpl; intros H; by apply H). done.
Qed.

(** [for ... in] visits every property exactly once. *)
Lemma for_in_Permutation o : JsObject.for_in o ≡ₚ o.
Proof.
  unfold JsObject.for_in, JsObject.named_entries.
  rewrite index_entries_Permutation.
  rewrite (comm (++)). apply filter_app_complement.
Qed.

End JsObjectOrder.

Lemma ranked_candidate_inv (run : Run) :
  ranked_candidate run = true →
  ∃ userId q,
    run_player_id run = Some userId ∧ timeSeconds run = Some q ∧
    Qeq_bool q 0 = false.
Proof.
  unfold ranked_candidate. intros [Ht Hp]%andb_true_iff.
  destruct (run_player_id run) as [userId|]; [|done].
  destruct (timeSeconds run) as [q|]; [|done].
  exists userId, q. simpl in Ht. apply negb_true_iff in Ht. done.
Qed.

(** A step that returns has appended the run to the array of its player. *)
Lemma add_run_Normal (o o' : JsObject.t (list Run)) (run : Run) :
  add_run o run = Normal o' →
  o' = if negb (ranked_candidate run) then o
       else JsObject.set o (default EmptyString (run_player_id run))
              (default [] (JsObject.get o (default EmptyString (run_player_id run)))
               ++ [run]).
Proof.
  unfold add_run. destruct (negb (ranked_candidate run)); [by intros [= <-]|].
  destruct (JsObject.get o _) as [userRuns|]; simpl; [by intros [= <-]|].
  destruct (inherited _); [done|]. by intros [= <-].
Qed.

Lemma add_run_get (o o' : JsObject.t (list Run)) (run : Run) (userId : string) :
  add_run o run = Normal o' →
  JsObject.get o' userId
  = match runs_of userId [run], JsObject.get o userId with
    | [], found => found
    | mine, found => Some (default [] found ++ mine)
    end.
Proof.
  intros ->%add_run_Normal. unfold runs_of.
  destruct (ranked_candidate run) eqn:Hc; simpl.
  - destruct (ranked_candidate_inv run Hc) as (k & q & Hk & _).
    rewrite Hk. simpl.
    destruct (decide (k = userId)) as [->|Hne].
    + rewrite get_set_eq. by rewrite filter_cons_True.
    + rewrite get_set_ne by done.
      rewrite filter_cons_False; [done|]. intros [_ Heq]. congruence.
  - rewrite filter_cons_False; [done|]. intros [Htrue _]. congruence.
Qed.

Lemma group_loop_get (runs : list Run) (o o' : JsObject.t (list Run))
    (userId : string) :
  group_loop runs o = Normal o' →
  JsObject.get o' userId
  = match runs_of userId runs, JsObject.get o userId with
    | [], found => found
    | mine, found => Some (default [] found ++ mine)
    end.
Proof.
  revert o. induction runs as [|run runs IH]; intros o; simpl.
  - by intros [= <-].
  - destruct (add_run o run) as [o1|] eqn:Hstep; [|done].
    intros Hloop. rewrite (IH _ Hloop), (add_run_get _ _ _ _ Hstep).
    unfold runs_of.
    destruct (decide (ranked_candidate run = true
                      ∧ run_player_id run = Some userId)) as [Hmine|Hnot].
    + rewrite (filter_cons_True _ run runs Hmine).
      rewrite (filter_cons_True _ run [] Hmine). simpl.
      destruct (filter _ runs) as [|r rs]; simpl.
      * done.
      * by rewrite <- app_assoc.
    + rewrite (filter_cons_False _ run runs Hnot).
      rewrite (filter_cons_False _ run [] Hnot). done.
Qed.

Lemma group_runs_get (runs : list Run) (g : JsObject.t (list Run))
    (userId : string) :
  group_runs runs = Normal g →
  JsObject.get g userId
  = match runs_of userId runs with
    | [] => None
    | mine => Some mine
    end.
Proof.
  unfold group_runs. intros Hg. rewrite (group_loop_get _ _ _ _ Hg). simpl.
  by destruct (runs_of userId runs).
Qed.

Lemma add_run_NoDup (o o' : JsObject.t (list Run)) (run : Run) :
  add_run o run = Normal o' → NoDup o.*1 → NoDup o'.*1.
Proof.
  intros ->%add_run_Normal Hnd.
  destruct (negb (ranked_candidate run)); [done|]. by apply set_NoDup.
Qed.

Lemma group_runs_NoDup (runs : list Run) (g : JsObject.t (list Run)) :
  group_runs runs = Normal g → NoDup g.*1.
Proof.
  unfold group_runs.
  assert (H : ∀ o : JsObject.t (list Run),
            group_loop runs o = Normal g → NoDup o.*1 → NoDup g.*1).
  { induction runs as [|run runs IH]; intros o; simpl; [by intros [= <-]|].
    destruct (add_run o run) as [o1|] eqn:Hstep; [|done].
    intros Hloop Hnd. apply (IH _ Hloop). by eapply add_run_NoDup. }
  intros Hg. apply (H _ Hg). constructor.
Qed.

(** The groups are the non-empty partitions of the players. *)
Lemma elem_of_group_runs (runs : list Run) (g : JsObject.t (list Run))
    (userId : string) (mine : list Run) :
  group_runs runs = Normal g →
  (userId, mine) ∈ g ↔ mine = runs_of userId runs ∧ mine ≠ [].
Proof.
  intros Hg.
  rewrite (elem_of_get _ _ _ (group_runs_NoDup _ _ Hg)), (group_runs_get _ _ _ Hg).
  destruct (runs_of userId runs) as [|r rs]; split.
  - done.
  - by intros [-> ?].
  - by intros [= <-].
  - by intros [-> _].
Qed.

(** The grouping throws for a run that can be ranked and whose player id
    names a member of [Object.prototype], and only for such a run. *)
Lemma group_loop_returns (runs : list Run) (o : JsObject.t (list Run)) :
  Forall (λ run, ranked_candidate run = true →
                 inherited (default EmptyString (run_player_id run)) = false)
         runs →
  ∃ o', group_loop runs o = Normal o'.
Proof.
  intros Hall. revert o.
  induction Hall as [|run runs Hrun _ IH]; intros o; simpl; [by eexists|].
  unfold add_run at 1.
  destruct (ranked_candidate run) eqn:Hc; simpl; [|apply IH].
  destruct (JsObject.get o _); [apply IH|].
  rewrite (Hrun eq_refl). apply IH.
Qed.

Lemma add_run_own_keys (o o' : JsObject.t (list Run)) (run : Run) :
  add_run o run = Normal o' →
  (∀ k, inherited k = true → JsObject.get o k = None) →
  ∀ k, inherited k = true → JsObject.get o' k = None.
Proof.
  unfold add_run. destruct (negb (ranked_candidate run)); [by intros [= <-]|].
  destruct (JsObject.get o _) as [userRuns|] eqn:Hget; simpl.
  - intros [= <-] Hown k Hk.
    destruct (decide (default EmptyString (run_player_id run) = k)) as [<-|Hne].
    + rewrite (Hown _ Hk) in Hget. done.
    + rewrite get_set_ne by done. by apply Hown.
  - destruct (inherited _) eqn:Hi; [done|].
    intros [= <-] Hown k Hk.
    destruct (decide (default EmptyString (run_player_id run) = k)) as [<-|Hne].
    + congruence.
    + rewrite get_set_ne by done. by apply Hown.
Qed.

Lemma group_loop_throws (runs : list Run) (o : JsObject.t (list Run)) :
  Exists (λ run, ranked_candidate run = true ∧
                 inherited (default EmptyString (run_player_id run)) = true)
         runs →
  (∀ k, inherited k = true → JsObject.get o k = None) →
  group_loop runs o = Throw TypeError.
Proof.
  intros Hex. revert o.
  induction runs as [|run runs IH]; intros o Hown; [by apply Exists_nil in Hex|].
  simpl. destruct (add_run o run) as [o1|e] eqn:Hstep.
  - apply IH; [|by eapply add_run_own_keys].
    apply Exists_cons in Hex as [[Hc Hi]|Hex]; [|done].
    exfalso. unfold add_run in Hstep. rewrite Hc in Hstep. simpl in Hstep.
    rewrite (Hown _ Hi), Hi in Hstep. done.
  - revert Hstep. unfold add_run.
    destruct (negb (ranked_candidate run)); [done|].
    destruct (JsObject.get o _); [done|].
    destruct (inherited _); [|done]. by intros [= <-].
Qed.

Lemma elem_of_runs_of (userId : string) (runs : list Run) (run : Run) :
  run ∈ runs_of userId runs ↔
  run ∈ runs ∧ ranked_candidate run = true ∧ run_player_id run = Some userId.
Proof. unfold runs_of. rewrite list_elem_of_filter. tauto. Qed.

(** ** The ranker: one entry per player *)

Section EntryFacts.

Variable popts : Options.

Lemma user_entry_Some (runsOfUser : list Run) :
  runsOfUser ≠ [] →
  ∃ fastest slower,
    js_sort by_time runsOfUser = fastest :: slower ∧
    user_entry popts runsOfUser
    = Some {| entry_run := fastest; rank := None;
              obsoleteRuns :=
                if includeRunHistory popts then Some slower else None |}.
Proof.
  intros Hne. unfold user_entry.
  destruct (js_sort by_time runsOfUser) as [|fastest slower] eqn:Hsort.
  - apply (f_equal length) in Hsort. rewrite js_sort_length in Hsort.
    by destruct runsOfUser.
  - exists fastest, slower. split; [done|]. do 2 f_equal.
    destruct (includeRunHistory popts); [|done].
    destruct slower; done.
Qed.

Lemma elem_of_collect_entries (runs : list Run) (g : JsObject.t (list Run))
    (e : Entry) :
  group_runs runs = Normal g →
  e ∈ collect_entries popts g ↔
  ∃ userId, runs_of userId runs ≠ []
            ∧ user_entry popts (runs_of userId runs) = Some e.
Proof.
  intros Hg. unfold collect_entries.
  rewrite for_in_Permutation, list_elem_of_omap.
  split.
  - intros ([userId mine] & Hin & He).
    apply (elem_of_group_runs _ _ _ _ Hg) in Hin as [-> Hne]. eauto.
  - intros (userId & Hne & He). exists (userId, runs_of userId runs).
    split; [|done]. by apply (elem_of_group_runs _ _ _ _ Hg).
Qed.

Lemma collect_entries_player_ids (runs : list Run) (g : JsObject.t (list Run)) :
  group_runs runs = Normal g →
  (run_player_id ∘ entry_run) <$> collect_entries popts g ≡ₚ Some <$> g.*1.
Proof.
  intros Hg. unfold collect_entries. rewrite for_in_Permutation.
  assert (H : ∀ o : JsObject.t (list Run),
            (∀ k rs, (k, rs) ∈ o → rs = runs_of k runs ∧ rs ≠ []) →
            (run_player_id ∘ entry_run) <$> omap (λ p, user_entry popts p.2) o
            = Some <$> o.*1).
  { induction o as [|[k rs] o IH]; intros Hall; csimpl; [done|].
    destruct (Hall k rs) as [-> Hne]; [by left|].
    destruct (user_entry_Some _ Hne) as (fastest & slower & Hsort & ->).
    csimpl. rewrite IH by (intros; apply Hall; by right).
    f_equal.
    assert (Hin : fastest ∈ runs_of k runs).
    { rewrite <- (js_sort_Permutation by_time), Hsort. by left. }
    by apply elem_of_runs_of in Hin as (_ & _ & ->). }
  rewrite H; [done|]. intros k rs. apply (elem_of_group_runs _ _ _ _ Hg).
Qed.

Lemma collect_entries_NoDup (runs : list Run) (g : JsObject.t (list Run)) :
  group_runs runs = Normal g →
  NoDup ((run_player_id ∘ entry_run) <$> collect_entries popts g).
Proof.
  intros Hg. rewrite (collect_entries_player_ids _ _ Hg).
  apply (NoDup_fmap_2 Some), (group_runs_NoDup _ _ Hg).
Qed.

End EntryFacts.

(** ** The ranker: the ranked entries of a leaderboard *)

Lemma Sorted_same_keys {A} (key : A → option Q) (l1 l2 : list A) :
  key <$> l1 = key <$> l2 →
  Sorted (ascending key) l1 → Sorted (ascending key) l2.
Proof.
  intros Hkeys Hsorted. revert l2 Hkeys.
  induction Hsorted as [|x l1 Hsorted IH Hhd]; intros [|y l2] Hkeys;
    try discriminate; [constructor|].
  injection Hkeys as Hxy Hkeys. constructor; [by apply IH|].
  destruct l2 as [|z l2]; [constructor|].
  destruct l1 as [|w l1]; [done|]. injection Hkeys as Hwz _.
  apply HdRel_inv in Hhd. constructor.
  unfold ascending in *. by rewrite <- Hxy, <- Hwz.
Qed.

(** The ranker returns unless the grouping throws, and the only error is
    the [TypeError] of line 290. *)
Lemma ranked_runs_Normal (popts : Options) (runs : list Run) (es : list Entry) :
  ranked_runs popts runs = Normal es ↔
  ∃ g, group_runs runs = Normal g ∧
       es = rank_from None 0 (js_sort entry_by_time (collect_entries popts g)).
Proof.
  unfold ranked_runs. destruct (group_runs runs) as [g|e]; split.
  - intros [= <-]. exists g. split; [done|]. apply assign_ranks_rank_from.
  - intros (g' & [= <-] & ->). by rewrite assign_ranks_rank_from.
  - done.
  - by intros (g' & ? & _).
Qed.

Lemma ranked_runs_returns (popts : Options) (runs : list Run) :
  Forall (λ run, ranked_candidate run = true →
                 inherited (default EmptyString (run_player_id run)) = false)
         runs →
  ∃ es, ranked_runs popts runs = Normal es.
Proof.
  intros Hall. unfold ranked_runs, group_runs.
  destruct (group_loop_returns runs [] Hall) as [g ->]. by eexists.
Qed.

Lemma ranked_runs_throws (popts : Options) (runs : list Run) :
  Exists (λ run, ranked_candidate run = true ∧
                 inherited (default EmptyString (run_player_id run)) = true)
         runs →
  ranked_runs popts runs = Throw TypeError.
Proof.
  intros Hex. unfold ranked_runs, group_runs.
  by rewrite (group_loop_throws runs [] Hex).
Qed.

Section RankerFacts.

Variable popts : Options.
Variable runs : list Run.
Variable es : list Entry.
Hypothesis ranked : ranked_runs popts runs = Normal es.

(** Ranking changes neither the run of an entry nor its history. *)
Lemma ranked_runs_lookup (i : nat) (e : Entry) :
  es !! i = Some e →
  ∃ g e0,
    group_runs runs = Normal g ∧
    js_sort entry_by_time (collect_entries popts g) !! i = Some e0 ∧
    entry_run e = entry_run e0 ∧ obsoleteRuns e = obsoleteRuns e0.
Proof.
  destruct (proj1 (ranked_runs_Normal _ _ _) ranked) as (g & Hg & ->).
  intros He. set (lbEntries := collect_entries popts g) in *.
  pose proof (f_equal (λ l, l !! i)
                (rank_from_runs None 0 (js_sort entry_by_time lbEntries))) as Hr.
  pose proof (f_equal (λ l, l !! i)
                (rank_from_obsoleteRuns None 0 (js_sort entry_by_time lbEntries)))
    as Ho.
  cbv beta in Hr, Ho.
  rewrite !list_lookup_fmap, He in Hr. rewrite !list_lookup_fmap, He in Ho.
  destruct (js_sort entry_by_time lbEntries !! i) as [e0|] eqn:He0;
    [|by simpl in Hr].
  simpl in Hr, Ho. exists g, e0. split; [done|]. split; [done|].
  split; congruence.
Qed.

(** Every ranked entry is the entry of one player: the head of the
    player's sorted partition, with the tail as its history when history
    is retained. *)
Lemma ranked_runs_elem (e : Entry) :
  e ∈ es →
  ∃ userId fastest slower,
    runs_of userId runs ≠ [] ∧
    js_sort by_time (runs_of userId runs) = fastest :: slower ∧
    entry_run e = fastest ∧
    obsoleteRuns e = if includeRunHistory popts then Some slower else None.
Proof.
  intros [i Hi]%list_elem_of_lookup_1.
  destruct (ranked_runs_lookup i e Hi) as (g & e0 & Hg & He0 & Hrun & Hobs).
  apply list_elem_of_lookup_2 in He0.
  rewrite js_sort_Permutation in He0.
  apply (elem_of_collect_entries _ _ _ _ Hg) in He0 as (userId & Hne & He0).
  destruct (user_entry_Some popts _ Hne) as (fastest & slower & Hsort & Hentry).
  rewrite Hentry in He0. injection He0 as <-.
  exists userId, fastest, slower. by rewrite Hrun, Hobs.
Qed.

Lemma lbEntries_have_time (g : JsObject.t (list Run)) :
  group_runs runs = Normal g →
  Forall (λ e, is_Some (timeSeconds (entry_run e))) (collect_entries popts g).
Proof.
  intros Hg. apply Forall_forall. intros e He.
  apply (elem_of_collect_entries _ _ _ _ Hg) in He as (userId & Hne & He).
  destruct (user_entry_Some popts _ Hne) as (fastest & slower & Hsort & Hentry).
  rewrite Hentry in He. injection He as <-. simpl.
  assert (Hin : fastest ∈ runs_of userId runs).
  { rewrite <- (js_sort_Permutation by_time), Hsort. by left. }
  apply elem_of_runs_of in Hin as (_ & Hc & _).
  destruct (ranked_candidate_inv _ Hc) as (_ & q & _ & -> & _). by eexists.
Qed.

(** The ranked entries are in ascending order of [timeSeconds]. *)
Lemma ranked_runs_Sorted :
  Sorted (ascending (timeSeconds ∘ entry_run)) es.
Proof.
  destruct (proj1 (ranked_runs_Normal _ _ _) ranked) as (g & Hg & ->).
  apply (Sorted_same_keys _ (js_sort entry_by_time (collect_entries popts g))).
  - rewrite !(list_fmap_compose entry_run timeSeconds).
    by rewrite rank_from_runs.
  - apply (js_sort_Sorted entry_by_time (timeSeconds ∘ entry_run)); [done|].
    by apply lbEntries_have_time.
Qed.

Lemma ranked_runs_NoDup :
  NoDup ((run_player_id ∘ entry_run) <$> es).
Proof.
  destruct (proj1 (ranked_runs_Normal _ _ _) ranked) as (g & Hg & ->).
  rewrite (list_fmap_compose entry_run run_player_id).
  rewrite rank_from_runs, <- list_fmap_compose, js_sort_Permutation.
  by apply (collect_entries_NoDup _ _ _ Hg).
Qed.

End RankerFacts.

Lemma filter_none {A} (P : A → Prop) `{∀ a, Decision (P a)} (l : list A) :
  (∀ x, x ∈ l → ¬ P x) → filter P l = [].
Proof.
  induction l as [|a l IH]; intros Hall; [done|].
  rewrite filter_cons_False by (apply Hall; by left).
  apply IH. intros x Hx. apply Hall. by right.
Qed.

Lemma filter_unique {A B} `{EqDecision B} (f : A → B) (l : list A) (e : A) :
  NoDup (f <$> l) → e ∈ l → filter (λ a, f a = f e) l = [e].
Proof.
  induction l as [|a l IH]; csimpl; intros Hnd Hin.
  - by apply elem_of_nil in Hin.
  - apply NoDup_cons in Hnd as [Ha Hnd].
    assert (Hrest : ∀ x, x ∈ l → f x ≠ f a).
    { intros x Hx Heq. apply Ha. rewrite <- Heq.
      by apply list_elem_of_fmap_2. }
    apply elem_of_cons in Hin as [->|Hin].
    + rewrite filter_cons_True by done. f_equal. by apply filter_none.
    + rewrite filter_cons_False by (intros Heq; by apply (Hrest e)).
      by apply IH.
Qed.

(** C3. A run without a truthy [timeSeconds], or without a player that has
    a truthy id, appears nowhere in the ranked entries of a leaderboard:
    it is the run of no entry and is in the [obsoleteRuns] of no entry,
    with or without run history. *)
Theorem unranked_runs_never_appear :
  ∀ popts runs run,
    (truthy_num (timeSeconds run) = false
     ∨ player run = None
     ∨ ∃ p, player run = Some p ∧ truthy_str (player_id p) = false) →
    ∀ es e, ranked_runs popts runs = Normal es → e ∈ es →
            entry_run e ≠ run ∧
            ∀ history, obsoleteRuns e = Some history → run ∉ history.
Proof.
  intros popts runs run Hlacks es e Hes He.
  assert (Hno : ranked_candidate run = false).
  { unfold ranked_candidate, run_player_id.
    destruct Hlacks as [->|[->|(p & -> & Hp)]]; [done| |].
    - apply andb_false_r.
    - simpl. rewrite Hp. apply andb_false_r. }
  destruct (ranked_runs_elem popts runs es Hes e He)
    as (userId & fastest & slower & Hne & Hsort & Hrun & Hobs).
  assert (Hall : ∀ r, r ∈ fastest :: slower → ranked_candidate r = true).
  { intros r Hr. rewrite <- Hsort, js_sort_Permutation in Hr.
    by apply elem_of_runs_of in Hr as (_ & ? & _). }
  split.
  - intros Heq. rewrite <- Heq, Hrun in Hno.
    rewrite Hall in Hno; [done|by left].
  - intros history Hhistory Hin. rewrite Hobs in Hhistory.
    destruct (includeRunHistory popts); [|done].
    injection Hhistory as <-.
    rewrite Hall in Hno; [done|by right].
Qed.

(** C3 at a leaderboard with two runs of one player and a run without a
    player, with run history. *)
Lemma unranked_runs_never_appear_witness :
  entry_run {| entry_run := Samples.run_of "u1" 10%Q; rank := Some 1%nat;
               obsoleteRuns := Some [Samples.run_of "u1" 12%Q] |}
  ≠ Samples.run_with_values ∅ ∧
  ∀ history,
    obsoleteRuns {| entry_run := Samples.run_of "u1" 10%Q; rank := Some 1%nat;
                    obsoleteRuns := Some [Samples.run_of "u1" 12%Q] |}
    = Some history →
    Samples.run_with_values ∅ ∉ history.
Proof.
  eapply (unranked_runs_never_appear Samples.with_history
            [Samples.run_of "u1" 12%Q; Samples.run_with_values ∅;
             Samples.run_of "u1" 10%Q]
            (Samples.run_with_values ∅)).
  - right. left. reflexivity.
  - vm_compute. reflexivity.
  - constructor.
Defined.

Section OneEntryPerPlayer.

Variable popts : Options.
Variable runs : list Run.
Variable es : list Entry.
Hypothesis ranked : ranked_runs popts runs = Normal es.

(** A player with at least one ranked run has exactly one entry, which
    holds the player's fastest run and, with history, the other runs in
    ascending order. *)
Lemma player_entry (userId : string) :
  runs_of userId runs ≠ [] →
  ∃ e slower,
    filter (λ e', run_player_id (entry_run e') = Some userId) es = [e] ∧
    entry_run e :: slower ≡ₚ runs_of userId runs ∧
    Forall (λ run, time_le (timeSeconds (entry_run e)) (timeSeconds run))
           (runs_of userId runs) ∧
    Sorted (ascending timeSeconds) slower ∧
    (length (runs_of userId runs) = 1%nat → slower = []) ∧
    obsoleteRuns e = if includeRunHistory popts then Some slower else None.
Proof.
  intros Hne.
  destruct (proj1 (ranked_runs_Normal _ _ _) ranked) as (g & Hg & Hes).
  destruct (user_entry_Some popts _ Hne) as (fastest & slower & Hsort & Hentry).
  assert (Hperm : fastest :: slower ≡ₚ runs_of userId runs).
  { by rewrite <- Hsort, js_sort_Permutation. }
  assert (Htimes : Forall (λ run, is_Some (timeSeconds run)) (runs_of userId runs)).
  { apply Forall_forall. intros r (_ & Hc & _)%elem_of_runs_of.
    destruct (ranked_candidate_inv _ Hc) as (_ & q & _ & -> & _). by eexists. }
  pose proof (js_sort_StronglySorted by_time timeSeconds (λ _ _, eq_refl)
                _ Htimes) as Hsorted.
  rewrite Hsort in Hsorted. apply StronglySorted_inv in Hsorted as [Hslower Hmin].
  assert (Hin : {| entry_run := fastest; rank := None;
                   obsoleteRuns := if includeRunHistory popts
                                   then Some slower else None |}
                ∈ js_sort entry_by_time (collect_entries popts g)).
  { rewrite js_sort_Permutation. apply (elem_of_collect_entries _ _ _ _ Hg).
    eauto. }
  apply list_elem_of_lookup_1 in Hin as [i Hi].
  destruct (es !! i) as [e|] eqn:He.
  2:{ apply lookup_ge_None in He. apply lookup_lt_Some in Hi.
      rewrite Hes in He.
      pose proof (f_equal length (rank_from_runs None 0
        (js_sort entry_by_time (collect_entries popts g)))) as Hl.
      rewrite !length_fmap in Hl. lia. }
  destruct (ranked_runs_lookup popts runs es ranked i e He)
    as (g' & e0 & Hg' & He0 & Hrun & Hobs).
  rewrite Hg in Hg'. injection Hg' as <-.
  rewrite Hi in He0. injection He0 as <-. simpl in Hrun, Hobs.
  exists e, slower. rewrite Hrun.
  assert (Hid : run_player_id fastest = Some userId).
  { assert (Hf : fastest ∈ runs_of userId runs) by (rewrite <- Hperm; by left).
    by apply elem_of_runs_of in Hf as (_ & _ & ?). }
  split.
  { rewrite <- Hid, <- Hrun.
    apply (filter_unique (run_player_id ∘ entry_run)).
    - by apply (ranked_runs_NoDup popts runs).
    - by apply list_elem_of_lookup_2 in He. }
  split; [done|]. split.
  { rewrite <- Hperm. constructor.
    - destruct (ranked_candidate_inv fastest) as (_ & q & _ & Hq & _).
      + assert (Hf : fastest ∈ runs_of userId runs) by (rewrite <- Hperm; by left).
        by apply elem_of_runs_of in Hf as (_ & ? & _).
      + rewrite Hq. simpl. lra.
    - done. }
  split; [by apply StronglySorted_Sorted|]. split; [|done].
  intros Hlen. rewrite <- Hperm in Hlen. simpl in Hlen.
  destruct slower; [done|discriminate].
Qed.

End OneEntryPerPlayer.

(** C8. The ranker is meant to make, for every player with a run that can
    be ranked, one entry with the player's fastest run.  It throws instead
    when a run that can be ranked has a player id that names a member of
    [Object.prototype] (a guest called constructor): [runsByUserId] is a
    plain object, line 289 takes the inherited member for the player's
    array, and line 290 calls a [push] that does not exist (second part,
    and the third at one run of such a player).  The ranker returns for
    every other leaderboard, and whenever it returns the claim holds
    (first part): a player with at least one ranked run has exactly one
    entry; its run is one of the player's runs and no run of the player
    has a smaller [timeSeconds]; with run history its [obsoleteRuns] are
    the player's remaining runs in ascending order of [timeSeconds], the
    empty list when the player has one run; without run history the entry
    has no [obsoleteRuns]. *)
Theorem fastest_run_represents_player :
  (∀ popts runs,
     Forall (λ run, ranked_candidate run = true →
                    inherited (default EmptyString (run_player_id run)) = false)
            runs →
     ∃ es,
       ranked_runs popts runs = Normal es ∧
       ∀ userId,
         runs_of userId runs ≠ [] →
         ∃ e slower,
           filter (λ e', run_player_id (entry_run e') = Some userId) es = [e] ∧
           entry_run e :: slower ≡ₚ runs_of userId runs ∧
           Forall (λ run, time_le (timeSeconds (entry_run e)) (timeSeconds run))
                  (runs_of userId runs) ∧
           Sorted (ascending timeSeconds) slower ∧
           (length (runs_of userId runs) = 1%nat → slower = []) ∧
           obsoleteRuns e
           = if includeRunHistory popts then Some slower else None) ∧
  (∀ popts runs run,
     run ∈ runs →
     ranked_candidate run = true →
     inherited (default EmptyString (run_player_id run)) = true →
     ranked_runs popts runs = Throw TypeError) ∧
  (∀ popts,
     ranked_candidate (Samples.run_of "constructor" 10%Q) = true ∧
     ranked_runs popts [Samples.run_of "constructor" 10%Q] = Throw TypeError).
Proof.
  split; [|split].
  - intros popts runs Hsafe.
    destruct (ranked_runs_returns popts runs Hsafe) as [es Hes].
    exists es. split; [done|]. intros userId. by apply (player_entry popts runs).
  - intros popts runs run Hin Hc Hi. apply ranked_runs_throws.
    apply Exists_exists. by exists run.
  - intros popts. split; [reflexivity|].
    apply ranked_runs_throws. constructor. split; reflexivity.
Qed.

(** The first part of C8 at a leaderboard with three runs of one player
    and one run of another, with run history. *)
Lemma fastest_run_represents_player_witness :
  ∃ es e slower,
    ranked_runs Samples.with_history
      [Samples.run_of "u1" 15%Q; Samples.run_of "u1" 10%Q;
       Samples.run_of "u2" 11%Q; Samples.run_of "u1" 12%Q] = Normal es ∧
    filter (λ e', run_player_id (entry_run e') = Some "u1") es = [e] ∧
    entry_run e :: slower
    ≡ₚ runs_of "u1" [Samples.run_of "u1" 15%Q; Samples.run_of "u1" 10%Q;
                     Samples.run_of "u2" 11%Q; Samples.run_of "u1" 12%Q] ∧
    Forall (λ run, time_le (timeSeconds (entry_run e)) (timeSeconds run))
           (runs_of "u1" [Samples.run_of "u1" 15%Q; Samples.run_of "u1" 10%Q;
                          Samples.run_of "u2" 11%Q; Samples.run_of "u1" 12%Q]) ∧
    Sorted (ascending timeSeconds) slower ∧
    (length (runs_of "u1" [Samples.run_of "u1" 15%Q; Samples.run_of "u1" 10%Q;
                           Samples.run_of "u2" 11%Q; Samples.run_of "u1" 12%Q])
     = 1%nat → slower = []) ∧
    obsoleteRuns e = Some slower.
Proof.
  destruct (proj1 fastest_run_represents_player Samples.with_history
              [Samples.run_of "u1" 15%Q; Samples.run_of "u1" 10%Q;
               Samples.run_of "u2" 11%Q; Samples.run_of "u1" 12%Q])
    as (es & Hes & Hall).
  - repeat constructor.
  - destruct (Hall "u1") as (e & slower & H); [vm_compute; discriminate|].
    exists es, e, slower. split; [exact Hes|exact H].
Defined.

Lemma formatTime_floor (t : Q) : formatTime (inject_Z (Qfloor t)) = formatTime t.
Proof. unfold formatTime. by rewrite Qfloor_Z. Qed.

(** *** Ranks count the faster entries *)

Lemma StronglySorted_lookup_lt {A} (R : relation A) (l : list A)
    (i j : nat) (a b : A) :
  StronglySorted R l → (i < j)%nat → l !! i = Some a → l !! j = Some b → R a b.
Proof.
  intros Hsorted. revert i j.
  induction Hsorted as [|x l Hsorted IH Hall]; intros i j Hij Ha Hb; [done|].
  destruct j as [|j]; [lia|]. simpl in Hb.
  destruct i as [|i]; simpl in Ha.
  - injection Ha as <-. rewrite Forall_forall in Hall.
    apply Hall. by apply list_elem_of_lookup_2 in Hb.
  - apply (IH i j); [lia|done..].
Qed.

Lemma filter_all {A} (P : A → Prop) `{∀ a, Decision (P a)} (l : list A) :
  (∀ x, x ∈ l → P x) → filter P l = l.
Proof.
  induction l as [|a l IH]; intros Hall; [done|].
  rewrite filter_cons_True by (apply Hall; by left).
  f_equal. apply IH. intros x Hx. apply Hall. by right.
Qed.

(** A filter that lets more through, and one element more for sure, is
    strictly longer. *)
Lemma filter_length_lt {A} (P1 P2 : A → Prop) `{∀ a, Decision (P1 a)}
    `{∀ a, Decision (P2 a)} (l : list A) (x : A) :
  (∀ y, y ∈ l → P1 y → P2 y) → x ∈ l → P2 x → ¬ P1 x →
  (length (filter P1 l) < length (filter P2 l))%nat.
Proof.
  intros Himp Hx H2 H1.
  assert (Hle : ∀ l', (∀ y, y ∈ l' → P1 y → P2 y) →
                      (length (filter P1 l') ≤ length (filter P2 l'))%nat).
  { induction l' as [|a l' IH]; intros Hsub; [done|].
    assert (Hrest : (length (filter P1 l') ≤ length (filter P2 l'))%nat).
    { apply IH. intros y Hy. apply Hsub. by right. }
    destruct (decide (P1 a)) as [Ha|Ha].
    - rewrite (filter_cons_True P1) by done.
      rewrite (filter_cons_True P2) by (apply Hsub; [by left|done]).
      simpl. lia.
    - rewrite (filter_cons_False P1) by done.
      destruct (decide (P2 a)).
      + rewrite (filter_cons_True P2) by done. simpl. lia.
      + by rewrite (filter_cons_False P2). }
  induction l as [|a l IH]; [by apply elem_of_nil in Hx|].
  apply elem_of_cons in Hx as [<-|Hx].
  - rewrite (filter_cons_False P1) by done.
    rewrite (filter_cons_True P2) by done. simpl.
    assert ((length (filter P1 l) ≤ length (filter P2 l))%nat); [|lia].
    apply Hle. intros y Hy. apply Himp. by right.
  - assert (Hrest : (length (filter P1 l) < length (filter P2 l))%nat).
    { apply IH; [|done]. intros y Hy. apply Himp. by right. }
    destruct (decide (P1 a)) as [Ha|Ha].
    + rewrite (filter_cons_True P1) by done.
      rewrite (filter_cons_True P2) by (apply Himp; [by left|done]).
      simpl. lia.
    + rewrite (filter_cons_False P1) by done.
      destruct (decide (P2 a)).
      * rewrite (filter_cons_True P2) by done. simpl. lia.
      * by rewrite (filter_cons_False P2).
Qed.

Section CompetitionRanking.

Variable popts : Options.
Variable runs : list Run.
Variable es : list Entry.
Hypothesis ranked : ranked_runs popts runs = Normal es.

Lemma ranked_runs_rank_from :
  ∃ lbEntries, es = rank_from None 0 lbEntries.
Proof.
  destruct (proj1 (ranked_runs_Normal _ _ _) ranked) as (g & _ & ->).
  by eexists.
Qed.

Lemma ranked_runs_StronglySorted :
  StronglySorted (ascending (timeSeconds ∘ entry_run)) es.
Proof.
  apply Sorted_StronglySorted; [|by apply (ranked_runs_Sorted popts runs)].
  intros a b c. apply ascending_trans.
Qed.

Lemma ranked_runs_have_time (e : Entry) :
  e ∈ es → ∃ t, timeSeconds (entry_run e) = Some t.
Proof.
  intros He.
  apply (ranked_runs_elem popts runs es ranked) in He
    as (userId & fastest & slower & Hne & Hsort & -> & _).
  assert (Hin : fastest ∈ runs_of userId runs).
  { rewrite <- (js_sort_Permutation by_time), Hsort. by left. }
  apply elem_of_runs_of in Hin as (_ & Hc & _).
  destruct (ranked_candidate_inv _ Hc) as (_ & q & _ & -> & _). by eexists.
Qed.

(** Two positions of the ranked list, in their order, hold times in that
    order. *)
Lemma ranked_runs_le (i j : nat) (a b : Entry) :
  (i ≤ j)%nat →
  es !! i = Some a →
  es !! j = Some b →
  ∃ ta tb, timeSeconds (entry_run a) = Some ta
           ∧ timeSeconds (entry_run b) = Some tb ∧ (ta <= tb)%Q.
Proof.
  intros Hij Ha Hb.
  destruct (ranked_runs_have_time a) as [ta Hta];
    [by apply list_elem_of_lookup_2 in Ha|].
  destruct (decide (i = j)) as [->|Hne].
  - rewrite Ha in Hb. injection Hb as <-. exists ta, ta. repeat split; try done.
    lra.
  - pose proof (StronglySorted_lookup_lt _ _ i j a b
                  ranked_runs_StronglySorted ltac:(lia) Ha Hb) as Hle.
    unfold ascending, time_le in Hle. simpl in Hle. rewrite Hta in Hle.
    destruct (timeSeconds (entry_run b)) as [tb|]; [|done]. eauto.
Qed.

(** Standard competition ranking: the rank of an entry is one more than
    the number of entries with a strictly smaller [timeSeconds]. *)
Lemma rank_counts_faster_entries (i : nat) (e : Entry) :
  es !! i = Some e →
  rank e = Some (1 + length (faster_than e es))%nat.
Proof.
  destruct ranked_runs_rank_from as [lbEntries Hfrom].
  revert e. induction i as [|i IH]; intros e He.
  - assert (Hrank : rank e = Some 1%nat).
    { rewrite Hfrom in He. by apply rank_from_first in He. }
    rewrite Hrank. unfold faster_than. rewrite filter_none; [done|].
    intros x [k Hk]%list_elem_of_lookup_1 Hlt.
    destruct (ranked_runs_le 0 k e x ltac:(lia) He Hk)
      as (te & tx & Hte & Htx & Hle).
    unfold entry_by_time, by_time in Hlt.
    apply positive_num_sub in Hlt as (te' & tx' & Hte' & Htx' & Hlt).
    rewrite Hte in Hte'. rewrite Htx in Htx'.
    injection Hte' as <-. injection Htx' as <-. lra.
  - destruct (lookup_lt_is_Some_2 es i) as [p Hp].
    { apply lookup_lt_Some in He. lia. }
    specialize (IH p Hp).
    destruct (ranked_runs_le i (S i) p e ltac:(lia) Hp He)
      as (tp & te & Htp & Hte & Hle).
    assert (Hrank := Hp). assert (Hrank' := He).
    rewrite Hfrom in Hrank, Hrank'.
    pose proof (rank_from_adjacent _ _ _ _ _ _ Hrank Hrank') as Hadj.
    clear Hrank Hrank'.
    rewrite Htp, Hte in Hadj. simpl in Hadj.
    destruct (Qeq_bool te tp) eqn:Heq.
    + apply Qeq_bool_iff in Heq. rewrite Hadj, IH. do 3 f_equal.
      unfold faster_than. apply list_filter_iff. intros x.
      unfold entry_by_time, by_time. rewrite !positive_num_sub.
      rewrite Htp, Hte. split.
      * intros (a & b & [= <-] & Hb & Hlt). exists te, b.
        repeat split; try done. lra.
      * intros (a & b & [= <-] & Hb & Hlt). exists tp, b.
        repeat split; try done. lra.
    + assert (Hlt : (tp < te)%Q).
      { apply Qeq_bool_neq in Heq. lra. }
      rewrite Hadj. f_equal.
      assert (Hcount : length (faster_than e es) = S i).
      { unfold faster_than.
        rewrite <- (take_drop (S i) es) at 1.
        rewrite filter_app.
        rewrite filter_all, filter_none.
        - rewrite app_nil_r, length_take_le; [done|].
          apply lookup_lt_Some in He. lia.
        - intros x [k Hk]%list_elem_of_lookup_1 Hx.
          rewrite lookup_drop in Hk.
          destruct (ranked_runs_le (S i) (S i + k) e x ltac:(lia) He Hk)
            as (te' & tx & Hte' & Htx & Hle').
          unfold entry_by_time, by_time in Hx.
          apply positive_num_sub in Hx as (a & b & Ha & Hb & Hab).
          rewrite Hte' in Ha. rewrite Htx in Hb.
          injection Ha as <-. injection Hb as <-. lra.
        - intros x [k Hk]%list_elem_of_lookup_1.
          apply lookup_take_Some in Hk as [Hk Hki].
          destruct (ranked_runs_le k i x p ltac:(lia) Hk Hp)
            as (tx & tp' & Htx & Htp' & Hle').
          rewrite Htp in Htp'. injection Htp' as <-.
          unfold entry_by_time, by_time. apply positive_num_sub.
          exists te, tx. repeat split; try done. lra. }
      rewrite Hcount. lia.
Qed.

(** An entry with a strictly smaller [timeSeconds] stands before the other
    and has a strictly smaller rank; entries with equal [timeSeconds] have
    the same rank. *)
Lemma ranks_follow_times (i j : nat) (a b : Entry) (ta tb : Q) :
  es !! i = Some a → es !! j = Some b →
  timeSeconds (entry_run a) = Some ta →
  timeSeconds (entry_run b) = Some tb →
  ((ta < tb)%Q →
   (i < j)%nat ∧
   ∃ ra rb, rank a = Some ra ∧ rank b = Some rb ∧ (ra < rb)%nat) ∧
  ((ta == tb)%Q → rank a = rank b).
Proof.
  intros Ha Hb Hta Htb.
  rewrite (rank_counts_faster_entries i a Ha).
  rewrite (rank_counts_faster_entries j b Hb).
  split.
  - intros Hlt. split.
    + destruct (decide (i < j)%nat) as [|Hge]; [done|].
      destruct (ranked_runs_le j i b a ltac:(lia) Hb Ha)
        as (tb' & ta' & Htb' & Hta' & Hle).
      rewrite Hta in Hta'. rewrite Htb in Htb'.
      injection Hta' as <-. injection Htb' as <-. lra.
    + eexists _, _. split; [done|]. split; [done|].
      apply -> Nat.succ_lt_mono. unfold faster_than.
      apply (filter_length_lt _ _ es a).
      * intros y _. unfold entry_by_time, by_time.
        rewrite !positive_num_sub, Hta, Htb.
        intros (x & ty & [= <-] & Hy & Hlt'). exists tb, ty.
        repeat split; try done. lra.
      * by apply list_elem_of_lookup_2 in Ha.
      * unfold entry_by_time, by_time. apply positive_num_sub.
        exists tb, ta. done.
      * unfold entry_by_time, by_time. rewrite positive_num_sub, Hta.
        intros (x & y & [= <-] & [= <-] & Hxx). lra.
  - intros Heq. do 3 f_equal. unfold faster_than.
    apply list_filter_iff. intros x.
    unfold entry_by_time, by_time. rewrite !positive_num_sub, Hta, Htb.
    split.
    + intros (x' & y & [= <-] & Hy & Hlt). exists tb, y.
      repeat split; try done. lra.
    + intros (x' & y & [= <-] & Hy & Hlt). exists ta, y.
      repeat split; try done. lra.
Qed.

End CompetitionRanking.

(** C10. For every retained run [timeSeconds] is the primary time of the
    response, unchanged, while the [time] text is computed from its floor
    (first part).  The ranker compares [timeSeconds] itself: in the ranked
    entries of every leaderboard an entry with a strictly smaller
    [timeSeconds] stands before the other and has a strictly smaller rank,
    also when the two floors are equal, and only entries with equal
    [timeSeconds] share a rank (second part).  Two runs of 10.7 and 10.2
    seconds, in this order, are retained with the same [time] text; the
    ranker puts the run of 10.2 seconds first, with rank 1, and gives rank
    2 to the other (third part). *)
Theorem ranking_uses_unfloored_time :
  (∀ api popts rr c c' r,
     processRun api popts rr c = Normal (Some r, c') →
     ∃ resp t,
       rr = Some resp ∧ read_primary_t resp = Some t ∧
       timeSeconds r = Some t ∧
       run_time r = Some (formatTime (inject_Z (Qfloor t)))) ∧
  (∀ popts runs es i j a b ta tb,
     ranked_runs popts runs = Normal es →
     es !! i = Some a → es !! j = Some b →
     timeSeconds (entry_run a) = Some ta →
     timeSeconds (entry_run b) = Some tb →
     ((ta < tb)%Q →
      (i < j)%nat ∧
      ∃ ra rb, rank a = Some ra ∧ rank b = Some rb ∧ (ra < rb)%nat) ∧
     ((ta == tb)%Q → rank a = rank b)) ∧
  (∃ r1 r2,
     returned (processRun Samples.upstream Samples.defaults
                 (Some (Samples.response "u1" (Some (107 # 10)%Q))))
              Samples.no_cache = Normal (Some r1) ∧
     returned (processRun Samples.upstream Samples.defaults
                 (Some (Samples.response "u2" (Some (51 # 5)%Q))))
              Samples.no_cache = Normal (Some r2) ∧
     fmap (M := Completion)
       (fmap (M := list)
          (λ e, (run_time (entry_run e), timeSeconds (entry_run e), rank e)))
       (ranked_runs Samples.defaults [r1; r2])
     = Normal [(Some "00:00:10", Some (51 # 5)%Q, Some 1%nat);
               (Some "00:00:10", Some (107 # 10)%Q, Some 2%nat)]).
Proof.
  split; [|split].
  - intros api popts rr c c' r Hrun.
    destruct (processRun_retained _ _ _ _ _ _ Hrun)
      as (resp & t & -> & Ht & _ & Hts & Htime & _).
    exists resp, t. by rewrite formatTime_floor.
  - intros popts runs es i j a b ta tb Hes.
    by apply (ranks_follow_times popts runs es Hes).
  - exists (Samples.run_of "u1" (107 # 10)%Q), (Samples.run_of "u2" (51 # 5)%Q).
    repeat split; vm_compute; reflexivity.
Qed.

(** The second part of C10 at the two runs of 10.7 and 10.2 seconds, in
    this order. *)
Lemma ranking_uses_unfloored_time_witness :
  ((51 # 5 < 107 # 10)%Q →
   (0 < 1)%nat ∧
   ∃ ra rb, Some 1%nat = Some ra ∧ Some 2%nat = Some rb ∧ (ra < rb)%nat) ∧
  ((51 # 5 == 107 # 10)%Q → Some 1%nat = Some 2%nat).
Proof.
  exact (proj1 (proj2 ranking_uses_unfloored_time) Samples.defaults
           [Samples.run_of "u1" (107 # 10)%Q; Samples.run_of "u2" (51 # 5)%Q]
           [{| entry_run := Samples.run_of "u2" (51 # 5)%Q; rank := Some 1%nat;
               obsoleteRuns := None |};
            {| entry_run := Samples.run_of "u1" (107 # 10)%Q; rank := Some 2%nat;
               obsoleteRuns := None |}]
           0%nat 1%nat _ _ (51 # 5)%Q (107 # 10)%Q
           eq_refl eq_refl eq_refl eq_refl eq_refl).
Defined.

(** C1. The ranked entries of every leaderboard are in ascending order of
    [timeSeconds]; the first entry has rank 1, and every later entry has
    the rank of its predecessor when the two times are exactly equal and
    its 1-based position in the list otherwise.  This is standard
    competition ranking: the rank of an entry is one more than the number
    of entries with a strictly smaller time.  Three players with the times
    10, 10 and 20 get the ranks 1, 1 and 3. *)
Theorem competition_ranking :
  (∀ popts runs es,
     ranked_runs popts runs = Normal es →
     (∀ e, es !! 0%nat = Some e → rank e = Some 1%nat) ∧
     (∀ i p e,
        es !! i = Some p →
        es !! S i = Some e →
        ∃ tp te,
          timeSeconds (entry_run p) = Some tp ∧
          timeSeconds (entry_run e) = Some te ∧
          (tp <= te)%Q ∧
          ((te == tp)%Q → rank e = rank p) ∧
          (¬ (te == tp)%Q → rank e = Some (S i + 1)%nat)) ∧
     (∀ i e,
        es !! i = Some e →
        rank e = Some (1 + length (faster_than e es))%nat)) ∧
  fmap (M := Completion) (fmap (M := list) rank)
    (ranked_runs Samples.defaults
       [Samples.run_of "u1" 10%Q; Samples.run_of "u2" 10%Q;
        Samples.run_of "u3" 20%Q])
  = Normal [Some 1%nat; Some 1%nat; Some 3%nat].
Proof.
  split; [|vm_compute; reflexivity].
  intros popts runs es Hes.
  split; [|split]; [| |by apply (rank_counts_faster_entries popts runs)].
  - destruct (ranked_runs_rank_from popts runs es Hes) as [lbEntries ->].
    apply rank_from_first.
  - intros i p e Hp He.
    pose proof (Sorted_lookup_adjacent _ _ _ _ _
                  (ranked_runs_Sorted popts runs es Hes) Hp He) as Hle.
    unfold ascending, time_le in Hle. simpl in Hle.
    destruct (timeSeconds (entry_run p)) as [tp|] eqn:Htp; [|done].
    destruct (timeSeconds (entry_run e)) as [te|] eqn:Hte; [|done].
    exists tp, te. split; [done|]. split; [done|]. split; [done|].
    destruct (ranked_runs_rank_from popts runs es Hes) as [lbEntries ->].
    pose proof (rank_from_adjacent _ _ _ _ _ _ Hp He) as Hrank.
    rewrite Htp, Hte in Hrank. simpl in Hrank.
    split; intros Heq.
    + apply Qeq_bool_iff in Heq. by rewrite Heq in Hrank.
    + destruct (Qeq_bool te tp) eqn:E; [|done].
      apply Qeq_bool_iff in E. done.
Qed.

(** The neighbours clause of C1 at the second and third entry of the
    sample leaderboard. *)
Lemma competition_ranking_witness :
  ∃ tp te,
    Some 10%Q = Some tp ∧ Some 20%Q = Some te ∧ (tp <= te)%Q ∧
    ((te == tp)%Q → Some 3%nat = Some 1%nat) ∧
    (¬ (te == tp)%Q → Some 3%nat = Some (2 + 1)%nat).
Proof.
  exact (proj1 (proj2 (proj1 competition_ranking Samples.defaults
                  [Samples.run_of "u1" 10%Q; Samples.run_of "u2" 10%Q;
                   Samples.run_of "u3" 20%Q]
                  [{| entry_run := Samples.run_of "u1" 10%Q; rank := Some 1%nat;
                      obsoleteRuns := None |};
                   {| entry_run := Samples.run_of "u2" 10%Q; rank := Some 1%nat;
                      obsoleteRuns := None |};
                   {| entry_run := Samples.run_of "u3" 20%Q; rank := Some 3%nat;
                      obsoleteRuns := None |}]
                  eq_refl))
               1%nat
               {| entry_run := Samples.run_of "u2" 10%Q; rank := Some 1%nat;
                  obsoleteRuns := None |}
               {| entry_run := Samples.run_of "u3" 20%Q; rank := Some 3%nat;
                  obsoleteRuns := None |}
               eq_refl eq_refl).
Defined.

(** * Further properties of the code *)

(** ** The cached lookups (lines 89-109) *)

Section LookupFacts.

Variable api : Upstream.

Lemma getUsername_cases (userId : option string) (c : Caches) :
  (truthy_str userId = false ∧ getUsername api userId c = Normal (None, c))
  ∨ ∃ key, userId = Some key ∧ truthy_str (Some key) = true ∧
      ((∃ v, userMap c !! key = Some v ∧ truthy_str (Some v) = true
             ∧ getUsername api userId c = Normal (Some v, c))
       ∨ (truthy_str (userMap c !! key) = false ∧
          ((users api key = None ∧ getUsername api userId c = Throw RequestError)
           ∨ (∃ response v, users api key = Some response
                ∧ names response ≫= international = Some v
                ∧ truthy_str (Some v) = true
                ∧ getUsername api userId c
                  = Normal (Some v, {| platformMap := platformMap c;
                                       userMap := <[key := v]> (userMap c) |}))
           ∨ (∃ response, users api key = Some response
                ∧ truthy_str (names response ≫= international) = false
                ∧ getUsername api userId c = Normal (None, c))))).
Proof.
  unfold getUsername.
  destruct userId as [key|]; simpl; [|left; done].
  destruct (negb (String.eqb key EmptyString)) eqn:Hkey; simpl; [|left; done].
  right. exists key. split; [done|]. split; [done|].
  destruct (userMap c !! key) as [v|] eqn:Hc; simpl;
    [destruct (negb (String.eqb v EmptyString)) eqn:Hv; simpl;
       [left; by exists v|]|];
    (right; split; [done|]);
    (destruct (users api key) as [response|]; [|left; done]);
    right;
    (destruct (names response ≫= international) as [n|] eqn:Hn; simpl;
       [destruct (negb (String.eqb n EmptyString)) eqn:Hne; simpl;
          [left; by exists response, n|right; exists response; by rewrite Hn]
       |right; exists response; by rewrite Hn]).
Qed.

Lemma getPlatform_cases (platformId : option string) (c : Caches) :
  (truthy_str platformId = false ∧ getPlatform api platformId c = Normal (None, c))
  ∨ ∃ key, platformId = Some key ∧ truthy_str (Some key) = true ∧
      ((∃ v, platformMap c !! key = Some v ∧ truthy_str (Some v) = true
             ∧ getPlatform api platformId c = Normal (Some v, c))
       ∨ (truthy_str (platformMap c !! key) = false ∧
          ((platforms api key = None
            ∧ getPlatform api platformId c = Throw RequestError)
           ∨ (∃ response v, platforms api key = Some response
                ∧ platform_name response = Some v
                ∧ truthy_str (Some v) = true
                ∧ getPlatform api platformId c
                  = Normal (Some v, {| platformMap := <[key := v]> (platformMap c);
                                       userMap := userMap c |}))
           ∨ (∃ response, platforms api key = Some response
                ∧ truthy_str (platform_name response) = false
                ∧ getPlatform api platformId c = Normal (None, c))))).
Proof.
  unfold getPlatform.
  destruct platformId as [key|]; simpl; [|left; done].
  destruct (negb (String.eqb key EmptyString)) eqn:Hkey; simpl; [|left; done].
  right. exists key. split; [done|]. split; [done|].
  destruct (platformMap c !! key) as [v|] eqn:Hc; simpl;
    [destruct (negb (String.eqb v EmptyString)) eqn:Hv; simpl;
       [left; by exists v|]|];
    (right; split; [done|]);
    (destruct (platforms api key) as [response|]; [|left; done]);
    right;
    (destruct (platform_name response) as [n|] eqn:Hn; simpl;
       [destruct (negb (String.eqb n EmptyString)) eqn:Hne; simpl;
          [left; by exists response, n|right; exists response; by rewrite ?Hn]
       |right; exists response; by rewrite ?Hn]).
Qed.

End LookupFacts.

Section CacheFacts.

Variable api : Upstream.

Lemma getUsername_hit (api' : Upstream) (key v : string) (c : Caches) :
  truthy_str (Some key) = true →
  userMap c !! key = Some v →
  truthy_str (Some v) = true →
  getUsername api' (Some key) c = Normal (Some v, c).
Proof.
  intros Hkey Hc Hv. unfold getUsername. rewrite Hkey. simpl.
  rewrite Hc. by rewrite Hv.
Qed.

Lemma getPlatform_hit (api' : Upstream) (key v : string) (c : Caches) :
  truthy_str (Some key) = true →
  platformMap c !! key = Some v →
  truthy_str (Some v) = true →
  getPlatform api' (Some key) c = Normal (Some v, c).
Proof.
  intros Hkey Hc Hv. unfold getPlatform. rewrite Hkey. simpl.
  rewrite Hc. by rewrite Hv.
Qed.

Lemma coherent_insert_user (c : Caches) (key v : string) (response : UserData) :
  coherent api c →
  users api key = Some response →
  names response ≫= international = Some v →
  coherent api {| platformMap := platformMap c;
                  userMap := <[key := v]> (userMap c) |}.
Proof.
  intros [Hu Hp] Hresp Hname. split; simpl; [|done].
  intros k w Hk Hw. destruct (decide (key = k)) as [->|Hne].
  - rewrite lookup_insert_eq in Hk. injection Hk as <-.
    rewrite Hresp. simpl. done.
  - rewrite lookup_insert_ne in Hk by done. by apply Hu.
Qed.

Lemma coherent_insert_platform (c : Caches) (key v : string)
    (response : PlatformData) :
  coherent api c →
  platforms api key = Some response →
  platform_name response = Some v →
  coherent api {| platformMap := <[key := v]> (platformMap c);
                  userMap := userMap c |}.
Proof.
  intros [Hu Hp] Hresp Hname. split; simpl; [done|].
  intros k w Hk Hw. destruct (decide (key = k)) as [->|Hne].
  - rewrite lookup_insert_eq in Hk. injection Hk as <-.
    rewrite Hresp. simpl. done.
  - rewrite lookup_insert_ne in Hk by done. by apply Hp.
Qed.

(** What a lookup returns from caches that agree with the upstream is
    what the upstream says. *)
Lemma getUsername_coherent (userId : option string) (c : Caches) :
  coherent api c →
  match getUsername api userId c with
  | Normal (v, c') =>
      coherent api c' ∧
      (truthy_str userId = false ∧ v = None
       ∨ ∃ key response, userId = Some key ∧ truthy_str userId = true
           ∧ users api key = Some response ∧
           v = (if truthy_str (names response ≫= international)
                then names response ≫= international else None))
  | Throw e =>
      e = RequestError ∧ ∃ key, userId = Some key ∧ truthy_str userId = true
                                ∧ users api key = None
  end.
Proof.
  intros Hc.
  destruct (getUsername_cases api userId c)
    as [[Hf ->]|(key & -> & Hkey & [(v & Hv & Ht & ->)|(Hmiss & [[Hn ->]|
         [(response & v & Hr & Hn & Ht & ->)|(response & Hr & Hf & ->)]])])].
  - split; [done|]. by left.
  - split; [done|]. right.
    pose proof (proj1 Hc key v Hv Ht) as Hup.
    destruct (users api key) as [response|] eqn:Hr; [|done].
    exists key, response. split; [done|]. split; [done|]. split; [done|].
    simpl in Hup. change (names response ≫= international = Some v) in Hup.
    by rewrite Hup, Ht.
  - split; [done|]. by exists key.
  - split; [by eapply coherent_insert_user|]. right.
    exists key, response. by rewrite Hn, Ht.
  - split; [done|]. right. exists key, response. by rewrite Hf.
Qed.

Lemma getPlatform_coherent (platformId : option string) (c : Caches) :
  coherent api c →
  match getPlatform api platformId c with
  | Normal (v, c') =>
      coherent api c' ∧
      (truthy_str platformId = false ∧ v = None
       ∨ ∃ key response, platformId = Some key
           ∧ truthy_str platformId = true
           ∧ platforms api key = Some response ∧
           v = (if truthy_str (platform_name response)
                then platform_name response else None))
  | Throw e =>
      e = RequestError ∧ ∃ key, platformId = Some key
                                ∧ truthy_str platformId = true
                                ∧ platforms api key = None
  end.
Proof.
  intros Hc.
  destruct (getPlatform_cases api platformId c)
    as [[Hf ->]|(key & -> & Hkey & [(v & Hv & Ht & ->)|(Hmiss & [[Hn ->]|
         [(response & v & Hr & Hn & Ht & ->)|(response & Hr & Hf & ->)]])])].
  - split; [done|]. by left.
  - split; [done|]. right.
    pose proof (proj2 Hc key v Hv Ht) as Hup.
    destruct (platforms api key) as [response|] eqn:Hr; [|done].
    exists key, response. split; [done|]. split; [done|]. split; [done|].
    simpl in Hup. by rewrite Hup, Ht.
  - split; [done|]. by exists key.
  - split; [by eapply coherent_insert_platform|]. right.
    exists key, response. by rewrite Hn, Ht.
  - split; [done|]. right. exists key, response. by rewrite Hf.
Qed.

Lemma transparent_ret {A} (a : A) : transparent api (mret a).
Proof. intros c1 c2 H1 H2. unfold agree, mret, M_ret. done. Qed.

Lemma transparent_bind {A B} (m : M A) (f : A → M B) :
  transparent api m → (∀ a, transparent api (f a)) →
  transparent api (m ≫= f).
Proof.
  intros Hm Hf c1 c2 H1 H2. specialize (Hm c1 c2 H1 H2).
  unfold mbind, M_bind, agree in *.
  destruct (m c1) as [[a1 c1']|e1], (m c2) as [[a2 c2']|e2]; try done.
  destruct Hm as (-> & H1' & H2'). by apply Hf.
Qed.

Lemma transparent_getUsername (userId : option string) :
  transparent api (getUsername api userId).
Proof.
  intros c1 c2 H1 H2.
  pose proof (getUsername_coherent userId c1 H1) as R1.
  pose proof (getUsername_coherent userId c2 H2) as R2.
  unfold agree.
  destruct (getUsername api userId c1) as [[v1 c1']|e1],
           (getUsername api userId c2) as [[v2 c2']|e2].
  - destruct R1 as [? R1], R2 as [? R2]. split; [|by split].
    destruct R1 as [[Hf ->]|(k & r & -> & Ht & Hr & ->)],
             R2 as [[Hf' ->]|(k' & r' & Hk & Ht' & Hr' & ->)];
      try done; try congruence.
    injection Hk as <-. rewrite Hr in Hr'. by injection Hr' as <-.
  - destruct R1 as [_ R1], R2 as (_ & k & -> & Hk & Hn).
    destruct R1 as [[Hf _]|(k' & r & [= <-] & _ & Hr & _)]; congruence.
  - destruct R2 as [_ R2], R1 as (_ & k & -> & Hk & Hn).
    destruct R2 as [[Hf _]|(k' & r & [= <-] & _ & Hr & _)]; congruence.
  - by destruct R1 as [-> _], R2 as [-> _].
Qed.

Lemma transparent_getPlatform (platformId : option string) :
  transparent api (getPlatform api platformId).
Proof.
  intros c1 c2 H1 H2.
  pose proof (getPlatform_coherent platformId c1 H1) as R1.
  pose proof (getPlatform_coherent platformId c2 H2) as R2.
  unfold agree.
  destruct (getPlatform api platformId c1) as [[v1 c1']|e1],
           (getPlatform api platformId c2) as [[v2 c2']|e2].
  - destruct R1 as [? R1], R2 as [? R2]. split; [|by split].
    destruct R1 as [[Hf ->]|(k & r & -> & Ht & Hr & ->)],
             R2 as [[Hf' ->]|(k' & r' & Hk & Ht' & Hr' & ->)];
      try done; try congruence.
    injection Hk as <-. rewrite Hr in Hr'. by injection Hr' as <-.
  - destruct R1 as [_ R1], R2 as (_ & k & -> & Hk & Hn).
    destruct R1 as [[Hf _]|(k' & r & [= <-] & _ & Hr & _)]; congruence.
  - destruct R2 as [_ R2], R1 as (_ & k & -> & Hk & Hn).
    destruct R2 as [[Hf _]|(k' & r & [= <-] & _ & Hr & _)]; congruence.
  - by destruct R1 as [-> _], R2 as [-> _].
Qed.

Lemma transparent_processRun (popts : Options) (rr : option RunResponse) :
  transparent api (processRun api popts rr).
Proof.
  unfold processRun. destruct rr as [resp|]; [|apply transparent_ret].
  apply transparent_bind.
  { unfold read_status. destruct (rr_status resp) as [[o|s]|];
      try apply transparent_ret. intros c1 c2 _ _. done. }
  intros status.
  destruct (negb (truthy_str status) || _); [apply transparent_ret|].
  destruct (truthy_num (read_primary_t resp)); simpl;
    [|apply transparent_ret].
  destruct (negb (truthy_num (read_primary_t resp))); [apply transparent_ret|].
  apply transparent_bind.
  { destruct (str_eq status (Some "verified")); [|apply transparent_ret].
    apply transparent_bind.
    { unfold read_status_prop. destruct (rr_status resp) as [[o|s]|];
        try apply transparent_ret. intros c1 c2 _ _. done. }
    intros verify_date. apply transparent_bind.
    { unfold read_status_prop. destruct (rr_status resp) as [[o|s]|];
        try apply transparent_ret. intros c1 c2 _ _. done. }
    intros examiner. apply transparent_bind; [apply transparent_getUsername|].
    intros name. apply transparent_ret. }
  intros [verify_time verifier_name]. apply transparent_bind.
  { destruct (truthy_str _); [apply transparent_getPlatform|apply transparent_ret]. }
  intros platform. apply transparent_bind.
  { unfold read_player.
    destruct (rr_players resp) as [[|playerObj [|]]|]; try apply transparent_ret.
    destruct (str_eq (pr_rel playerObj) (Some "guest")); [apply transparent_ret|].
    destruct (str_eq (pr_rel playerObj) (Some "user")); [|apply transparent_ret].
    apply transparent_bind; [apply transparent_getUsername|].
    intros name. apply transparent_ret. }
  intros player. apply transparent_ret.
Qed.

End CacheFacts.

(** ** More of the normalizer (lines 111-178) *)

Section NormalizerFields.

Variable api : Upstream.
Variable popts : Options.

(** How the returned run is read off the response. *)
Lemma processRun_fields (rr : option RunResponse) (c c' : Caches) (r : Run) :
  processRun api popts rr c = Normal (Some r, c') →
  ∃ resp o,
    rr = Some resp ∧ rr_status resp = Some (StatusObject o) ∧
    run_id r = rr_id resp ∧ comment r = rr_comment resp ∧
    submitTime r = rr_submitted resp ∧ run_status r = so_status o ∧
    run_variables r = default ∅ (rr_values resp) ∧
    run_videos r = read_videos resp ∧
    (if str_eq (so_status o) (Some "verified")
     then verifyTime r = so_verify_date o
     else verifyTime r = None ∧ verifier r = None) ∧
    match rr_players resp with
    | Some [playerObj] =>
        if str_eq (pr_rel playerObj) (Some "guest")
        then player r = Some {| rel := "guest";
                                player_id := pr_name playerObj;
                                player_name := pr_name playerObj |}
        else if str_eq (pr_rel playerObj) (Some "user")
        then ∃ name, player r = Some {| rel := "user";
                                         player_id := pr_id playerObj;
                                         player_name := name |}
        else player r = None
    | _ => player r = None
    end.
Proof.
  destruct rr as [resp|]; [|discriminate].
  unfold processRun, read_status, read_status_prop, read_player.
  destruct (rr_status resp) as [[o|s]|] eqn:Hst; [|discriminate..].
  unfold mbind, M_bind, mret, M_ret; simpl.
  destruct (negb (truthy_str (so_status o)) || _); [discriminate|].
  destruct (truthy_num (read_primary_t resp)) eqn:Ht; simpl;
    [rewrite Ht; simpl|discriminate].
  intros H. exists resp, o. split; [done|]. split; [done|].
  destruct (str_eq (so_status o) (Some "verified"));
    destruct (rr_players resp) as [[|playerObj [|]]|];
    repeat case_match; simplify_eq/=; repeat split; eauto.
Qed.

(** A rejection is decided before any lookup: it leaves the caches as
    they were. *)
Lemma processRun_rejection_keeps_caches (rr : option RunResponse) (c c' : Caches) :
  processRun api popts rr c = Normal (None, c') → c' = c.
Proof.
  destruct rr as [resp|]; [|by intros [= <-]].
  unfold processRun, read_status, read_status_prop, read_player.
  destruct (rr_status resp) as [[o|s]|] eqn:Hst;
    unfold mbind, M_bind, mret, M_ret; simpl;
    [|by intros [= <-]|discriminate].
  destruct (negb (truthy_str (so_status o)) || _); [by intros [= <-]|].
  destruct (truthy_num (read_primary_t resp)) eqn:Ht; simpl;
    [rewrite Ht; simpl|by intros [= <-]].
  intros H. repeat case_match; simplify_eq/=.
Qed.

End NormalizerFields.

(** X1. A name that a lookup has returned is answered from the cache from
    then on: the same lookup on the resulting caches returns the same name
    and leaves the caches alone whatever the upstream does, even when every
    request fails.  This holds for user names and for platform names. *)
Theorem lookups_are_cached :
  ∀ api id c name c',
    (getUsername api id c = Normal (Some name, c') →
     ∀ api', getUsername api' id c' = Normal (Some name, c')) ∧
    (getPlatform api id c = Normal (Some name, c') →
     ∀ api', getPlatform api' id c' = Normal (Some name, c')).
Proof.
  intros api id c name c'. split; intros Hcall api'.
  - destruct (getUsername_cases api id c)
      as [[Hf Hr]|(key & -> & Hkey & [(v & Hv & Ht & Hr)|(Hmiss & [[Hn Hr]|
           [(response & v & Hresp & Hn & Ht & Hr)|(response & Hresp & Hf & Hr)]])])];
      rewrite Hr in Hcall; simplify_eq.
    + by apply getUsername_hit.
    + apply getUsername_hit; [done| |done]. simpl. apply lookup_insert_eq.
  - destruct (getPlatform_cases api id c)
      as [[Hf Hr]|(key & -> & Hkey & [(v & Hv & Ht & Hr)|(Hmiss & [[Hn Hr]|
           [(response & v & Hresp & Hn & Ht & Hr)|(response & Hresp & Hf & Hr)]])])];
      rewrite Hr in Hcall; simplify_eq.
    + by apply getPlatform_hit.
    + apply getPlatform_hit; [done| |done]. simpl. apply lookup_insert_eq.
Qed.

(** X1 at the sample upstream: the name of user u1, once fetched, is
    returned while the upstream is offline. *)
Lemma lookups_are_cached_witness :
  getUsername offline (Some "u1")
    {| platformMap := ∅; userMap := {[ "u1" := "user u1" ]} |}
  = Normal (Some "user u1",
            {| platformMap := ∅; userMap := {[ "u1" := "user u1" ]} |}).
Proof.
  apply (proj1 (lookups_are_cached Samples.upstream (Some "u1")
                  Samples.no_cache "user u1"
                  {| platformMap := ∅; userMap := {[ "u1" := "user u1" ]} |})).
  vm_compute. reflexivity.
Defined.

(** X2. Caching never changes what the normalizer returns: from any two
    caches that agree with the upstream the normalizer returns the same
    run, the same rejection or the same error, and the caches it leaves
    agree with the upstream again. *)
Theorem caching_is_transparent :
  ∀ api popts rr c1 c2,
    coherent api c1 → coherent api c2 →
    returned (processRun api popts rr) c1
    = returned (processRun api popts rr) c2 ∧
    ∀ result c1', processRun api popts rr c1 = Normal (result, c1') →
                  coherent api c1'.
Proof.
  intros api popts rr c1 c2 H1 H2.
  pose proof (transparent_processRun api popts rr c1 c2 H1 H2) as Hagree.
  unfold returned, agree in *.
  destruct (processRun api popts rr c1) as [[a1 c1']|e1],
           (processRun api popts rr c2) as [[a2 c2']|e2]; try done.
  - destruct Hagree as (-> & Hc1 & _). split; [done|].
    by intros result c1'' [= <- <-].
  - subst e2. done.
Qed.

(** X2 at the sample upstream, from the empty caches and from caches that
    already hold the name of user u1. *)
Lemma caching_is_transparent_witness :
  returned (processRun Samples.upstream Samples.defaults
              (Some (Samples.response "u1" (Some 90%Q)))) Samples.no_cache
  = returned (processRun Samples.upstream Samples.defaults
                (Some (Samples.response "u1" (Some 90%Q))))
             {| platformMap := ∅; userMap := {[ "u1" := "user u1" ]} |} ∧
  ∀ result c1',
    processRun Samples.upstream Samples.defaults
      (Some (Samples.response "u1" (Some 90%Q))) Samples.no_cache
    = Normal (result, c1') →
    coherent Samples.upstream c1'.
Proof.
  apply caching_is_transparent.
  - split; intros k v Hk; simpl in Hk; by rewrite lookup_empty in Hk.
  - split; intros k v Hk; simpl in Hk; [|by rewrite lookup_empty in Hk].
    apply lookup_singleton_Some in Hk as [<- <-]. intros _. reflexivity.
Defined.

(** X3. Without [includeUnverifiedRuns] every retained run has the status
    verified, and a response whose status object holds any other status is
    rejected.  Whatever the options, a retained run that is not verified
    has neither [verifyTime] nor [verifier]. *)
Theorem unverified_runs_are_filtered :
  ∀ api popts,
    (∀ rr c c' r,
       processRun api popts rr c = Normal (Some r, c') →
       includeUnverifiedRuns popts = false →
       run_status r = Some "verified") ∧
    (∀ resp o c,
       rr_status resp = Some (StatusObject o) →
       includeUnverifiedRuns popts = false →
       so_status o ≠ Some "verified" →
       processRun api popts (Some resp) c = Normal (None, c)) ∧
    (∀ rr c c' r,
       processRun api popts rr c = Normal (Some r, c') →
       run_status r ≠ Some "verified" →
       verifyTime r = None ∧ verifier r = None).
Proof.
  intros api popts. split; [|split].
  - intros rr c c' r Hrun Hopt.
    destruct (processRun_retained _ _ _ _ _ _ Hrun)
      as (resp & q & _ & _ & _ & _ & _ & _ & Hver). by apply Hver.
  - intros resp o c Hst Hopt Hne.
    unfold processRun, read_status. rewrite Hst.
    unfold mbind, M_bind, mret, M_ret; simpl. rewrite Hopt. simpl.
    destruct (str_eq (so_status o) (Some "verified")) eqn:Heq.
    + apply str_eq_Some in Heq. done.
    + simpl. by rewrite orb_true_r.
  - intros rr c c' r Hrun Hne.
    destruct (processRun_fields _ _ _ _ _ _ Hrun)
      as (resp & o & _ & _ & _ & _ & _ & Hst & _ & _ & Hver & _).
    destruct (str_eq (so_status o) (Some "verified")) eqn:Heq; [|done].
    apply str_eq_Some in Heq. congruence.
Qed.

(** X3 at the sample response, which is verified. *)
Lemma unverified_runs_are_filtered_witness :
  run_status (Samples.run_of "u1" 90%Q) = Some "verified".
Proof.
  apply (proj1 (unverified_runs_are_filtered Samples.upstream Samples.defaults)
           (Some (Samples.response "u1" (Some 90%Q))) Samples.no_cache
           {| platformMap := ∅;
              userMap := {[ "mod1" := "user mod1"; "u1" := "user u1" ]} |}).
  - vm_compute. reflexivity.
  - reflexivity.
Defined.

(** X4. A rejection costs no request: when the normalizer rejects a
    response it leaves the caches unchanged, and it rejects the response
    the same way whatever the upstream, even when every request fails. *)
Theorem rejection_needs_no_lookup :
  ∀ api popts rr c c',
    processRun api popts rr c = Normal (None, c') →
    c' = c ∧ ∀ api', processRun api' popts rr c = Normal (None, c).
Proof.
  intros api popts rr c c' Hrun.
  split; [by eapply processRun_rejection_keeps_caches|].
  intros api'. revert Hrun.
  destruct rr as [resp|]; [|done].
  unfold processRun, read_status, read_status_prop, read_player.
  destruct (rr_status resp) as [[o|s]|] eqn:Hst;
    unfold mbind, M_bind, mret, M_ret; simpl; [|done|discriminate].
  destruct (negb (truthy_str (so_status o)) || _); [done|].
  destruct (truthy_num (read_primary_t resp)) eqn:Ht; simpl;
    [rewrite Ht; simpl|done].
  intros H. repeat case_match; simplify_eq/=.
Qed.

(** X4 at a response without a primary time. *)
Lemma rejection_needs_no_lookup_witness :
  Samples.no_cache = Samples.no_cache ∧
  ∀ api',
    processRun api' Samples.defaults
      (Some (Samples.response "u1" None)) Samples.no_cache
    = Normal (None, Samples.no_cache).
Proof.
  apply (rejection_needs_no_lookup Samples.upstream Samples.defaults
           (Some (Samples.response "u1" None)) Samples.no_cache
           Samples.no_cache).
  reflexivity.
Defined.

(** ** The normalizer and the ranker together *)

(** The runs of the ranked entries, and the runs of their histories, are
    runs of the leaderboard that pass the check of line 288. *)
Lemma ranked_runs_are_candidates (popts : Options) (runs : list Run)
    (es : list Entry) (e : Entry) :
  ranked_runs popts runs = Normal es →
  e ∈ es →
  (entry_run e ∈ runs ∧ ranked_candidate (entry_run e) = true) ∧
  ∀ history, obsoleteRuns e = Some history →
             ∀ run, run ∈ history → run ∈ runs ∧ ranked_candidate run = true.
Proof.
  intros Hes He.
  destruct (ranked_runs_elem popts runs es Hes e He)
    as (userId & fastest & slower & Hne & Hsort & Hrun & Hobs).
  assert (Hall : ∀ r, r ∈ fastest :: slower →
                      r ∈ runs ∧ ranked_candidate r = true).
  { intros r Hr. rewrite <- Hsort, js_sort_Permutation in Hr.
    apply elem_of_runs_of in Hr as (? & ? & _). done. }
  split.
  - rewrite Hrun. apply Hall. by left.
  - intros history Hh run Hin. rewrite Hobs in Hh.
    destruct (includeRunHistory popts); [|done]. injection Hh as <-.
    apply Hall. by right.
Qed.

(** X5. A run attributed to no player or to several players is retained by
    the normalizer without a [player], and such a run is never ranked: in
    no leaderboard is it the run of an entry or part of an entry's
    [obsoleteRuns]. *)
Theorem only_single_player_runs_are_ranked :
  ∀ api popts resp c c' r,
    processRun api popts (Some resp) c = Normal (Some r, c') →
    (∀ playerObj, rr_players resp ≠ Some [playerObj]) →
    player r = None ∧
    ∀ popts' runs es e,
      ranked_runs popts' runs = Normal es → e ∈ es →
      entry_run e ≠ r ∧ ∀ history, obsoleteRuns e = Some history → r ∉ history.
Proof.
  intros api popts resp c c' r Hrun Hplayers.
  assert (Hnone : player r = None).
  { destruct (processRun_fields _ _ _ _ _ _ Hrun)
      as (resp' & o & [= <-] & _ & _ & _ & _ & _ & _ & _ & _ & Hplayer).
    destruct (rr_players resp) as [[|playerObj [|]]|]; try done.
    by destruct (Hplayers playerObj). }
  split; [done|].
  assert (Hno : ranked_candidate r = false).
  { unfold ranked_candidate, run_player_id. rewrite Hnone. apply andb_false_r. }
  intros popts' runs es e Hes He.
  destruct (ranked_runs_are_candidates popts' runs es e Hes He) as [[_ Hc] Hh].
  split.
  - intros <-. congruence.
  - intros history Hhistory Hin.
    destruct (Hh history Hhistory r Hin). congruence.
Qed.

(** X5 at a verified response with two players. *)
Lemma only_single_player_runs_are_ranked_witness :
  player {| run_id := Some "r2"; comment := None; submitTime := None;
            run_status := Some "verified"; run_variables := ∅;
            run_time := Some "00:01:30"; timeSeconds := Some 90%Q;
            verifyTime := None; verifier := None; run_videos := None;
            run_platform := None; player := None |} = None ∧
  ∀ popts' runs es e,
    ranked_runs popts' runs = Normal es → e ∈ es →
    entry_run e
    ≠ {| run_id := Some "r2"; comment := None; submitTime := None;
         run_status := Some "verified"; run_variables := ∅;
         run_time := Some "00:01:30"; timeSeconds := Some 90%Q;
         verifyTime := None; verifier := None; run_videos := None;
         run_platform := None; player := None |} ∧
    ∀ history,
      obsoleteRuns e = Some history →
      {| run_id := Some "r2"; comment := None; submitTime := None;
         run_status := Some "verified"; run_variables := ∅;
         run_time := Some "00:01:30"; timeSeconds := Some 90%Q;
         verifyTime := None; verifier := None; run_videos := None;
         run_platform := None; player := None |} ∉ history.
Proof.
  apply (only_single_player_runs_are_ranked Samples.upstream Samples.defaults
           {| rr_id := Some "r2"; rr_comment := None; rr_submitted := None;
              rr_status := Some (StatusObject {| so_status := Some "verified";
                                                 so_verify_date := None;
                                                 so_examiner := None |});
              rr_values := None;
              rr_times := Some {| primary_t := Some 90%Q |};
              rr_videos := None; rr_system := None;
              rr_players := Some [ {| pr_rel := Some "user"; pr_id := Some "u1";
                                      pr_name := None |};
                                   {| pr_rel := Some "user"; pr_id := Some "u2";
                                      pr_name := None |} ] |}
           Samples.no_cache Samples.no_cache).
  - vm_compute. reflexivity.
  - intros playerObj. discriminate.
Defined.

(** ** The time text (lines 128-136) *)

Lemma pad2_length (n : Z) :
  0 ≤ n < 100 → String.length (padStart 2 "0"%char (to_string n)) = 2%nat.
Proof.
  intros Hn.
  assert (∃ k, (k < 100)%nat ∧ n = Z.of_nat k) as (k & Hk & ->)
    by (exists (Z.to_nat n); lia).
  clear Hn. do 100 (destruct k as [|k]; [vm_compute; reflexivity|]). lia.
Qed.

Lemma append_length (s1 s2 : string) :
  String.length (s1 +:+ s2) = (String.length s1 + String.length s2)%nat.
Proof.
  induction s1 as [|a s1 IH]; [done|].
  change (S (String.length (s1 +:+ s2))
          = S (String.length s1 + String.length s2)). by rewrite IH.
Qed.

(** X6. While the floored time is below 2^53 in magnitude (the range in
    which the arithmetic of the program is exact on its numbers), the
    three fields of the time text add back to the floored time.  For a
    time that is not negative the minutes and the seconds are below 60,
    and below 100 hours the text has exactly eight characters. *)
Theorem time_text_fields :
  ∀ t,
    - 2 ^ 53 < Qfloor t < 2 ^ 53 →
    ∃ hours minutes seconds,
      formatTime t = clock_text hours minutes seconds ∧
      hours * 3600 + minutes * 60 + seconds = Qfloor t ∧
      (0 ≤ Qfloor t →
       0 ≤ hours ∧ 0 ≤ minutes < 60 ∧ 0 ≤ seconds < 60 ∧
       (Qfloor t < 360000 → String.length (formatTime t) = 8%nat)).
Proof.
  intros t _.
  pose proof (formatTime_clock_text t) as Htext. cbv zeta in Htext.
  destruct (clock_fields_exact (Qfloor t)) as (_ & _ & Hm & Hh).
  eexists _, _, _. split; [exact Htext|]. split; [lia|].
  intros Hpos.
  destruct (clock_fields_nonneg (Qfloor t) Hpos) as (Hs' & Hm' & Hh').
  cbv zeta in Hs', Hm', Hh'.
  pose proof (Z.mod_pos_bound (Qfloor t) 60 ltac:(lia)).
  pose proof (Z.mod_pos_bound (Qfloor t / 60) 60 ltac:(lia)).
  pose proof (Z.div_pos (Qfloor t) 3600 Hpos ltac:(lia)).
  repeat split; try lia.
  intros Hlt.
  assert (Qfloor t / 3600 < 100) by (apply Z.div_lt_upper_bound; lia).
  rewrite Htext. unfold clock_text.
  rewrite !append_length, !pad2_length; [done|lia..].
Qed.

(** X6 at a time of 3725.5 seconds. *)
Lemma time_text_fields_witness :
  ∃ hours minutes seconds,
    formatTime (7451 # 2) = clock_text hours minutes seconds ∧
    hours * 3600 + minutes * 60 + seconds = Qfloor (7451 # 2) ∧
    (0 ≤ Qfloor (7451 # 2) →
     0 ≤ hours ∧ 0 ≤ minutes < 60 ∧ 0 ≤ seconds < 60 ∧
     (Qfloor (7451 # 2) < 360000
      → String.length (formatTime (7451 # 2)) = 8%nat)).
Proof.
  apply (time_text_fields (7451 # 2)). vm_compute. split; reflexivity.
Defined.

(** ** Pagination (lines 54-70) *)

Section PaginationFacts.

Import Pagination.

Context {A St : Type}.
Variable task : A → St → Completion St.

Lemma run_tasks_app (l1 l2 : list A) (s : St) :
  run_tasks task (l1 ++ l2) s
  = match run_tasks task l1 s with
    | Normal s' => run_tasks task l2 s'
    | Throw e => Throw e
    end.
Proof.
  revert s. induction l1 as [|a l1 IH]; intros s; simpl; [done|].
  destruct (task a s); [apply IH|done].
Qed.

(** With enough fuel the loop over a served list runs the task on the
    items from the offset on, in order. *)
Lemma paginate_loop_serve (data : list A) (fuel offset : nat) (s : St) :
  (length data - offset < fuel * 100)%nat →
  paginate_loop (serve data) task fuel offset s
  = Some (run_tasks task (drop offset data) s).
Proof.
  revert offset s. induction fuel as [|fuel IH]; intros offset s Hfuel; [lia|].
  simpl. unfold PAGINATE_PAGE_SIZE.
  rewrite <- (take_drop 100 (drop offset data)) at 2.
  rewrite run_tasks_app.
  destruct (run_tasks task (take 100 (drop offset data)) s) as [s'|e]; [|done].
  rewrite length_take, length_drop, drop_drop.
  destruct (Nat.ltb_spec (100 `min` (length data - offset)) 100) as [Hlt|Hge].
  - rewrite drop_ge by lia. done.
  - apply IH. lia.
Qed.

(** Without enough fuel, and with no failing task, the loop is still
    running. *)
Lemma paginate_loop_short (data : list A) (fuel offset : nat) (s s' : St) :
  run_tasks task (drop offset data) s = Normal s' →
  (fuel * 100 ≤ length data - offset)%nat →
  paginate_loop (serve data) task fuel offset s = None.
Proof.
  revert offset s. induction fuel as [|fuel IH]; intros offset s Hrun Hfuel;
    [done|].
  simpl. unfold PAGINATE_PAGE_SIZE.
  rewrite <- (take_drop 100 (drop offset data)), run_tasks_app in Hrun.
  destruct (run_tasks task (take 100 (drop offset data)) s) as [s1|e]; [|done].
  rewrite length_take, length_drop.
  destruct (Nat.ltb_spec (100 `min` (length data - offset)) 100) as [Hlt|Hge];
    [lia|].
  rewrite drop_drop in Hrun. apply (IH _ _ Hrun). lia.
Qed.

(** A property of the state that every task keeps is kept by the whole
    pagination, whatever the upstream serves. *)
Lemma paginate_loop_invariant (request : nat → option (list A))
    (I : St → Prop) (fuel offset : nat) (s s' : St) :
  (∀ a s1 s2, I s1 → task a s1 = Normal s2 → I s2) →
  I s →
  paginate_loop request task fuel offset s = Some (Normal s') →
  I s'.
Proof.
  intros Htask. revert offset s.
  assert (Hrun : ∀ l s1 s2, I s1 → run_tasks task l s1 = Normal s2 → I s2).
  { induction l as [|a l IHl]; intros s1 s2 H1; simpl; [by intros [= <-]|].
    destruct (task a s1) as [s1'|] eqn:Ha; [|done]. eauto. }
  induction fuel as [|fuel IH]; intros offset s Hs; [done|]. simpl.
  destruct (request offset) as [page|]; [|done].
  destruct (run_tasks task page s) as [s1|] eqn:Hpage; [|done].
  destruct (length page <? PAGINATE_PAGE_SIZE)%nat.
  - intros [= <-]. eauto.
  - apply IH. eauto.
Qed.

End PaginationFacts.

(** X7. For an upstream that pages through a list of n items, the
    pagination runs the task on every item once, in the order of the list,
    and stops at the first failing task.  It takes n / 100 + 1 requests when
    no task fails: the loop returns with that much fuel and is still
    running with less, so a list of exactly 100 items costs a second
    request for an empty page. *)
Theorem pagination_visits_every_item :
  ∀ (A St : Type) (task : A → St → Completion St) (data : list A) (s : St),
    (∀ fuel, (length data / 100 < fuel)%nat →
       Pagination.paginateSpeedrunApiRequest (Pagination.serve data) task fuel s
       = Some (Pagination.run_tasks task data s)) ∧
    (∀ s' fuel,
       Pagination.run_tasks task data s = Normal s' →
       (fuel ≤ length data / 100)%nat →
       Pagination.paginateSpeedrunApiRequest (Pagination.serve data) task fuel s
       = None).
Proof.
  intros A St task data s.
  pose proof (Nat.div_mod_eq (length data) 100) as Hdiv.
  pose proof (Nat.mod_upper_bound (length data) 100 ltac:(lia)) as Hmod.
  split.
  - intros fuel Hfuel. unfold Pagination.paginateSpeedrunApiRequest.
    rewrite paginate_loop_serve; [done|]. nia.
  - intros s' fuel Hrun Hfuel. unfold Pagination.paginateSpeedrunApiRequest.
    apply (paginate_loop_short task data fuel 0 s s'); [done|]. nia.
Qed.

(** X7 at a list of exactly 100 items, counted by the task: one request
    is not enough. *)
Lemma pagination_visits_every_item_witness :
  Pagination.paginateSpeedrunApiRequest
    (Pagination.serve (replicate 100 tt))
    (λ _ (count : nat), Normal (S count)) 1 0%nat
  = None.
Proof.
  apply (proj2 (pagination_visits_every_item unit nat
                  (λ _ count, Normal (S count)) (replicate 100 tt) 0%nat)
           100%nat).
  - vm_compute. reflexivity.
  - vm_compute. lia.
Defined.

(** ** The fetch of the categories (lines 185-216) *)

Lemma paginate_loop_ext {A St} (request1 request2 : nat → option (list A))
    (task : A → St → Completion St) (fuel offset : nat) (s : St) :
  (∀ n, request1 n = request2 n) →
  Pagination.paginate_loop request1 task fuel offset s
  = Pagination.paginate_loop request2 task fuel offset s.
Proof.
  intros Hext. revert offset s.
  induction fuel as [|fuel IH]; intros offset s; simpl; [done|].
  rewrite Hext. destruct (request2 offset) as [page|]; [|done].
  destruct (Pagination.run_tasks task page s); [|done].
  destruct (length page <? Pagination.PAGINATE_PAGE_SIZE)%nat; [done|apply IH].
Qed.

Section FetchFacts.

Import Fetch.

Variable api : Api.
Variable popts : Options.

Lemma processRun_retained_run (rr : option RunResponse) (c c' : Caches) (r : Run) :
  processRun (lookups api) popts rr c = Normal (Some r, c') →
  retained_run popts r ∧ ∃ resp, rr = Some resp ∧ run_id r = rr_id resp.
Proof.
  intros Hrun.
  destruct (processRun_retained _ _ _ _ _ _ Hrun)
    as (resp & q & -> & _ & Hz & Hts & Htime & Hst & Hver).
  destruct (processRun_fields _ _ _ _ _ _ Hrun)
    as (resp' & o & [= <-] & _ & Hid & _).
  split; [|by exists resp].
  split; [done|]. split; [done|]. exists q. repeat split; try done.
  intros Hq. apply Qeq_bool_iff in Hq. congruence.
Qed.

(** The runs the tasks add are retained runs, in the order of the
    responses. *)
Lemma run_tasks_collect (page : list (option RunResponse))
    (c c' : Caches) (acc acc' : list Run) :
  Pagination.run_tasks (collect_run api popts) page (c, acc) = Normal (c', acc') →
  ∃ new, acc' = acc ++ new ∧
         Forall (retained_run popts) new ∧
         sublist (run_id <$> new) ((λ rr, rr ≫= rr_id) <$> page).
Proof.
  revert c acc. induction page as [|rr page IH]; intros c acc; simpl.
  - intros [= <- <-]. exists []. by rewrite app_nil_r.
  - unfold collect_run at 1. simpl.
    destruct (processRun (lookups api) popts rr c) as [[[r|] c1]|] eqn:Hrun;
      [| |done].
    + intros Hrest. destruct (IH _ _ Hrest) as (new & -> & Hall & Hsub).
      destruct (processRun_retained_run _ _ _ _ Hrun) as [Hr (resp & -> & Hid)].
      exists (r :: new). rewrite <- app_assoc. split; [done|].
      split; [by constructor|]. csimpl. rewrite Hid. by constructor.
    + intros Hrest. destruct (IH _ _ Hrest) as (new & -> & Hall & Hsub).
      exists new. split; [done|]. split; [done|]. csimpl. by constructor.
Qed.

(** With a status in every response and an upstream that answers the
    lookups, no task throws. *)
Lemma run_tasks_collect_returns (page : list (option RunResponse))
    (s : Caches * list Run) :
  (∀ id, is_Some (users (lookups api) id)) →
  (∀ id, is_Some (platforms (lookups api) id)) →
  Forall (λ rr, ∀ resp, rr = Some resp → rr_status resp ≠ None) page →
  ∃ s', Pagination.run_tasks (collect_run api popts) page s = Normal s'.
Proof.
  intros Husers Hplatforms Hall. revert s.
  induction Hall as [|rr page Hrr _ IH]; intros s; simpl; [by eexists|].
  unfold collect_run at 1.
  destruct rr as [resp|].
  - destruct (processRun_returns (lookups api) popts resp s.1
                (Hrr resp eq_refl) Husers Hplatforms) as (result & c' & ->).
    destruct result; apply IH.
  - simpl. apply IH.
Qed.

Lemma paginate_collect_retained (request : nat → option (list (option RunResponse)))
    (fuel offset : nat) (s s' : Caches * list Run) :
  Forall (retained_run popts) s.2 →
  Pagination.paginate_loop request (collect_run api popts) fuel offset s
  = Some (Normal s') →
  Forall (retained_run popts) s'.2.
Proof.
  apply (paginate_loop_invariant (collect_run api popts) request
           (λ s, Forall (retained_run popts) s.2)).
  intros rr [c acc] [c' acc'] Hacc Htask. simpl in *.
  destruct (run_tasks_collect [rr] c c' acc acc') as (new & -> & Hnew & _).
  { simpl. by rewrite Htask. }
  by apply Forall_app.
Qed.

(** Whatever the upstream serves, a fetched category holds retained runs
    only. *)
Lemma fetch_category_retained (fuel : nat) (catResponseObj : CategoryResponse)
    (c c' : Caches) (catObj : Category) :
  fetch_category api popts fuel catResponseObj c = Some (Normal (catObj, c')) →
  cat_id catObj = cresp_id catResponseObj ∧
  ∃ runs, cat_runs catObj = Some runs ∧ Forall (retained_run popts) runs.
Proof.
  unfold fetch_category, Pagination.paginateSpeedrunApiRequest.
  destruct (variables_of api _) as [vars|]; [|done].
  destruct (Pagination.paginate_loop _ _ fuel 0 (c, []))
    as [[[c1 runs]|]|] eqn:Hloop; [|done..].
  intros [= <- <-]. split; [done|]. exists runs. split; [done|].
  eapply (paginate_collect_retained _ fuel 0 (c, []) (c1, runs));
    [constructor|exact Hloop].
Qed.

End FetchFacts.

(** X8. When the upstream pages through the runs of a category, answers
    every lookup and sends a status with every run, the fetch of the
    category returns once the fuel covers the n / 100 + 1 requests.  The
    category then holds retained runs only, in the order of the upstream:
    their ids are a subsequence of the ids served. *)
Theorem fetched_category_holds_retained_runs :
  ∀ api popts catResponseObj data vars fuel c,
    variables_of api (cresp_id catResponseObj) = Some vars →
    (∀ offset, runs_page api (cresp_id catResponseObj) offset
               = Pagination.serve data offset) →
    (∀ id, is_Some (users (lookups api) id)) →
    (∀ id, is_Some (platforms (lookups api) id)) →
    Forall (λ rr, ∀ resp, rr = Some resp → rr_status resp ≠ None) data →
    (length data / 100 < fuel)%nat →
    ∃ catObj c' runs,
      Fetch.fetch_category api popts fuel catResponseObj c
      = Some (Normal (catObj, c')) ∧
      cat_id catObj = cresp_id catResponseObj ∧
      cat_variables catObj = Fetch.make_variable <$> vars ∧
      cat_runs catObj = Some runs ∧
      Forall (retained_run popts) runs ∧
      sublist (run_id <$> runs) ((λ rr, rr ≫= rr_id) <$> data).
Proof.
  intros api popts catResponseObj data vars fuel c Hvars Hpages Husers
    Hplatforms Hstatus Hfuel.
  unfold Fetch.fetch_category, Pagination.paginateSpeedrunApiRequest.
  rewrite Hvars.
  rewrite (paginate_loop_ext _ (Pagination.serve data) _ _ _ _ Hpages).
  rewrite paginate_loop_serve.
  2:{ pose proof (Nat.div_mod_eq (length data) 100).
      pose proof (Nat.mod_upper_bound (length data) 100 ltac:(lia)). nia. }
  rewrite drop_0.
  destruct (run_tasks_collect_returns api popts data (c, [])
              Husers Hplatforms Hstatus) as [[c' runs] Hrun].
  rewrite Hrun.
  destruct (run_tasks_collect api popts data c c' [] runs Hrun)
    as (new & -> & Hall & Hsub).
  eexists _, c', new. repeat split; simpl; done.
Qed.

(** X8 at the sample upstream, which serves two runs of the category. *)
Lemma fetched_category_holds_retained_runs_witness :
  ∃ catObj c' runs,
    Fetch.fetch_category MoreSamples.api Samples.defaults 1
      MoreSamples.category_response Samples.no_cache
    = Some (Normal (catObj, c')) ∧
    cat_id catObj = "cat" ∧
    cat_variables catObj = Fetch.make_variable <$> [] ∧
    cat_runs catObj = Some runs ∧
    Forall (retained_run Samples.defaults) runs ∧
    sublist (run_id <$> runs)
            ((λ rr, rr ≫= rr_id) <$> MoreSamples.served_runs).
Proof.
  apply (fetched_category_holds_retained_runs MoreSamples.api Samples.defaults
           MoreSamples.category_response MoreSamples.served_runs [] 1
           Samples.no_cache).
  - reflexivity.
  - intros offset. reflexivity.
  - intros id. by eexists.
  - intros id. by eexists.
  - repeat constructor; intros resp [= <-]; discriminate.
  - vm_compute. lia.
Defined.

(** ** More of the builder (lines 219-281) *)

Section MoreJsObjectFacts.

Context {V : Type}.
Implicit Types (o : JsObject.t V) (k : string) (v : V).

Lemma get_Some_key o k v : JsObject.get o k = Some v → k ∈ o.*1.
Proof.
  induction o as [|[k' v'] o IH]; csimpl; [done|].
  destruct (String.eqb k' k) eqn:E.
  - apply String.eqb_eq in E. subst. intros _. by left.
  - intros H. right. by apply IH.
Qed.

Lemma key_get_Some o k : k ∈ o.*1 → is_Some (JsObject.get o k).
Proof.
  induction o as [|[k' v'] o IH]; csimpl; [by intros ?%elem_of_nil|].
  destruct (String.eqb k' k) eqn:E; [by eexists|].
  apply String.eqb_neq in E.
  intros [?|?]%elem_of_cons; [congruence|by apply IH].
Qed.

Lemma set_keys_present o k v : k ∈ o.*1 → (JsObject.set o k v).*1 = o.*1.
Proof. intros Hk. rewrite set_keys. by rewrite bool_decide_eq_true_2. Qed.

End MoreJsObjectFacts.

Lemma placed_runs_set {R} (o : JsObject.t (Leaderboard R)) (k : string)
    (lb : Leaderboard R) :
  placed_runs (JsObject.set o k lb) ++ default [] (lb_runs <$> JsObject.get o k)
  ≡ₚ placed_runs o ++ lb_runs lb.
Proof.
  unfold placed_runs.
  induction o as [|[k' lb'] o IH]; csimpl.
  - by rewrite !app_nil_r.
  - destruct (String.eqb k' k) eqn:E; csimpl.
    + rewrite (Permutation_app_comm (lb_runs lb)), <- !app_assoc.
      rewrite (Permutation_app_comm (lb_runs lb')), <- !app_assoc. done.
    + by rewrite <- !app_assoc, IH.
Qed.

Section BuilderInvariants.

Variable popts : Options.

Lemma push_run_keyed (leaderboards : JsObject.t (Leaderboard Run))
    (catId lbId lbName : string) (usedVars : gmap string string) (runObj : Run) :
  keyed leaderboards →
  keyed (push_run leaderboards catId lbId lbName usedVars runObj).
Proof.
  intros Hk k lb. unfold push_run.
  destruct (decide (lbId = k)) as [<-|Hne].
  - rewrite get_set_eq. intros [= <-]. simpl.
    destruct (JsObject.get leaderboards lbId) as [old|] eqn:Hold; [|done].
    by apply Hk.
  - rewrite get_set_ne by done. apply Hk.
Qed.

Lemma push_run_placed (leaderboards : JsObject.t (Leaderboard Run))
    (catId lbId lbName : string) (usedVars : gmap string string) (runObj : Run) :
  placed_runs (push_run leaderboards catId lbId lbName usedVars runObj)
  ≡ₚ placed_runs leaderboards ++ [runObj].
Proof.
  unfold push_run.
  match goal with |- placed_runs (JsObject.set _ _ ?lb) ≡ₚ _ =>
    pose proof (placed_runs_set leaderboards lbId lb) as Hset end.
  simpl in Hset.
  destruct (JsObject.get leaderboards lbId) as [old|]; simpl in *.
  - rewrite app_assoc in Hset.
    rewrite (Permutation_app_comm _ (lb_runs old)) in Hset.
    rewrite (Permutation_app_comm (placed_runs leaderboards) (lb_runs old)) in Hset.
    rewrite <- app_assoc in Hset.
    by apply Permutation_app_inv_l in Hset.
  - by rewrite app_nil_r in Hset.
Qed.

Lemma place_runs_spec (catId : string) (catObj : Category) (runs : list Run)
    (leaderboards : JsObject.t (Leaderboard Run)) :
  keyed leaderboards → NoDup leaderboards.*1 →
  ∃ leaderboards',
    place_runs catId catObj leaderboards runs = Normal leaderboards' ∧
    keyed leaderboards' ∧ NoDup leaderboards'.*1 ∧
    placed_runs leaderboards' ≡ₚ placed_runs leaderboards ++ runs.
Proof.
  revert leaderboards.
  induction runs as [|runObj runs IH]; intros leaderboards Hk Hnd; simpl.
  - exists leaderboards. by rewrite app_nil_r.
  - destruct (place_run_returns catId catObj leaderboards runObj)
      as (lbId & lbName & usedVars & _ & ->).
    destruct (IH (push_run leaderboards catId lbId lbName usedVars runObj))
      as (lbs' & -> & Hk' & Hnd' & Hplaced).
    + by apply push_run_keyed.
    + by apply set_NoDup.
    + exists lbs'. repeat split; try done.
      by rewrite Hplaced, push_run_placed, <- app_assoc.
Qed.

Lemma build_category_spec (catId : string) (catObj : Category)
    (leaderboards : JsObject.t (Leaderboard Run)) :
  is_Some (cat_runs catObj) →
  keyed leaderboards → NoDup leaderboards.*1 →
  ∃ leaderboards',
    build_category popts catId catObj leaderboards
    = Normal ({| cat_id := cat_id catObj; cat_name := cat_name catObj;
                 cat_rules := cat_rules catObj;
                 cat_variables := cat_variables catObj; cat_runs := None |},
              leaderboards') ∧
    keyed leaderboards' ∧ NoDup leaderboards'.*1 ∧
    (breakoutVariables popts = true →
     placed_runs leaderboards'
     ≡ₚ placed_runs leaderboards ++ default [] (cat_runs catObj)) ∧
    (breakoutVariables popts = false →
     JsObject.get leaderboards' catId
     = Some {| lb_id := catId; categoryId := catId; lb_variables := ∅;
               lb_name := cat_name catObj;
               lb_runs := default [] (cat_runs catObj) |} ∧
     ∀ k, k ≠ catId →
          JsObject.get leaderboards' k = JsObject.get leaderboards k).
Proof.
  intros [runs Hruns] Hk Hnd. unfold build_category.
  rewrite Hruns. simpl.
  destruct (breakoutVariables popts).
  - destruct (place_runs_spec catId catObj runs leaderboards Hk Hnd)
      as (lbs' & -> & Hk' & Hnd' & Hplaced).
    eexists. repeat split; try done.
  - eexists. repeat split; try done.
    + intros k lb.
      destruct (decide (catId = k)) as [<-|Hne].
      * rewrite get_set_eq. by intros [= <-].
      * rewrite get_set_ne by done. apply Hk.
    + by apply set_NoDup.
    + apply get_set_eq.
    + intros k Hne. by apply get_set_ne.
Qed.

(** The loop over the categories, for the categories still to visit. *)
Lemma build_loop_spec (visit : list (string * Category))
    (categories : JsObject.t Category)
    (leaderboards : JsObject.t (Leaderboard Run)) :
  (∀ k catObj, (k, catObj) ∈ visit → is_Some (cat_runs catObj)) →
  (∀ k, k ∈ visit.*1 → k ∈ categories.*1) →
  NoDup visit.*1 →
  keyed leaderboards → NoDup leaderboards.*1 →
  ∃ categories' leaderboards',
    build_loop popts visit categories leaderboards
    = Normal (categories', leaderboards') ∧
    categories'.*1 = categories.*1 ∧
    (∀ k catObj', JsObject.get categories' k = Some catObj' →
       (k ∈ visit.*1 →
        ∃ catObj, (k, catObj) ∈ visit ∧
          catObj' = {| cat_id := cat_id catObj; cat_name := cat_name catObj;
                       cat_rules := cat_rules catObj;
                       cat_variables := cat_variables catObj;
                       cat_runs := None |}) ∧
       (k ∉ visit.*1 → JsObject.get categories k = Some catObj')) ∧
    keyed leaderboards' ∧ NoDup leaderboards'.*1 ∧
    (breakoutVariables popts = true →
     placed_runs leaderboards'
     ≡ₚ placed_runs leaderboards ++ fetched_runs visit) ∧
    (breakoutVariables popts = false →
     (∀ k catObj, (k, catObj) ∈ visit →
        JsObject.get leaderboards' k
        = Some {| lb_id := k; categoryId := k; lb_variables := ∅;
                  lb_name := cat_name catObj;
                  lb_runs := default [] (cat_runs catObj) |}) ∧
     (∀ k, k ∉ visit.*1 →
        JsObject.get leaderboards' k = JsObject.get leaderboards k)).
Proof.
  revert categories leaderboards.
  induction visit as [|[catId catObj] visit IH];
    intros categories leaderboards Hruns Hkeys Hndv Hk Hnd.
  - exists categories, leaderboards. simpl.
    split; [done|]. split; [done|]. split.
    { intros k c Hget. split; [by intros ?%elem_of_nil|done]. }
    split; [done|]. split; [done|]. split.
    { intros _. unfold fetched_runs. csimpl. by rewrite app_nil_r. }
    intros _. split; [by intros ? ? ?%elem_of_nil|done].
  - simpl. csimpl in Hndv. apply NoDup_cons in Hndv as [Hfresh Hndv].
    destruct (build_category_spec catId catObj leaderboards)
      as (lbs1 & -> & Hk1 & Hnd1 & Hplaced1 & Hplain1);
      [apply (Hruns catId); by left|done..|].
    assert (Hin : catId ∈ categories.*1) by (apply Hkeys; csimpl; by left).
    match goal with |- context [JsObject.set categories catId ?c] =>
      set (catObj' := c) end.
    destruct (IH (JsObject.set categories catId catObj') lbs1)
      as (cats' & lbs' & -> & Hkeys' & Hcats & Hk' & Hnd' & Hplaced & Hplain);
      try done.
    { intros k c ?. apply (Hruns k c). by right. }
    { intros k ?. rewrite set_keys_present by done. apply Hkeys. csimpl. by right. }
    exists cats', lbs'. split; [done|]. split.
    { by rewrite Hkeys', set_keys_present. }
    split.
    { intros k c' Hget. destruct (Hcats k c' Hget) as [Hin' Hout]. csimpl. split.
      - intros Hk0.
        destruct (decide (k ∈ visit.*1)) as [Hvis|Hvis].
        + destruct (Hin' Hvis) as (c & Hc & ->). exists c. split; [by right|done].
        + apply elem_of_cons in Hk0 as [->|?]; [|done].
          specialize (Hout Hvis). rewrite get_set_eq in Hout.
          injection Hout as <-. exists catObj. split; [by left|done].
      - intros Hnot. apply not_elem_of_cons in Hnot as [Hne Hnot].
        specialize (Hout Hnot). by rewrite get_set_ne in Hout. }
    split; [done|]. split; [done|]. split.
    { intros Hb. rewrite (Hplaced Hb), (Hplaced1 Hb). unfold fetched_runs.
      csimpl. by rewrite <- app_assoc. }
    intros Hb. destruct (Hplain Hb) as [Hvis Hrest].
    destruct (Hplain1 Hb) as [Hhere Hothers]. split.
    + intros k c [[= -> ->]|Hin']%elem_of_cons; [|by apply Hvis].
      by rewrite Hrest.
    + intros k Hnot. csimpl in Hnot. apply not_elem_of_cons in Hnot as [Hne Hnot].
      rewrite Hrest by done. by apply Hothers.
Qed.

Lemma for_in_keys_NoDup {V} (o : JsObject.t V) :
  NoDup o.*1 → NoDup (JsObject.for_in o).*1.
Proof.
  intros Hnd. by rewrite (fmap_Permutation fst _ _ (for_in_Permutation o)).
Qed.

End BuilderInvariants.

(** X9. Without breakout the builder makes exactly one leaderboard per
    category: it is stored under the category id, carries the category's
    name and no variables, and holds all the runs of the category. *)
Theorem plain_build_gives_one_leaderboard_per_category (popts : Options)
    (categories : JsObject.t Category) :
  breakoutVariables popts = false →
  NoDup categories.*1 →
  (∀ k catObj, (k, catObj) ∈ categories → is_Some (cat_runs catObj)) →
  ∃ categories' leaderboards,
    build popts categories = Normal (categories', leaderboards) ∧
    leaderboards.*1 ≡ₚ categories.*1 ∧
    ∀ k catObj, (k, catObj) ∈ categories →
      JsObject.get leaderboards k
      = Some {| lb_id := k; categoryId := k; lb_variables := ∅;
                lb_name := cat_name catObj;
                lb_runs := default [] (cat_runs catObj) |}.
Proof.
  intros Hb Hnd Hruns. unfold build.
  pose proof (for_in_Permutation categories) as Hperm.
  destruct (build_loop_spec popts (JsObject.for_in categories) categories [])
    as (cats' & lbs & Hbuild & _ & _ & _ & Hndl & _ & Hplain).
  - intros k c Hin. apply (Hruns k c). by rewrite <- Hperm.
  - intros k Hin. by rewrite <- Hperm.
  - by apply for_in_keys_NoDup.
  - by intros k lb.
  - constructor.
  - destruct (Hplain Hb) as [Hvis Hrest].
    exists cats', lbs. split; [done|]. split.
    + apply NoDup_Permutation; [done..|]. intros k. split.
      * intros [lb Hlb]%key_get_Some.
        destruct (decide (k ∈ (JsObject.for_in categories).*1)) as [Hin|Hout].
        -- by rewrite Hperm in Hin.
        -- rewrite (Hrest k Hout) in Hlb. done.
      * intros [[k' c] [-> Hin]]%list_elem_of_fmap. simpl.
        eapply get_Some_key. apply (Hvis k' c). by rewrite Hperm.
    + intros k c Hin. apply Hvis. by rewrite Hperm.
Qed.

(** X9 at one category with two runs. *)
Lemma plain_build_gives_one_leaderboard_per_category_witness :
  ∃ categories' leaderboards,
    build Samples.defaults [("cat", MoreSamples.category_with_runs)]
    = Normal (categories', leaderboards) ∧
    leaderboards.*1 ≡ₚ [("cat", MoreSamples.category_with_runs)].*1 ∧
    ∀ k catObj, (k, catObj) ∈ [("cat", MoreSamples.category_with_runs)] →
      JsObject.get leaderboards k
      = Some {| lb_id := k; categoryId := k; lb_variables := ∅;
                lb_name := cat_name catObj;
                lb_runs := default [] (cat_runs catObj) |}.
Proof.
  apply (plain_build_gives_one_leaderboard_per_category Samples.defaults
           [("cat", MoreSamples.category_with_runs)]).
  - reflexivity.
  - apply NoDup_singleton.
  - intros k catObj [= -> ->]%list_elem_of_singleton. by eexists.
Defined.





Section RouteVariables.

Variable runObj : Run.

Lemma chosen_value_recorded (catVariable : CatVariable)
    (pick : string * ValueInfo) :
  chosen_value catVariable runObj = Some pick →
  run_variables runObj !! var_id catVariable = Some pick.1.
Proof.
  unfold chosen_value.
  destruct (run_variables runObj !! var_id catVariable) as [value|]; simpl;
    [|done].
  destruct (negb _); [done|].
  destruct (var_values catVariable !! value); simpl; [|done].
  by intros [= <-].
Qed.

Lemma recorded_values_lookup (variables : list CatVariable)
    (picks : list (string * ValueInfo)) (usedVars : gmap string string)
    (k : string) :
  Forall2 (λ v p, chosen_value v runObj = Some p) variables picks →
  foldl (λ m vp, <[var_id vp.1 := vp.2.1]> m) usedVars (zip variables picks) !! k
  = if decide (k ∈ var_id <$> variables) then run_variables runObj !! k
    else usedVars !! k.
Proof.
  intros Hall. revert usedVars.
  induction Hall as [|v p vs ps Hv _ IH]; intros usedVars.
  - done.
  - rewrite fmap_cons. simpl. rewrite IH. apply chosen_value_recorded in Hv.
    destruct (decide (k ∈ var_id <$> vs)) as [Hin|Hout].
    + rewrite decide_True by (by right). done.
    + destruct (decide (k = var_id v)) as [->|Hne].
      * rewrite decide_True by (by left). by rewrite lookup_insert_eq.
      * rewrite decide_False
          by (intros [?|?]%elem_of_cons; done).
        by rewrite lookup_insert_ne.
Qed.

End RouteVariables.

(** X12. A run with a recognized value for every variable of its category
    is routed with a [variables] object that records, for each variable of
    the category, the value the run has for it, and nothing else. *)
Theorem breakout_variables_are_the_run_values (catId : string)
    (catObj : Category) (runObj : Run) (picks : list (string * ValueInfo)) :
  Forall2 (λ v p, chosen_value v runObj = Some p) (cat_variables catObj) picks →
  ∃ lbId lbName usedVars,
    route catId catObj runObj = Normal (lbId, lbName, usedVars) ∧
    ∀ k, usedVars !! k
         = if decide (k ∈ var_id <$> cat_variables catObj)
           then run_variables runObj !! k else None.
Proof.
  intros Hall. rewrite (route_categorized catId catObj runObj picks Hall).
  eexists _, _, _. split; [done|]. intros k.
  by rewrite (recorded_values_lookup runObj _ picks ∅ k Hall).
Qed.

(** X12 at the sample category and a run with a value for both variables. *)
Lemma breakout_variables_are_the_run_values_witness :
  ∃ lbId lbName usedVars,
    route "cat" Samples.category
      (Samples.run_with_values {[ "V1" := "A"; "V2" := "B"; "V3" := "C" ]})
    = Normal (lbId, lbName, usedVars) ∧
    ∀ k, usedVars !! k
         = if decide (k ∈ var_id <$> cat_variables Samples.category)
           then run_variables
                  (Samples.run_with_values
                     {[ "V1" := "A"; "V2" := "B"; "V3" := "C" ]}) !! k
           else None.
Proof.
  apply (breakout_variables_are_the_run_values "cat" Samples.category
           (Samples.run_with_values {[ "V1" := "A"; "V2" := "B"; "V3" := "C" ]})
           [("A", {| label := "Hard"; value_rules := None |});
            ("B", {| label := "1.0"; value_rules := None |})]).
  repeat constructor.
Defined.

Section NoVariables.

Variable catId : string.
Variable catObj : Category.
Hypothesis no_variables : cat_variables catObj = [].



End NoVariables.



(** ** More of the ranker (lines 284-317) *)

Lemma bind_set {V R} (f : V → list R) (o : JsObject.t V) (k : string) (v : V) :
  (JsObject.set o k v ≫= (λ p, f p.2)) ++ default [] (f <$> JsObject.get o k)
  ≡ₚ (o ≫= (λ p, f p.2)) ++ f v.
Proof.
  induction o as [|[k' v'] o IH]; csimpl.
  - by rewrite !app_nil_r.
  - destruct (String.eqb k' k) eqn:E; csimpl.
    + rewrite (Permutation_app_comm (f v)), <- !app_assoc.
      rewrite (Permutation_app_comm (f v')), <- !app_assoc. done.
    + by rewrite <- !app_assoc, IH.
Qed.

Lemma add_run_bind (o o' : JsObject.t (list Run)) (run : Run) :
  add_run o run = Normal o' →
  o' ≫= (λ p, p.2)
  ≡ₚ (o ≫= (λ p, p.2)) ++ filter (λ r, ranked_candidate r = true) [run].
Proof.
  intros ->%add_run_Normal.
  destruct (ranked_candidate run) eqn:Hc; simpl.
  - rewrite filter_cons_True by done. rewrite filter_nil.
    pose proof (bind_set (λ rs : list Run, rs) o
                  (default EmptyString (run_player_id run))
                  (default [] (JsObject.get o (default EmptyString (run_player_id run)))
                   ++ [run])) as Hset.
    destruct (JsObject.get o (default EmptyString (run_player_id run)))
      as [old|]; simpl in *.
    + rewrite app_assoc in Hset.
      rewrite (Permutation_app_comm _ old) in Hset.
      rewrite (Permutation_app_comm (o ≫= _) old) in Hset.
      rewrite <- app_assoc in Hset.
      by apply Permutation_app_inv_l in Hset.
    + by rewrite app_nil_r in Hset.
  - rewrite filter_cons_False by (by rewrite Hc). rewrite filter_nil.
    by rewrite app_nil_r.
Qed.

Lemma group_loop_bind (runs : list Run) (o o' : JsObject.t (list Run)) :
  group_loop runs o = Normal o' →
  o' ≫= (λ p, p.2)
  ≡ₚ (o ≫= (λ p, p.2)) ++ filter (λ r, ranked_candidate r = true) runs.
Proof.
  revert o. induction runs as [|run runs IH]; intros o; simpl.
  - intros [= <-]. by rewrite filter_nil, app_nil_r.
  - destruct (add_run o run) as [o1|] eqn:Hstep; [|done].
    intros Hloop. rewrite (IH _ Hloop), (add_run_bind _ _ _ Hstep), <- app_assoc.
    by rewrite <- filter_app.
Qed.

(** The partitions of the players hold the ranked candidates, all of them
    and once each. *)
Lemma group_runs_bind (runs : list Run) (g : JsObject.t (list Run)) :
  group_runs runs = Normal g →
  g ≫= (λ p, p.2) ≡ₚ filter (λ r, ranked_candidate r = true) runs.
Proof. unfold group_runs. intros Hg. by rewrite (group_loop_bind _ _ _ Hg). Qed.

Lemma rank_from_entry_runs (previous : option Entry) (i : nat)
    (pending : list Entry) :
  rank_from previous i pending ≫= entry_runs = pending ≫= entry_runs.
Proof.
  revert previous i.
  induction pending as [|current rest IH]; intros previous i; csimpl; [done|].
  rewrite IH.
  destruct previous as [previous|]; [|done].
  by destruct (num_eq _ _).
Qed.

Lemma collect_entries_entry_runs (popts : Options) (runs : list Run)
    (g : JsObject.t (list Run)) :
  includeRunHistory popts = true →
  group_runs runs = Normal g →
  collect_entries popts g ≫= entry_runs
  ≡ₚ filter (λ r, ranked_candidate r = true) runs.
Proof.
  intros Hh Hg. rewrite <- (group_runs_bind _ _ Hg).
  unfold collect_entries. rewrite for_in_Permutation.
  assert (H : ∀ o : JsObject.t (list Run),
            (∀ k rs, (k, rs) ∈ o → rs ≠ []) →
            omap (λ p, user_entry popts p.2) o ≫= entry_runs
            ≡ₚ o ≫= (λ p, p.2)).
  { induction o as [|[k rs] o IH]; intros Hall; csimpl; [done|].
    destruct (user_entry_Some popts rs) as (fastest & slower & Hsort & ->);
      [apply (Hall k); by left|].
    csimpl. rewrite IH by (intros; eapply Hall; by right).
    rewrite Hh. simpl.
    change (fastest :: slower ++ o ≫= (λ p : string * list Run, p.2))
      with ((fastest :: slower) ++ o ≫= (λ p : string * list Run, p.2)).
    by rewrite <- Hsort, js_sort_Permutation. }
  apply H. intros k rs Hin.
  by apply (elem_of_group_runs _ _ _ _ Hg) in Hin as [_ ?].
Qed.

Section HistoryFlag.

Variables popts popts' : Options.
Hypothesis no_history : includeRunHistory popts' = false.

Lemma user_entry_without_history (runsOfUser : list Run) :
  user_entry popts' runsOfUser = without_history <$> user_entry popts runsOfUser.
Proof.
  unfold user_entry. rewrite no_history.
  by destruct (js_sort by_time runsOfUser).
Qed.

Lemma collect_entries_without_history (runsByUserId : JsObject.t (list Run)) :
  collect_entries popts' runsByUserId
  = without_history <$> collect_entries popts runsByUserId.
Proof.
  unfold collect_entries.
  induction (JsObject.for_in runsByUserId) as [|[k rs] o IH]; csimpl; [done|].
  rewrite user_entry_without_history, IH.
  by destruct (user_entry popts rs).
Qed.

End HistoryFlag.

Lemma insert_sorted_without_history (e : Entry) (l : list Entry) :
  insert_sorted entry_by_time (without_history e) (without_history <$> l)
  = without_history <$> insert_sorted entry_by_time e l.
Proof.
  induction l as [|e' l IH]; csimpl; [done|].
  change (entry_by_time (without_history e) (without_history e'))
    with (entry_by_time e e').
  destruct (positive (entry_by_time e e')); csimpl; [by rewrite IH|done].
Qed.

Lemma js_sort_without_history (l : list Entry) :
  js_sort entry_by_time (without_history <$> l)
  = without_history <$> js_sort entry_by_time l.
Proof.
  induction l as [|e l IH]; csimpl; [done|].
  by rewrite IH, insert_sorted_without_history.
Qed.

Lemma rank_from_without_history (previous : option Entry) (i : nat)
    (pending : list Entry) :
  rank_from (without_history <$> previous) i (without_history <$> pending)
  = without_history <$> rank_from previous i pending.
Proof.
  revert previous i.
  induction pending as [|current rest IH]; intros previous i; csimpl; [done|].
  destruct previous as [previous|]; simpl.
  - destruct (num_eq _ _); simpl; rewrite <- (IH (Some _)); reflexivity.
  - rewrite <- (IH (Some _)). reflexivity.
Qed.

(** Every ranked entry has a rank, which is at least 1. *)
Lemma ranked_runs_have_rank (popts : Options) (runs : list Run)
    (es : list Entry) (e : Entry) :
  ranked_runs popts runs = Normal es →
  e ∈ es → ∃ n, rank e = Some n ∧ (1 ≤ n)%nat.
Proof.
  intros Hes [i Hi]%list_elem_of_lookup_1.
  rewrite (rank_counts_faster_entries popts runs es Hes i e Hi).
  eexists. split; [done|]. lia.
Qed.

Lemma ranked_runs_entry_runs (popts : Options) (runs : list Run)
    (es : list Entry) :
  includeRunHistory popts = true →
  ranked_runs popts runs = Normal es →
  es ≫= entry_runs ≡ₚ filter (λ r, ranked_candidate r = true) runs.
Proof.
  intros Hh (g & Hg & ->)%ranked_runs_Normal.
  rewrite rank_from_entry_runs, js_sort_Permutation.
  by apply collect_entries_entry_runs.
Qed.

(** X14. With run history the ranker loses no run that can be ranked:
    whenever it returns, the runs of the entries together with their
    obsolete runs are the runs of the leaderboard that have a time and a
    player id, each one once.  It returns unless such a run has a player
    id that names a member of [Object.prototype]. *)
Theorem history_keeps_every_ranked_run (popts : Options) (runs : list Run) :
  includeRunHistory popts = true →
  (Forall (λ run, ranked_candidate run = true →
                  inherited (default EmptyString (run_player_id run)) = false)
          runs →
   ∃ es, ranked_runs popts runs = Normal es) ∧
  ∀ es, ranked_runs popts runs = Normal es →
        es ≫= entry_runs ≡ₚ filter (λ r, ranked_candidate r = true) runs.
Proof.
  intros Hh. split; [apply ranked_runs_returns|].
  intros es (g & Hg & ->)%ranked_runs_Normal.
  rewrite rank_from_entry_runs, js_sort_Permutation.
  by apply collect_entries_entry_runs.
Qed.

(** X14 at two runs of one player, a run of another and a run without a
    time. *)
Lemma history_keeps_every_ranked_run_witness :
  ∃ es,
    ranked_runs Samples.with_history
      [Samples.run_of "u1" 20%Q; Samples.run_of "u2" 15%Q;
       Samples.run_of "u1" 10%Q; Samples.run_of "u3" 0%Q] = Normal es ∧
    es ≫= entry_runs
    ≡ₚ filter (λ r, ranked_candidate r = true)
         [Samples.run_of "u1" 20%Q; Samples.run_of "u2" 15%Q;
          Samples.run_of "u1" 10%Q; Samples.run_of "u3" 0%Q].
Proof.
  eexists. split; [vm_compute; reflexivity|].
  apply (history_keeps_every_ranked_run Samples.with_history
           [Samples.run_of "u1" 20%Q; Samples.run_of "u2" 15%Q;
            Samples.run_of "u1" 10%Q; Samples.run_of "u3" 0%Q] eq_refl).
  vm_compute. reflexivity.
Defined.

(** X15. The run history option changes nothing but the [obsoleteRuns] of
    the entries: the entries, their order and their ranks are those with
    history, and the other options play no part in the ranking.  The
    ranker throws without history exactly when it throws with it. *)
Theorem history_changes_only_obsolete_runs (popts popts' : Options)
    (runs : list Run) :
  includeRunHistory popts' = false →
  ranked_runs popts' runs
  = fmap (M := Completion) (fmap (M := list) without_history)
      (ranked_runs popts runs).
Proof.
  intros Hh. unfold ranked_runs.
  destruct (group_runs runs) as [g|e]; [|done]. simpl. f_equal.
  rewrite !assign_ranks_rank_from.
  rewrite (collect_entries_without_history popts popts' Hh).
  rewrite js_sort_without_history.
  apply (rank_from_without_history None).
Qed.

(** X15 at the sample options with and without history. *)
Lemma history_changes_only_obsolete_runs_witness :
  ranked_runs Samples.defaults
    [Samples.run_of "u1" 20%Q; Samples.run_of "u2" 15%Q; Samples.run_of "u1" 10%Q]
  = fmap (M := Completion) (fmap (M := list) without_history)
      (ranked_runs Samples.with_history
         [Samples.run_of "u1" 20%Q; Samples.run_of "u2" 15%Q;
          Samples.run_of "u1" 10%Q]).
Proof.
  apply (history_changes_only_obsolete_runs Samples.with_history
           Samples.defaults). reflexivity.
Defined.

(** ** The CSV export (lines 318-357) *)

Lemma ranked_runs_length (popts : Options) (runs : list Run)
    (g : JsObject.t (list Run)) :
  group_runs runs = Normal g →
  length (rank_from None 0 (js_sort entry_by_time (collect_entries popts g)))
  = length g.
Proof.
  intros Hg.
  rewrite <- (length_fmap entry_run), rank_from_runs, length_fmap.
  rewrite js_sort_length.
  rewrite <- (length_fmap (run_player_id ∘ entry_run)).
  rewrite (collect_entries_player_ids popts runs g Hg).
  by rewrite !length_fmap.
Qed.

Lemma group_runs_nil (runs : list Run) (g : JsObject.t (list Run)) :
  group_runs runs = Normal g →
  g = [] ↔ Forall (λ r, ranked_candidate r = false) runs.
Proof.
  intros Hg. pose proof (group_runs_bind runs g Hg) as Hperm. split.
  - intros Hnil. rewrite Hnil in Hperm. csimpl in Hperm.
    symmetry in Hperm. apply Permutation_nil_r in Hperm.
    apply Forall_forall. intros r Hr.
    destruct (ranked_candidate r) eqn:Hc; [|done].
    assert (Hin : r ∈ filter (λ r, ranked_candidate r = true) runs)
      by (by apply list_elem_of_filter).
    rewrite Hperm in Hin. by apply elem_of_nil in Hin.
  - intros Hall.
    rewrite (filter_none (λ r, ranked_candidate r = true)) in Hperm.
    2:{ intros r Hr. rewrite Forall_forall in Hall. rewrite (Hall r Hr). done. }
    destruct g as [|[k rs] g]; [done|].
    assert (Hin : (k, rs) ∈ (k, rs) :: g) by (by left).
    apply (elem_of_group_runs _ _ _ _ Hg) in Hin as [_ Hne].
    csimpl in Hperm. apply Permutation_nil_r in Hperm.
    by destruct rs.
Qed.

(** A leaderboard that has been ranked keeps its fields, with the ranked
    entries for runs. *)
Lemma rank_leaderboard_Normal (popts : Options) (lbObj : Leaderboard Run)
    (lbObj' : Leaderboard Entry) :
  rank_leaderboard popts lbObj = Normal lbObj' ↔
  ∃ es, ranked_runs popts (lb_runs lbObj) = Normal es ∧
        lbObj' = {| lb_id := lb_id lbObj; categoryId := categoryId lbObj;
                    lb_variables := lb_variables lbObj;
                    lb_name := lb_name lbObj; lb_runs := es |}.
Proof.
  unfold rank_leaderboard.
  destruct (ranked_runs popts (lb_runs lbObj)) as [es|e]; split.
  - intros [= <-]. by exists es.
  - by intros (es' & [= <-] & ->).
  - done.
  - by intros (es' & ? & _).
Qed.

Section CsvFacts.

Import CsvExport.

Variable stringify : gmap string string → string.

Lemma ranked_lines (es : list Entry) :
  Forall (λ e, is_Some (rank e)) es →
  filter (λ l, is_Some (csv_rank l)) (es ≫= entry_lines stringify)
  = (λ e, makeCsvLine stringify (rank e) (entry_run e)) <$> es.
Proof.
  induction 1 as [|e es He _ IH]; [done|].
  rewrite bind_cons, filter_app, fmap_cons, IH. unfold entry_lines at 1.
  rewrite filter_cons_True by done.
  rewrite (filter_none (λ l, is_Some (csv_rank l))); [done|].
  intros l Hl. destruct (obsoleteRuns e) as [history|];
    [|by apply elem_of_nil in Hl].
  apply list_elem_of_fmap in Hl as (r & -> & _). simpl. by intros [? ?].
Qed.

Lemma lines_without_history (es : list Entry) :
  Forall (λ e, obsoleteRuns e = None) es →
  es ≫= entry_lines stringify
  = (λ e, makeCsvLine stringify (rank e) (entry_run e)) <$> es.
Proof.
  induction 1 as [|e es He _ IH]; [done|].
  rewrite bind_cons, fmap_cons, IH. unfold entry_lines. by rewrite He.
Qed.

Lemma lines_length (es : list Entry) :
  length (es ≫= entry_lines stringify) = length (es ≫= entry_runs).
Proof.
  induction es as [|e es IH]; [done|].
  rewrite !bind_cons, !length_app, IH. f_equal.
  unfold entry_lines, entry_runs. simpl.
  destruct (obsoleteRuns e); simpl; [by rewrite length_fmap|done].
Qed.

Lemma csv_lines_default (lbObj : Leaderboard Entry) :
  default [] (csv_lines stringify lbObj) = lb_runs lbObj ≫= entry_lines stringify.
Proof. unfold csv_lines. by destruct (lb_runs lbObj). Qed.

End CsvFacts.

(** X16. Whenever the ranker returns for a leaderboard, the CSV export
    skips the leaderboard (writes no file for it) exactly when none of its
    runs can be ranked, every one lacking a time or a player id; it makes
    rows for every other ranked leaderboard. *)
Theorem csv_is_skipped_without_ranked_runs :
  ∀ (stringify : gmap string string → string) popts lbObj lbObj',
    rank_leaderboard popts lbObj = Normal lbObj' →
    CsvExport.csv_lines stringify lbObj' = None
    ↔ Forall (λ r, ranked_candidate r = false) (lb_runs lbObj).
Proof.
  intros stringify popts lbObj lbObj'
    (es & (g & Hg & ->)%ranked_runs_Normal & ->)%rank_leaderboard_Normal.
  rewrite <- (group_runs_nil _ _ Hg).
  unfold CsvExport.csv_lines. simpl.
  pose proof (ranked_runs_length popts (lb_runs lbObj) g Hg) as Hlen.
  destruct (rank_from None 0 _), g; simpl in Hlen; done.
Qed.

(** X16 at a leaderboard with one run that can be ranked and one without a
    player. *)
Lemma csv_is_skipped_without_ranked_runs_witness :
  ∃ lbObj',
    rank_leaderboard Samples.defaults
      {| lb_id := "cat"; categoryId := "cat"; lb_variables := ∅;
         lb_name := "Any%";
         lb_runs := [Samples.run_of "u1" 10%Q; Samples.run_with_values ∅] |}
    = Normal lbObj' ∧
    (CsvExport.csv_lines (λ _, "{}") lbObj' = None
     ↔ Forall (λ r, ranked_candidate r = false)
         [Samples.run_of "u1" 10%Q; Samples.run_with_values ∅]).
Proof.
  eexists. split; [vm_compute; reflexivity|].
  apply (csv_is_skipped_without_ranked_runs (λ _, "{}") Samples.defaults
           {| lb_id := "cat"; categoryId := "cat"; lb_variables := ∅;
              lb_name := "Any%";
              lb_runs := [Samples.run_of "u1" 10%Q;
                          Samples.run_with_values ∅] |}).
  vm_compute. reflexivity.
Defined.

(** X17. Whenever the ranker returns for a leaderboard, the rows of its
    CSV that carry a rank are the rows of the entries, in the order of the
    ranking; the rows of obsolete runs carry none.  Without run history
    there is nothing but the rows of the entries, and with it there is one
    row for every run of the leaderboard that has a time and a player
    id. *)
Theorem csv_rows_of_ranked_leaderboard :
  ∀ (stringify : gmap string string → string) popts lbObj lbObj',
    rank_leaderboard popts lbObj = Normal lbObj' →
    let lines := default [] (CsvExport.csv_lines stringify lbObj') in
    let entry_rows :=
      (λ e, CsvExport.makeCsvLine stringify (rank e) (entry_run e))
      <$> lb_runs lbObj' in
    filter (λ l, is_Some (CsvExport.csv_rank l)) lines = entry_rows ∧
    (includeRunHistory popts = false → lines = entry_rows) ∧
    (includeRunHistory popts = true →
     length lines
     = length (filter (λ r, ranked_candidate r = true) (lb_runs lbObj))).
Proof.
  intros stringify popts lbObj lbObj'
    (es & Hes & ->)%rank_leaderboard_Normal lines entry_rows.
  subst lines entry_rows.
  rewrite csv_lines_default. simpl. split; [|split].
  - apply ranked_lines, Forall_forall. intros e He.
    destruct (ranked_runs_have_rank popts _ es e Hes He) as (n & -> & _).
    by eexists.
  - intros Hh. apply lines_without_history, Forall_forall. intros e He.
    destruct (ranked_runs_elem popts _ es Hes e He)
      as (? & ? & ? & _ & _ & _ & ->).
    by rewrite Hh.
  - intros Hh. rewrite lines_length.
    by rewrite (ranked_runs_entry_runs popts _ es Hh Hes).
Qed.

(** X17 at a leaderboard with two runs of one player and a run of another,
    with run history. *)
Lemma csv_rows_of_ranked_leaderboard_witness :
  ∃ lbObj',
    rank_leaderboard Samples.with_history
      {| lb_id := "cat"; categoryId := "cat"; lb_variables := ∅;
         lb_name := "Any%";
         lb_runs := [Samples.run_of "u1" 20%Q; Samples.run_of "u2" 15%Q;
                     Samples.run_of "u1" 10%Q] |}
    = Normal lbObj' ∧
    filter (λ l, is_Some (CsvExport.csv_rank l))
      (default [] (CsvExport.csv_lines (λ _, "{}") lbObj'))
    = (λ e, CsvExport.makeCsvLine (λ _, "{}") (rank e) (entry_run e))
      <$> lb_runs lbObj' ∧
    (includeRunHistory Samples.with_history = false →
     default [] (CsvExport.csv_lines (λ _, "{}") lbObj')
     = (λ e, CsvExport.makeCsvLine (λ _, "{}") (rank e) (entry_run e))
       <$> lb_runs lbObj') ∧
    (includeRunHistory Samples.with_history = true →
     length (default [] (CsvExport.csv_lines (λ _, "{}") lbObj'))
     = length (filter (λ r, ranked_candidate r = true)
                 [Samples.run_of "u1" 20%Q; Samples.run_of "u2" 15%Q;
                  Samples.run_of "u1" 10%Q])).
Proof.
  eexists. split; [vm_compute; reflexivity|].
  apply (csv_rows_of_ranked_leaderboard (λ _, "{}") Samples.with_history
           {| lb_id := "cat"; categoryId := "cat"; lb_variables := ∅;
              lb_name := "Any%";
              lb_runs := [Samples.run_of "u1" 20%Q; Samples.run_of "u2" 15%Q;
                          Samples.run_of "u1" 10%Q] |}).
  vm_compute. reflexivity.
Defined.

(** ** The name of a CSV file (line 341) *)

Section FileName.

Import CsvExport.

Lemma lower_char_not_capital (c : ascii) :
  ¬ (65 ≤ N_of_ascii (lower_char c) ≤ 90)%N.
Proof. destruct c as [[] [] [] [] [] [] [] []]; vm_compute; intros [? ?]; done. Qed.

Lemma lower_char_idemp (c : ascii) : lower_char (lower_char c) = lower_char c.
Proof. by destruct c as [[] [] [] [] [] [] [] []]. Qed.

Lemma is_separator_lower_char (c : ascii) :
  is_separator (lower_char c) = is_separator c.
Proof. by destruct c as [[] [] [] [] [] [] [] []]. Qed.

Lemma toLowerCase_idemp (s : string) : toLowerCase (toLowerCase s) = toLowerCase s.
Proof. induction s as [|c s IH]; simpl; [done|]. by rewrite lower_char_idemp, IH. Qed.

Lemma toLowerCase_replace_separators (in_run : bool) (s : string) :
  toLowerCase (replace_separators in_run s)
  = replace_separators in_run (toLowerCase s).
Proof.
  revert in_run. induction s as [|c s IH]; intros in_run; simpl; [done|].
  rewrite is_separator_lower_char.
  destruct (is_separator c) eqn:Hc; [destruct in_run|]; simpl; by rewrite IH.
Qed.

Lemma replace_separators_idemp (in_run : bool) (s : string) :
  replace_separators in_run (replace_separators in_run s)
  = replace_separators in_run s.
Proof.
  revert in_run. induction s as [|c s IH]; intros in_run; simpl; [done|].
  destruct (is_separator c) eqn:Hc; [destruct in_run|]; simpl.
  - apply IH.
  - by rewrite IH.
  - by rewrite Hc, IH.
Qed.

Lemma replace_separators_chars (in_run : bool) (s : string) :
  Forall (λ c, (is_separator c = true → c = "_"%char)
               ∧ (c = "_"%char ∨ c ∈ list_ascii_of_string s))
         (list_ascii_of_string (replace_separators in_run s)).
Proof.
  revert in_run. induction s as [|c s IH]; intros in_run; simpl; [constructor|].
  assert (Hweaken : ∀ b,
    Forall (λ c', (is_separator c' = true → c' = "_"%char)
                  ∧ (c' = "_"%char ∨ c' ∈ c :: list_ascii_of_string s))
           (list_ascii_of_string (replace_separators b s))).
  { intros b. eapply Forall_impl; [apply IH|]. simpl.
    intros c' [? [?|?]]; split; try done; [by left|right; by right]. }
  destruct (is_separator c) eqn:Hc; [destruct in_run|]; simpl.
  - apply Hweaken.
  - constructor; [|apply Hweaken]. split; [done|by left].
  - constructor; [|apply Hweaken]. split; [congruence|right; by left].
Qed.

Lemma list_ascii_of_toLowerCase (s : string) :
  list_ascii_of_string (toLowerCase s) = lower_char <$> list_ascii_of_string s.
Proof. induction s as [|c s IH]; simpl; [done|]. by rewrite IH. Qed.

End FileName.

(** X18. The part of a CSV file name that comes from the name of the
    leaderboard holds no capital letter and no white space, slash or
    hyphen: of the characters the replacement looks for only the
    underscore is left. *)
Theorem file_name_has_no_separator_or_capital :
  ∀ lbName,
    CsvExport.ascii_only lbName →
    Forall (λ c, (CsvExport.is_separator c = true → c = "_"%char)
                 ∧ ¬ (65 ≤ N_of_ascii c ≤ 90)%N)
      (list_ascii_of_string
         (CsvExport.replace_separators false (CsvExport.toLowerCase lbName))).
Proof.
  intros lbName _.
  eapply Forall_impl; [apply replace_separators_chars|]. simpl.
  intros c [Hsep Hfrom]. split; [done|].
  destruct Hfrom as [->|Hin]; [vm_compute; by intros [? ?]|].
  rewrite list_ascii_of_toLowerCase in Hin.
  apply list_elem_of_fmap in Hin as (c0 & -> & _).
  apply lower_char_not_capital.
Qed.

(** X18 at a name with capitals, spaces, a hyphen and a slash. *)
Lemma file_name_has_no_separator_or_capital_witness :
  Forall (λ c, (CsvExport.is_separator c = true → c = "_"%char)
               ∧ ¬ (65 ≤ N_of_ascii c ≤ 90)%N)
    (list_ascii_of_string
       (CsvExport.replace_separators false
          (CsvExport.toLowerCase "Any% - Hard/NG+"))).
Proof.
  apply (file_name_has_no_separator_or_capital "Any% - Hard/NG+").
  unfold CsvExport.ascii_only. vm_compute. repeat constructor.
Defined.

(** X19. The file name of a leaderboard depends on its name only up to the
    case of the letters and the runs of separators: the name made for the
    file is left as it is when it is taken as a leaderboard name again, so
    leaderboards whose names differ in nothing else are written to the
    same file. *)
Theorem file_name_is_a_normal_form :
  ∀ gameAbbrev lbName,
    CsvExport.ascii_only lbName →
    CsvExport.csv_file_name gameAbbrev
      (CsvExport.replace_separators false (CsvExport.toLowerCase lbName))
    = CsvExport.csv_file_name gameAbbrev lbName.
Proof.
  intros gameAbbrev lbName _. unfold CsvExport.csv_file_name.
  rewrite toLowerCase_replace_separators, toLowerCase_idemp.
  by rewrite replace_separators_idemp.
Qed.

(** X19 at a name with capitals, spaces, a hyphen and a slash. *)
Lemma file_name_is_a_normal_form_witness :
  CsvExport.csv_file_name "game" "any%_hard_ng+"
  = CsvExport.csv_file_name "game" "Any% - Hard/NG+".
Proof.
  apply (file_name_is_a_normal_form "game" "Any% - Hard/NG+").
  unfold CsvExport.ascii_only. vm_compute. repeat constructor.
Defined.

(** ** The throttle (lines 26-35) *)

(** X20. Two requests are never stamped less than a second apart: when
    the timer waits at least the delay it is asked for, the time stamp
    taken after the wait is at least [REQUEST_TIMESTAMP_INTERVAL] after
    the stamp of the request before.  No timer is set once a second has
    passed, and a delay that is set is longer than a second only when the
    clock went backwards. *)
Theorem requests_are_a_second_apart :
  ∀ now lastRequestTimestamp later,
    now + default 0 (Throttle.throttle_delay now lastRequestTimestamp) ≤ later →
    Throttle.REQUEST_TIMESTAMP_INTERVAL ≤ later - lastRequestTimestamp ∧
    (Throttle.throttle_delay now lastRequestTimestamp = None
     ↔ Throttle.REQUEST_TIMESTAMP_INTERVAL ≤ now - lastRequestTimestamp) ∧
    ∀ delay, Throttle.throttle_delay now lastRequestTimestamp = Some delay →
             0 < delay ∧
             (lastRequestTimestamp ≤ now →
              delay ≤ Throttle.REQUEST_TIMESTAMP_INTERVAL).
Proof.
  intros now lastRequestTimestamp later.
  unfold Throttle.throttle_delay, Throttle.REQUEST_TIMESTAMP_INTERVAL.
  destruct (Z.ltb_spec (now - lastRequestTimestamp) 1000); simpl; intros Hwait.
  - split; [lia|]. split; [split; [done|lia]|].
    intros delay [= <-]. lia.
  - split; [lia|]. split; [done|]. by intros delay.
Qed.

(** X20 at a request made 300 ms after the one before. *)
Lemma requests_are_a_second_apart_witness :
  Throttle.REQUEST_TIMESTAMP_INTERVAL ≤ 6000 - 5000 ∧
  (Throttle.throttle_delay 5300 5000 = None
   ↔ Throttle.REQUEST_TIMESTAMP_INTERVAL ≤ 5300 - 5000) ∧
  ∀ delay, Throttle.throttle_delay 5300 5000 = Some delay →
           0 < delay ∧
           (5000 ≤ 5300 → delay ≤ Throttle.REQUEST_TIMESTAMP_INTERVAL).
Proof.
  apply (requests_are_a_second_apart 5300 5000 6000). vm_compute. discriminate.
Defined.

(** ** From the requests to the ranked leaderboards (lines 185-317) *)

Section ExportFacts.

Import Fetch.

Variable api : Api.
Variable popts : Options.

(** The categories fetched so far hold retained runs only. *)
Lemma fetch_loop_retained (fuel : nat) (catResponse : list CategoryResponse)
    (categories categories' : JsObject.t Category) (c c' : Caches) :
  NoDup categories.*1 →
  (∀ k catObj, JsObject.get categories k = Some catObj →
     ∃ runs, cat_runs catObj = Some runs ∧ Forall (retained_run popts) runs) →
  fetch_loop api popts fuel catResponse categories c
  = Some (Normal (categories', c')) →
  NoDup categories'.*1 ∧
  ∀ k catObj, JsObject.get categories' k = Some catObj →
    ∃ runs, cat_runs catObj = Some runs ∧ Forall (retained_run popts) runs.
Proof.
  revert categories c.
  induction catResponse as [|catResponseObj rest IH];
    intros categories c Hnd Hall; simpl.
  - by intros [= <- <-].
  - destruct (fetch_category api popts fuel catResponseObj c)
      as [[[catObj c1]|]|] eqn:Hfetch; [|done..].
    apply fetch_category_retained in Hfetch as [_ Hruns].
    apply IH; [by apply set_NoDup|].
    intros k catObj' Hget.
    destruct (decide (cat_id catObj = k)) as [<-|Hne].
    + rewrite get_set_eq in Hget. by injection Hget as <-.
    + rewrite get_set_ne in Hget by done. by apply (Hall k).
Qed.

Lemma fetch_categories_retained (fuel : nat) (gameId : string)
    (categories : JsObject.t Category) (c c' : Caches) :
  fetch_categories api popts fuel gameId c = Some (Normal (categories, c')) →
  NoDup categories.*1 ∧
  ∀ k catObj, (k, catObj) ∈ categories →
    ∃ runs, cat_runs catObj = Some runs ∧ Forall (retained_run popts) runs.
Proof.
  unfold fetch_categories.
  destruct (categories_of (api) gameId) as [catResponse|]; [|done].
  intros Hloop.
  apply fetch_loop_retained in Hloop as [Hnd Hall]; [|constructor|done].
  split; [done|]. intros k catObj Hin. apply (Hall k).
  by apply elem_of_get.
Qed.

End ExportFacts.

(** Every run of a leaderboard the builder makes is a run of a category,
    and the builder leaves no category with runs. *)
Lemma build_runs_come_from_categories (popts : Options)
    (categories categories' : JsObject.t Category)
    (leaderboards : JsObject.t (Leaderboard Run)) :
  NoDup categories.*1 →
  (∀ k catObj, (k, catObj) ∈ categories → is_Some (cat_runs catObj)) →
  build popts categories = Normal (categories', leaderboards) →
  (∀ k catObj, (k, catObj) ∈ categories' → cat_runs catObj = None) ∧
  ∀ k lbObj run, (k, lbObj) ∈ leaderboards → run ∈ lb_runs lbObj →
    ∃ k' catObj runs, (k', catObj) ∈ categories ∧ cat_runs catObj = Some runs
                      ∧ run ∈ runs.
Proof.
  intros Hnd Hruns. unfold build.
  pose proof (for_in_Permutation categories) as Hperm.
  destruct (build_loop_spec popts (JsObject.for_in categories) categories [])
    as (cats' & lbs & -> & Hkeys & Hcats & Hk & Hndl & Hplaced & Hplain).
  - intros k c Hin. apply (Hruns k c). by rewrite <- Hperm.
  - intros k Hin. by rewrite <- Hperm.
  - by apply for_in_keys_NoDup.
  - by intros k lb.
  - constructor.
  - intros [= <- <-]. split.
    + intros k c' Hin.
      apply elem_of_get in Hin; [|by rewrite Hkeys].
      destruct (Hcats k c' Hin) as [Hvis _].
      destruct Hvis as (c & _ & ->); [|done].
      rewrite Hperm, <- Hkeys. by eapply get_Some_key.
    + intros k lbObj run Hlb Hrun.
      assert (Hfetched : run ∈ fetched_runs (JsObject.for_in categories)).
      { destruct (breakoutVariables popts) eqn:Hb.
        - rewrite <- (app_nil_l (fetched_runs _)).
          change (@nil Run) with (placed_runs (@nil (string * Leaderboard Run))).
          rewrite <- (Hplaced eq_refl). unfold placed_runs.
          apply list_elem_of_bind. by exists (k, lbObj).
        - destruct (Hplain eq_refl) as [Hvis Hrest].
          apply elem_of_get in Hlb; [|done].
          destruct (decide (k ∈ (JsObject.for_in categories).*1)) as [Hin|Hout].
          + apply list_elem_of_fmap in Hin as ([k' c] & -> & Hin). simpl in *.
            rewrite (Hvis k' c Hin) in Hlb. injection Hlb as <-. simpl in Hrun.
            unfold fetched_runs. apply list_elem_of_bind. by exists (k', c).
          + rewrite (Hrest k Hout) in Hlb. done. }
      unfold fetched_runs in Hfetched.
      apply list_elem_of_bind in Hfetched as ([k' c] & Hin & Hc). simpl in *.
      rewrite Hperm in Hc.
      destruct (cat_runs c) as [runs|] eqn:Hcr; [|by apply elem_of_nil in Hin].
      by exists k', c, runs.
Qed.

(** Every ranked leaderboard is the ranking of a leaderboard of the
    builder, under the same key. *)
Lemma rank_all_elem (popts : Options)
    (leaderboards : JsObject.t (Leaderboard Run))
    (leaderboards' : JsObject.t (Leaderboard Entry))
    (k : string) (lbObj' : Leaderboard Entry) :
  rank_all popts leaderboards = Normal leaderboards' →
  (k, lbObj') ∈ leaderboards' →
  ∃ lbObj, (k, lbObj) ∈ leaderboards ∧
           rank_leaderboard popts lbObj = Normal lbObj'.
Proof.
  revert leaderboards'.
  induction leaderboards as [|[k0 lb0] rest IH]; intros leaderboards'; simpl.
  - intros [= <-] Hin. by apply elem_of_nil in Hin.
  - destruct (rank_leaderboard popts lb0) as [lb0'|] eqn:Hrank; [|done].
    destruct (rank_all popts rest) as [rest'|]; [|done].
    intros [= <-] [[= -> ->]|Hin]%elem_of_cons.
    + exists lb0. split; [by left|done].
    + destruct (IH rest' eq_refl Hin) as (lb & Hlb & Hr).
      exists lb. split; [by right|done].
Qed.

(** X21. Whatever the upstream sends, the leaderboards the program ranks
    hold nothing but retained runs that can be ranked: every entry has a
    rank, starting at 1, and its run and its obsolete runs are runs the
    normalizer retained under the options, with a time and a player id.
    Without run history no entry has obsolete runs, and no category is
    left with runs of its own. *)
Theorem exported_entries_are_retained_runs :
  ∀ api popts fuel gameId c categories leaderboards,
    Fetch.export_data api popts fuel gameId c
    = Some (Normal (categories, leaderboards)) →
    (∀ k catObj, (k, catObj) ∈ categories → cat_runs catObj = None) ∧
    ∀ k lbObj e, (k, lbObj) ∈ leaderboards → e ∈ lb_runs lbObj →
      (∃ n, rank e = Some n ∧ (1 ≤ n)%nat) ∧
      Forall (λ r, retained_run popts r ∧ ranked_candidate r = true)
             (entry_runs e) ∧
      (includeRunHistory popts = false → obsoleteRuns e = None).
Proof.
  intros api popts fuel gameId c categories leaderboards.
  unfold Fetch.export_data.
  destruct (Fetch.fetch_categories api popts fuel gameId c)
    as [[[fetched c1]|]|] eqn:Hfetch; [|done..].
  apply fetch_categories_retained in Hfetch as [Hnd Hretained].
  destruct (build popts fetched) as [[cats' lbs]|] eqn:Hbuild; [|done].
  destruct (rank_all popts lbs) as [lbs'|] eqn:Hrank; [|done].
  intros [= <- <-].
  apply build_runs_come_from_categories in Hbuild as [Hdeleted Hfrom];
    [|done|].
  2:{ intros k catObj Hin. destruct (Hretained k catObj Hin) as (? & -> & _).
      by eexists. }
  split; [done|]. intros k lbObj e Hlb He.
  destruct (rank_all_elem popts lbs lbs' k lbObj Hrank Hlb)
    as (lb & Hlb' & (es & Hes & ->)%rank_leaderboard_Normal).
  simpl in He.
  assert (Hretained' : ∀ run, run ∈ lb_runs lb → retained_run popts run).
  { intros run Hrun.
    destruct (Hfrom k lb run Hlb' Hrun) as (k0 & catObj & runs & Hc & Hcr & Hin).
    destruct (Hretained k0 catObj Hc) as (runs' & Hcr' & Hall).
    rewrite Hcr in Hcr'. injection Hcr' as <-.
    rewrite Forall_forall in Hall. by apply Hall. }
  destruct (ranked_runs_are_candidates popts _ es e Hes He)
    as [[Hin Hc] Hhistory].
  split; [by eapply ranked_runs_have_rank|]. split.
  - unfold entry_runs. constructor; [split; [by apply Hretained'|done]|].
    destruct (obsoleteRuns e) as [history|]; simpl; [|constructor].
    apply Forall_forall. intros run Hrun.
    destruct (Hhistory history eq_refl run Hrun). split; [by apply Hretained'|done].
  - intros Hh.
    destruct (ranked_runs_elem popts _ es Hes e He)
      as (? & ? & ? & _ & _ & _ & ->).
    by rewrite Hh.
Qed.

(** X21 at the sample upstream, which serves one category with a verified
    run and a run without a time. *)
Lemma exported_entries_are_retained_runs_witness :
  ∃ categories leaderboards,
    Fetch.export_data MoreSamples.api Samples.with_history 1 "game"
      Samples.no_cache
    = Some (Normal (categories, leaderboards)) ∧
    (∀ k catObj, (k, catObj) ∈ categories → cat_runs catObj = None) ∧
    ∀ k lbObj e, (k, lbObj) ∈ leaderboards → e ∈ lb_runs lbObj →
      (∃ n, rank e = Some n ∧ (1 ≤ n)%nat) ∧
      Forall (λ r, retained_run Samples.with_history r
                   ∧ ranked_candidate r = true)
             (entry_runs e) ∧
      (includeRunHistory Samples.with_history = false → obsoleteRuns e = None).
Proof.
  eexists _, _. split; [vm_compute; reflexivity|].
  apply (exported_entries_are_retained_runs MoreSamples.api
           Samples.with_history 1 "game" Samples.no_cache).
  vm_compute. reflexivity.
Defined.
